(** * powerquery-parser: parser state rollback, binary-operator typing,
      keyword / primitive-type autocomplete and grapheme columns.

    A shallow embedding of the TypeScript sources.  JavaScript strings are
    modelled as [string] (one character per UTF-16 code unit), string enums
    as the strings they are at run time, [Map] and [Set] as insertion-ordered
    association lists and duplicate-free lists, exceptions as the [Throw]
    branch of a result type, and mutable objects by explicit state passing. *)

From Stdlib Require Import List String Ascii Bool Arith ZArith Lia.
From Stdlib Require Import Sorted.
Import ListNotations.
Open Scope string_scope.
Set Warnings "-register-all".

(* ------------------------------------------------------------------ *)
(** ** Positions and tokens (language/token.ts) *)

(** A position of the caret or of a token boundary. *)
Record Position : Type := mkPosition {
  lineNumber : Z;
  lineCodeUnit : Z
}.

Module Token.
Record Token : Type := mkToken {
  kind : string;                     (* Token.TokenKind *)
  data : string;
  positionStart : Position;
  positionEnd : Position
}.
End Token.

Record GraphemePosition : Type := mkGraphemePosition {
  graphemeLineNumber : Z;
  graphemeLineCodeUnit : Z;
  columnNumber : Z
}.

(* ------------------------------------------------------------------ *)
(** ** Faults (common/error.ts, parser/error.ts) and the result of a call
       that may throw *)

(** What a [throw] can carry: the three inner common errors, a [CommonError]
    wrapping one of them, the inner parse errors, and any other value. *)
Inductive Fault : Type :=
| InvariantError (invariantBroken : string)
| CancellationError
| UnknownError (innerError : Fault)
| CommonError (innerError : Fault)
| UnusedTokensRemainError (token : Token.Token) (positionStart : GraphemePosition)
| InnerParseError (name : string)
| ForeignFault (message : string).

Definition isCommonError (error : Fault) : bool :=
  match error with
  | CommonError _ => true
  | _ => false
  end.

Definition isTInnerCommonError (x : Fault) : bool :=
  match x with
  | CancellationError | InvariantError _ | UnknownError _ => true
  | _ => false
  end.

(** Modelled from the spec: parser/error.ts is not under src/; the inner
    parse errors are the ParseError members of the spec's taxonomy. *)
Definition isTInnerParseError (x : Fault) : bool :=
  match x with
  | UnusedTokensRemainError _ _ | InnerParseError _ => true
  | _ => false
  end.

Definition ensureCommonError (err : Fault) : Fault :=
  if isCommonError err then err
  else if isTInnerCommonError err then CommonError err
  else CommonError (UnknownError err).

Inductive Res (A : Type) : Type :=
| Ok (value : A)
| Throw (fault : Fault).
Arguments Ok {A} value.
Arguments Throw {A} fault.

Definition bindRes {A B : Type} (r : Res A) (k : A -> Res B) : Res B :=
  match r with
  | Ok a => k a
  | Throw f => Throw f
  end.

Notation "'let*' x ':=' r 'in' k" := (bindRes r (fun x => k))
  (at level 10, x name, r at level 100, k at level 200).

(* ------------------------------------------------------------------ *)
(** ** common/stringUtils.ts : columnNumberFrom *)

Module StringUtils.

Definition codeUnits (s : string) : Z := Z.of_nat (String.length s).

(** The body of the [for (const grapheme of graphemes)] loop, with the two
    mutable counters threaded through. *)
Fixpoint columnNumberLoop (graphemes : list string) (requiredCodeUnit : Z)
         (columnNumber summedCodeUnits : Z) : Res Z :=
  match graphemes with
  | [] => Throw (InvariantError "no columnNumber can be generated for required codeUnit")
  | grapheme :: rest =>
      if (summedCodeUnits =? requiredCodeUnit)%Z
      then Ok columnNumber
      else columnNumberLoop rest requiredCodeUnit
             (columnNumber + 1)%Z (summedCodeUnits + codeUnits grapheme)%Z
  end.

(** [splitGraphemes] is the external grapheme splitter. *)
Definition columnNumberFrom (splitGraphemes : string -> list string)
           (text : string) (requiredCodeUnit : Z) : Res Z :=
  columnNumberLoop (splitGraphemes text) requiredCodeUnit 0%Z 0%Z.

(** Summed code-unit length of a sequence of graphemes. *)
Definition summedLength (graphemes : list string) : Z :=
  fold_right (fun g acc => (codeUnits g + acc)%Z) 0%Z graphemes.

(** A splitter for texts made of one-code-unit graphemes only. *)
Fixpoint splitCodeUnits (text : string) : list string :=
  match text with
  | EmptyString => []
  | String c rest => String c EmptyString :: splitCodeUnits rest
  end.

End StringUtils.

(* ------------------------------------------------------------------ *)
(** ** JavaScript strings, Map and Set as the sources use them *)

Module Js.

Definition comma : ascii := ","%char.

(** [s.lastIndexOf(c)] for a one-character needle: -1 when absent. *)
Fixpoint lastIndexOf (c : ascii) (s : string) : Z :=
  match s with
  | EmptyString => (-1)%Z
  | String a rest =>
      let i := lastIndexOf c rest in
      if (0 <=? i)%Z then (i + 1)%Z
      else if Ascii.eqb a c then 0%Z else (-1)%Z
  end.

(** Index normalisation of [String.prototype.slice]: negative indices count
    from the end, everything is clamped to [0, length]. *)
Definition clampIndex (len i : Z) : Z :=
  if (i <? 0)%Z then Z.max (len + i) 0 else Z.min i len.

Definition slice (s : string) (start stop : Z) : string :=
  let len := Z.of_nat (String.length s) in
  let from := clampIndex len start in
  let to := clampIndex len stop in
  substring (Z.to_nat from) (Z.to_nat (to - from)) s.

(** [s.slice(start)] *)
Definition sliceFrom (s : string) (start : Z) : string :=
  slice s start (Z.of_nat (String.length s)).

(** [s.startsWith(p)] *)
Definition startsWith (s p : string) : bool := String.prefix p s.

Fixpoint countChar (c : ascii) (s : string) : nat :=
  match s with
  | EmptyString => 0
  | String a rest => (if Ascii.eqb a c then 1 else 0) + countChar c rest
  end.

(** [Map<string, V>]: entries in insertion order, one entry per key. *)
Definition Map (V : Type) : Type := list (string * V).

Fixpoint get {V : Type} (key : string) (m : Map V) : option V :=
  match m with
  | [] => None
  | (k, v) :: rest => if String.eqb k key then Some v else get key rest
  end.

(** [m.set(key, value)]: an existing key keeps its position. *)
Fixpoint set {V : Type} (key : string) (value : V) (m : Map V) : Map V :=
  match m with
  | [] => [(key, value)]
  | (k, v) :: rest =>
      if String.eqb k key then (k, value) :: rest
      else (k, v) :: set key value rest
  end.

Definition keys {V : Type} (m : Map V) : list string := List.map fst m.

(** [new Map(entries)] *)
Definition mapOfEntries {V : Type} (entries : list (string * V)) : Map V :=
  fold_left (fun m kv => set (fst kv) (snd kv) m) entries [].

(** [Set<string>]: members in insertion order. *)
Definition StringSet : Type := list string.

Definition has (x : string) (s : StringSet) : bool :=
  existsb (String.eqb x) s.

Definition add (x : string) (s : StringSet) : StringSet :=
  if has x s then s else (s ++ [x])%list.

End Js.

(* ------------------------------------------------------------------ *)
(** ** language: the string enums the sources refer to *)

(** Modelled from the spec: language/type.ts is not under src/; the members
    of [Type.TypeKind] are the kinds the operator tables of the spec name,
    each a string enum member spelled as its name. *)
Module TypeKind.
Definition Any := "Any".
Definition Binary := "Binary".
Definition Date := "Date".
Definition DateTime := "DateTime".
Definition DateTimeZone := "DateTimeZone".
Definition Duration := "Duration".
Definition List := "List".
Definition Logical := "Logical".
Definition None := "None".
Definition Null := "Null".
Definition Number := "Number".
Definition Record := "Record".
Definition Table := "Table".
Definition Text := "Text".
Definition Time := "Time".
Definition Unknown := "Unknown".
End TypeKind.

(** Modelled from the spec: language/constant.ts is not under src/; the
    operator constants are spelled as the operators of the spec's tables. *)
Module ArithmeticOperatorKind.
Definition Multiplication := "*".
Definition Division := "/".
Definition Addition := "+".
Definition Subtraction := "-".
Definition And := "&".
End ArithmeticOperatorKind.

Module EqualityOperatorKind.
Definition EqualTo := "=".
Definition NotEqualTo := "<>".
End EqualityOperatorKind.

Module LogicalOperatorKind.
Definition And := "and".
Definition Or := "or".
End LogicalOperatorKind.

Module RelationalOperatorKind.
Definition LessThan := "<".
Definition LessThanEqualTo := "<=".
Definition GreaterThan := ">".
Definition GreaterThanEqualTo := ">=".
End RelationalOperatorKind.

(* ------------------------------------------------------------------ *)
(** ** parser/nodeIdMap/xorNode.ts : the uniform view of a node *)

Inductive XorNodeKind : Type := Ast | Context.

Definition XorNodeKind_eqb (a b : XorNodeKind) : bool :=
  match a, b with
  | Ast, Ast | Context, Context => true
  | _, _ => false
  end.

(** The fields of [Ast.TNode] and [ParseContext.Node] that the sources read.
    A field a node does not carry is [None] ([undefined] in the source). *)
Record Node : Type := mkNode {
  id : nat;
  nodeKind : string;                 (* Ast.NodeKind *)
  maybeAttributeIndex : option nat;
  constantKind : option string;      (* of an Ast.IConstant *)
  literal : option string;           (* of an identifier or a literal *)
  literalKind : option string;       (* of an Ast.LiteralExpression *)
  positionStart : Position;          (* tokenRange.positionStart *)
  positionEnd : Position             (* tokenRange.positionEnd *)
}.

Record TXorNode : Type := mkXor {
  kind : XorNodeKind;
  node : Node
}.

(* ------------------------------------------------------------------ *)
(** ** inspection/type/binOpExpression.ts *)

Module BinOp.

(** Modelled from the spec: language/type.ts is not under src/.  [TType] is
    the tagged union of the spec, with [isNullable] everywhere; a primitive
    type has no extended kind, [DefinedRecord] and [DefinedTable] are the
    extended types of kind Record and Table, and the other extended kinds
    belong to other type kinds. *)
Inductive TType : Type :=
| Primitive (typeKind : string) (nullable : bool)
| AnyUnion (nullable : bool) (unionedTypePairs : list TType)
| DefinedRecord (nullable : bool) (fields : Js.Map TType) (open : bool)
| DefinedTable (nullable : bool) (fields : Js.Map TType) (open : bool)
| DefinedFunction (nullable : bool)
| DefinedList (nullable : bool).

Inductive ExtendedTypeKind : Type :=
| ExtAnyUnion | ExtDefinedRecord | ExtDefinedTable | ExtDefinedFunction | ExtDefinedList.

Definition ExtendedTypeKind_eqb (a b : ExtendedTypeKind) : bool :=
  match a, b with
  | ExtAnyUnion, ExtAnyUnion | ExtDefinedRecord, ExtDefinedRecord
  | ExtDefinedTable, ExtDefinedTable | ExtDefinedFunction, ExtDefinedFunction
  | ExtDefinedList, ExtDefinedList => true
  | _, _ => false
  end.

Definition typeKindOf (t : TType) : string :=
  match t with
  | Primitive k _ => k
  | AnyUnion _ _ => TypeKind.Any
  | DefinedRecord _ _ _ => TypeKind.Record
  | DefinedTable _ _ _ => TypeKind.Table
  | DefinedFunction _ => "Function"
  | DefinedList _ => TypeKind.List
  end.

Definition maybeExtendedKind (t : TType) : option ExtendedTypeKind :=
  match t with
  | Primitive _ _ => None
  | AnyUnion _ _ => Some ExtAnyUnion
  | DefinedRecord _ _ _ => Some ExtDefinedRecord
  | DefinedTable _ _ _ => Some ExtDefinedTable
  | DefinedFunction _ => Some ExtDefinedFunction
  | DefinedList _ => Some ExtDefinedList
  end.

Definition isNullable (t : TType) : bool :=
  match t with
  | Primitive _ n | AnyUnion n _ | DefinedRecord n _ _ | DefinedTable n _ _
  | DefinedFunction n | DefinedList n => n
  end.

(** The [fields] and [isOpen] members of the types that carry them. *)
Definition fieldsOf (t : TType) : option (Js.Map TType) :=
  match t with
  | DefinedRecord _ f _ | DefinedTable _ f _ => Some f
  | _ => None
  end.

Definition isOpenOf (t : TType) : option bool :=
  match t with
  | DefinedRecord _ _ o | DefinedTable _ _ o => Some o
  | _ => None
  end.

Definition UnknownInstance : TType := Primitive TypeKind.Unknown false.
Definition NoneInstance : TType := Primitive TypeKind.None false.

(** Modelled from the spec: TypeUtils.primitiveTypeFactory is not under src/;
    "a primitive of that kind" with the given nullability. *)
Definition primitiveTypeFactory (nullable : bool) (typeKind : string) : TType :=
  Primitive typeKind nullable.

(** Modelled from the spec: TypeUtils.anyUnionFactory is not under src/; "an
    AnyUnion of those kinds", nullable when one of its members is. *)
Definition anyUnionFactory (unionedTypePairs : list TType) : TType :=
  AnyUnion (existsb isNullable unionedTypePairs) unionedTypePairs.

(** *** The operator tables *)

Definition lookupKey (leftTypeKind operatorKind rightTypeKind : string) : string :=
  leftTypeKind ++ "," ++ operatorKind ++ "," ++ rightTypeKind.

Definition partialLookupKey (leftTypeKind operatorKind : string) : string :=
  leftTypeKind ++ "," ++ operatorKind.

Definition createLookupsForRelational (typeKind : string) : list (string * string) :=
  [ (lookupKey typeKind RelationalOperatorKind.GreaterThan typeKind, TypeKind.Logical);
    (lookupKey typeKind RelationalOperatorKind.GreaterThanEqualTo typeKind, TypeKind.Logical);
    (lookupKey typeKind RelationalOperatorKind.LessThan typeKind, TypeKind.Logical);
    (lookupKey typeKind RelationalOperatorKind.LessThanEqualTo typeKind, TypeKind.Logical) ].

Definition createLookupsForEquality (typeKind : string) : list (string * string) :=
  [ (lookupKey typeKind EqualityOperatorKind.EqualTo typeKind, TypeKind.Logical);
    (lookupKey typeKind EqualityOperatorKind.NotEqualTo typeKind, TypeKind.Logical) ].

Definition createLookupsForArithmetic (typeKind : string) : list (string * string) :=
  [ (lookupKey typeKind ArithmeticOperatorKind.Addition typeKind, typeKind);
    (lookupKey typeKind ArithmeticOperatorKind.Division typeKind, typeKind);
    (lookupKey typeKind ArithmeticOperatorKind.Multiplication typeKind, typeKind);
    (lookupKey typeKind ArithmeticOperatorKind.Subtraction typeKind, typeKind) ].

Definition createLookupsForLogical (typeKind : string) : list (string * string) :=
  [ (lookupKey typeKind LogicalOperatorKind.And typeKind, typeKind);
    (lookupKey typeKind LogicalOperatorKind.Or typeKind, typeKind) ].

Definition createLookupsForClockKind (typeKind : string) : list (string * string) :=
  [ (lookupKey typeKind ArithmeticOperatorKind.Addition TypeKind.Duration, typeKind);
    (lookupKey TypeKind.Duration ArithmeticOperatorKind.Addition typeKind, typeKind);
    (lookupKey typeKind ArithmeticOperatorKind.Subtraction TypeKind.Duration, typeKind);
    (lookupKey typeKind ArithmeticOperatorKind.Subtraction typeKind, TypeKind.Duration) ].

Definition LookupEntries : list (string * string) :=
  (createLookupsForRelational TypeKind.Null ++
   createLookupsForEquality TypeKind.Null ++

   createLookupsForRelational TypeKind.Logical ++
   createLookupsForEquality TypeKind.Logical ++
   createLookupsForLogical TypeKind.Logical ++

   createLookupsForRelational TypeKind.Number ++
   createLookupsForEquality TypeKind.Number ++
   createLookupsForArithmetic TypeKind.Number ++

   createLookupsForRelational TypeKind.Time ++
   createLookupsForEquality TypeKind.Time ++
   createLookupsForClockKind TypeKind.Time ++
   [ (lookupKey TypeKind.Date ArithmeticOperatorKind.And TypeKind.Time, TypeKind.DateTime) ] ++

   createLookupsForRelational TypeKind.Date ++
   createLookupsForEquality TypeKind.Date ++
   createLookupsForClockKind TypeKind.Date ++
   [ (lookupKey TypeKind.Date ArithmeticOperatorKind.And TypeKind.Time, TypeKind.DateTime) ] ++

   createLookupsForRelational TypeKind.DateTime ++
   createLookupsForEquality TypeKind.DateTime ++
   createLookupsForClockKind TypeKind.DateTime ++

   createLookupsForRelational TypeKind.DateTimeZone ++
   createLookupsForEquality TypeKind.DateTimeZone ++
   createLookupsForClockKind TypeKind.DateTimeZone ++

   createLookupsForRelational TypeKind.Duration ++
   createLookupsForEquality TypeKind.Duration ++
   [ (lookupKey TypeKind.Duration ArithmeticOperatorKind.Addition TypeKind.Duration, TypeKind.Duration);
     (lookupKey TypeKind.Duration ArithmeticOperatorKind.Subtraction TypeKind.Duration, TypeKind.Duration);
     (lookupKey TypeKind.Duration ArithmeticOperatorKind.Multiplication TypeKind.Number, TypeKind.Duration);
     (lookupKey TypeKind.Number ArithmeticOperatorKind.Multiplication TypeKind.Duration, TypeKind.Duration);
     (lookupKey TypeKind.Duration ArithmeticOperatorKind.Division TypeKind.Number, TypeKind.Duration) ] ++

   createLookupsForRelational TypeKind.Text ++
   createLookupsForEquality TypeKind.Text ++
   [ (lookupKey TypeKind.Text ArithmeticOperatorKind.And TypeKind.Text, TypeKind.Text) ] ++

   createLookupsForRelational TypeKind.Binary ++
   createLookupsForEquality TypeKind.Binary ++

   createLookupsForEquality TypeKind.List ++
   [ (lookupKey TypeKind.List ArithmeticOperatorKind.And TypeKind.List, TypeKind.List) ] ++

   createLookupsForEquality TypeKind.Record ++
   [ (lookupKey TypeKind.Record ArithmeticOperatorKind.And TypeKind.Record, TypeKind.Record) ] ++

   createLookupsForEquality TypeKind.Table ++
   [ (lookupKey TypeKind.Table ArithmeticOperatorKind.And TypeKind.Table, TypeKind.Table) ])%list.

Definition Lookup : Js.Map string := Js.mapOfEntries LookupEntries.

(** The callback of the [reduce] that builds the partial index. *)
Definition partialLookupStep (binaryExpressionPartialLookup : Js.Map Js.StringSet)
           (key : string) : Js.Map Js.StringSet :=
  let lastDeliminatorIndex := Js.lastIndexOf Js.comma key in
  let partialKey := Js.slice key 0 lastDeliminatorIndex in
  let potentialNewValue := Js.sliceFrom key (lastDeliminatorIndex + 1) in
  match Js.get partialKey binaryExpressionPartialLookup with
  | None => Js.set partialKey [potentialNewValue] binaryExpressionPartialLookup
  | Some maybeValues =>
      Js.set partialKey (Js.add potentialNewValue maybeValues) binaryExpressionPartialLookup
  end.

(** The two slices the callback takes of a key: what precedes its last
    comma, and what follows it. *)
Definition splitKey (key : string) : string * string :=
  (Js.slice key 0 (Js.lastIndexOf Js.comma key),
   Js.sliceFrom key (Js.lastIndexOf Js.comma key + 1)).

(** [m] indexes the keys [ks]: every key is filed under its prefix, and the
    set filed under a prefix holds the last components of the keys with that
    prefix and nothing else. *)
Definition indexes (m : Js.Map Js.StringSet) (ks : list string) : Prop :=
  NoDup (Js.keys m) /\
  (forall key, In key ks ->
     exists s, Js.get (fst (splitKey key)) m = Some s /\ In (snd (splitKey key)) s) /\
  (forall pk s, Js.get pk m = Some s ->
     forall x, In x s <-> exists key, In key ks /\ splitKey key = (pk, x)).

Definition buildPartialLookup (lookupKeys : list string) : Js.Map Js.StringSet :=
  Js.mapOfEntries (fold_left partialLookupStep lookupKeys []).

Definition PartialLookup : Js.Map Js.StringSet := buildPartialLookup (Js.keys Lookup).

(** *** Type.Record | Type.Table | Type.DefinedRecord | Type.DefinedTable *)

Inductive TRecordOrTable : Type :=
| RecordT (nullable : bool)
| TableT (nullable : bool)
| DefinedRecordT (nullable : bool) (fields : Js.Map TType) (open : bool)
| DefinedTableT (nullable : bool) (fields : Js.Map TType) (open : bool).

Definition toTType (t : TRecordOrTable) : TType :=
  match t with
  | RecordT n => Primitive TypeKind.Record n
  | TableT n => Primitive TypeKind.Table n
  | DefinedRecordT n f o => DefinedRecord n f o
  | DefinedTableT n f o => DefinedTable n f o
  end.

(** The [as TRecordOrTable] cast; it is unchecked in the source, and [None]
    marks the values the cast is not sound for. *)
Definition asRecordOrTable (t : TType) : option TRecordOrTable :=
  match t with
  | Primitive k n =>
      if String.eqb k TypeKind.Record then Some (RecordT n)
      else if String.eqb k TypeKind.Table then Some (TableT n)
      else None
  | DefinedRecord n f o => Some (DefinedRecordT n f o)
  | DefinedTable n f o => Some (DefinedTableT n f o)
  | _ => None
  end.

Definition isExtended (t : TRecordOrTable) : bool :=
  match maybeExtendedKind (toTType t) with
  | Some _ => true
  | None => false
  end.

(** [{ ...extendedType, isOpen: true }] *)
Definition withIsOpenTrue (t : TRecordOrTable) : TType :=
  match t with
  | RecordT n => Primitive TypeKind.Record n
  | TableT n => Primitive TypeKind.Table n
  | DefinedRecordT n f _ => DefinedRecord n f true
  | DefinedTableT n f _ => DefinedTable n f true
  end.

(** [new Map(leftFields)] followed by [combinedFields.set(key, value)] for
    each entry of the right-hand fields. *)
Definition combineFields (leftFields rightFields : Js.Map TType) : Js.Map TType :=
  fold_left (fun combinedFields kv => Js.set (fst kv) (snd kv) combinedFields)
            rightFields leftFields.

Definition unionFields (leftType rightType : TRecordOrTable) : Res TType :=
  match leftType, rightType with
  | DefinedRecordT ln lf lo, DefinedRecordT rn rf ro =>
      Ok (DefinedRecord (ln && rn) (combineFields lf rf) (lo || ro))
  | DefinedTableT ln lf lo, DefinedTableT rn rf ro =>
      Ok (DefinedTable (ln && rn) (combineFields lf rf) (lo || ro))
  | _, _ => Throw (InvariantError "should never be reached")
  end.

Definition inspectRecordOrTableUnion (leftType rightType : TRecordOrTable) : Res TType :=
  let l := toTType leftType in
  let r := toTType rightType in
  if negb (String.eqb (typeKindOf l) (typeKindOf r)) then
    Throw (InvariantError "leftType.kind !== rightType.kind")
  else if negb (isExtended leftType) && negb (isExtended rightType) then
    Ok (primitiveTypeFactory (isNullable l || isNullable r) (typeKindOf l))
  else if (isExtended leftType && negb (isExtended rightType))
          || (negb (isExtended leftType) && isExtended rightType) then
    Ok (withIsOpenTrue (if isExtended leftType then leftType else rightType))
  else
    match maybeExtendedKind l, maybeExtendedKind r with
    | Some el, Some er =>
        if ExtendedTypeKind_eqb el er then unionFields leftType rightType
        else Throw (InvariantError "should never be reached")
    | _, _ => Throw (InvariantError "should never be reached")
    end.

(** *** inspectTypeTBinOpExpression *)

(** What the function reads of [InspectTypeState]: whether the cancellation
    token (if any) is cancelled, and the children of a node as
    [NodeIdMapIterator.assertIterChildrenXor] lists them from
    [state.nodeIdMapCollection]. *)
Record InspectTypeState : Type := mkInspectTypeState {
  isCancelled : bool;
  assertIterChildrenXor : nat -> Res (list TXorNode)
}.

Section InspectType.
(** [AstUtils.isTBinOpExpressionKind] and [inspectXor] of ./common, which
    calls back into this function for nested binary expressions. *)
Variable isTBinOpExpressionKind : string -> bool.
Variable inspectXor : InspectTypeState -> TXorNode -> Res TType.

Definition maybeOperatorKindOf (children : list TXorNode) : option string :=
  match nth_error children 1 with
  | None => None
  | Some child =>
      if XorNodeKind_eqb (kind child) Context then None
      else constantKind (node child)
  end.

Definition isAbsentOrContext (maybeXorNode : option TXorNode) : bool :=
  match maybeXorNode with
  | None => true
  | Some xorNode => XorNodeKind_eqb (kind xorNode) Context
  end.

Definition inspectTypeTBinOpExpression (state : InspectTypeState)
           (xorNode : TXorNode) : Res TType :=
  if isCancelled state then Throw CancellationError
  else if negb (isTBinOpExpressionKind (nodeKind (node xorNode))) then
    Throw (InvariantError "xorNode isn't a TBinOpExpression")
  else
    let parentId := id (node xorNode) in
    let* children := assertIterChildrenXor state parentId in
    let maybeLeft := nth_error children 0 in
    let maybeOperatorKind := maybeOperatorKindOf children in
    let maybeRight := nth_error children 2 in
    match maybeLeft with
    | None => Ok UnknownInstance
    | Some leftXor =>
        match maybeOperatorKind with
        | None => inspectXor state leftXor
        | Some operatorKind =>
            if isAbsentOrContext maybeRight then
              let* leftType := inspectXor state leftXor in
              let key := partialLookupKey (typeKindOf leftType) operatorKind in
              match Js.get key PartialLookup with
              | None => Ok NoneInstance
              | Some [onlyKind] =>
                  Ok (primitiveTypeFactory (isNullable leftType) onlyKind)
              | Some maybeAllowedTypeKinds =>
                  Ok (anyUnionFactory
                        (List.map (fun typeKind => Primitive typeKind true)
                                  maybeAllowedTypeKinds))
              end
            else
              match maybeRight with
              | None => Ok UnknownInstance
              | Some rightXor =>
                  let* leftType := inspectXor state leftXor in
                  let* rightType := inspectXor state rightXor in
                  let key := lookupKey (typeKindOf leftType) operatorKind
                                       (typeKindOf rightType) in
                  match Js.get key Lookup with
                  | None => Ok NoneInstance
                  | Some resultTypeKind =>
                      if String.eqb operatorKind ArithmeticOperatorKind.And
                         && (String.eqb resultTypeKind TypeKind.Record
                             || String.eqb resultTypeKind TypeKind.Table)
                      then
                        match asRecordOrTable leftType, asRecordOrTable rightType with
                        | Some l, Some r => inspectRecordOrTableUnion l r
                        | _, _ => Throw (InvariantError "not a record or table type")
                        end
                      else
                        Ok (primitiveTypeFactory
                              (isNullable leftType || isNullable rightType)
                              resultTypeKind)
                  end
              end
        end
    end.
End InspectType.

(** Modelled from the spec: inspection/type/common.ts ([inspectXor]) is not
    under src/.  Only literals are typed here: a literal has the primitive
    type of its literal kind, nullable for the null literal alone (scenario
    S7 types a text literal as a non-nullable Text). *)
Definition inspectXorLiteral (state : InspectTypeState) (xorNode : TXorNode) : Res TType :=
  match kind xorNode, literalKind (node xorNode) with
  | Ast, Some literalKind =>
      if String.eqb literalKind "Null" then Ok (Primitive TypeKind.Null true)
      else if String.eqb literalKind "Numeric" then Ok (Primitive TypeKind.Number false)
      else if String.eqb literalKind "Text" then Ok (Primitive TypeKind.Text false)
      else if String.eqb literalKind "Logical" then Ok (Primitive TypeKind.Logical false)
      else Ok UnknownInstance
  | _, _ => Ok UnknownInstance
  end.

(** [AstUtils.isTBinOpExpressionKind] on the kinds used below. *)
Definition isTBinOpExpressionKind (nodeKind : string) : bool :=
  existsb (String.eqb nodeKind)
    [ "ArithmeticExpression"; "AsExpression"; "EqualityExpression"; "IsExpression";
      "LogicalExpression"; "MetadataExpression"; "RelationalExpression" ].

(** The nodes of the partially parsed text [1 +]: an open ArithmeticExpression
    (id 1) over the literal [1] (id 2) and the operator constant [+] (id 3). *)
Module OnePlus.
Definition at0 (column : Z) : Position := mkPosition 0 column.
Definition literalOne : TXorNode :=
  mkXor Ast (mkNode 2 "LiteralExpression" (Some 0%nat) None (Some "1") (Some "Numeric")
                    (at0 0) (at0 1)).
Definition plus : TXorNode :=
  mkXor Ast (mkNode 3 "Constant" (Some 1%nat) (Some "+") None None (at0 2) (at0 3)).
Definition arithmeticExpression : TXorNode :=
  mkXor Context (mkNode 1 "ArithmeticExpression" None None None None (at0 0) (at0 3)).
Definition state : InspectTypeState :=
  mkInspectTypeState false
    (fun parentId => if Nat.eqb parentId 1 then Ok [literalOne; plus] else Ok []).
End OnePlus.

(** The nodes of [[a = 1] & [b = 2]]: an ArithmeticExpression (id 1) over two
    record expressions (ids 2 and 4) and the operator constant [&] (id 3),
    with the types [inspectXor] gives the two records. *)
Module RecordAnd.
Definition at0 (column : Z) : Position := mkPosition 0 column.
Definition leftRecord : TXorNode :=
  mkXor Ast (mkNode 2 "RecordExpression" (Some 0%nat) None None None (at0 0) (at0 7)).
Definition ampersand : TXorNode :=
  mkXor Ast (mkNode 3 "Constant" (Some 1%nat) (Some "&") None None (at0 8) (at0 9)).
Definition rightRecord : TXorNode :=
  mkXor Ast (mkNode 4 "RecordExpression" (Some 2%nat) None None None (at0 10) (at0 17)).
Definition arithmeticExpression : TXorNode :=
  mkXor Ast (mkNode 1 "ArithmeticExpression" None None None None (at0 0) (at0 17)).
Definition state : InspectTypeState :=
  mkInspectTypeState false
    (fun parentId =>
       if Nat.eqb parentId 1 then Ok [leftRecord; ampersand; rightRecord] else Ok []).
Definition leftType : TType :=
  DefinedRecord false [("a", Primitive TypeKind.Number false)] false.
Definition rightType : TType :=
  DefinedRecord false [("b", Primitive TypeKind.Number false)] false.
Definition inspectXor (state : InspectTypeState) (xorNode : TXorNode) : Res TType :=
  if Nat.eqb (id (node xorNode)) 2 then Ok leftType
  else if Nat.eqb (id (node xorNode)) 4 then Ok rightType
  else inspectXorLiteral state xorNode.
End RecordAnd.

End BinOp.

(* ------------------------------------------------------------------ *)
(** ** Map<number, V>: the maps of the node-id collection *)

Module NumMap.

Definition t (V : Type) : Type := list (nat * V).

Fixpoint get {V : Type} (key : nat) (m : t V) : option V :=
  match m with
  | [] => None
  | (k, v) :: rest => if Nat.eqb k key then Some v else get key rest
  end.

Fixpoint set {V : Type} (key : nat) (value : V) (m : t V) : t V :=
  match m with
  | [] => [(key, value)]
  | (k, v) :: rest =>
      if Nat.eqb k key then (k, value) :: rest
      else (k, v) :: set key value rest
  end.

Definition delete {V : Type} (key : nat) (m : t V) : t V :=
  filter (fun kv => negb (Nat.eqb (fst kv) key)) m.

Definition keys {V : Type} (m : t V) : list nat := List.map fst m.

(** [delete] for each id of a list, in order. *)
Definition deleteAll {V : Type} (nodeIds : list nat) (m : t V) : t V :=
  fold_left (fun m nodeId => delete nodeId m) nodeIds m.

End NumMap.

(* ------------------------------------------------------------------ *)
(** ** parser/context : the node-id collection and the open contexts *)

Module ParseContext.

(** An open context ([ParseContext.Node]). *)
Record ContextNode : Type := mkContextNode {
  contextId : nat;
  contextKind : string;
  tokenIndexStart : nat;
  contextAttributeIndex : option nat;
  attributeCounter : nat
}.

Record Collection : Type := mkCollection {
  astNodeById : NumMap.t Node;
  contextNodeById : NumMap.t ContextNode;
  parentIdById : NumMap.t nat;
  childIdsById : NumMap.t (list nat)
}.

Record State : Type := mkState {
  nodeIdMapCollection : Collection;
  idCounter : nat;
  leafNodeIds : list nat
}.

(** [ParseContextUtils.newState] *)
Definition newState : State :=
  mkState (mkCollection [] [] [] []) 0 [].

Definition removeId (nodeId : nat) (ids : list nat) : list nat :=
  filter (fun i => negb (Nat.eqb i nodeId)) ids.

(** [childIdsById.get(parentId)], an absent entry read as no children. *)
Definition childIdsOf (collection : Collection) (parentId : nat) : list nat :=
  match NumMap.get parentId (childIdsById collection) with
  | Some ids => ids
  | None => []
  end.

(** [ids] with [nodeId] replaced, in place, by [replacement]. *)
Definition replaceId (nodeId : nat) (replacement : list nat) (ids : list nat) : list nat :=
  flat_map (fun i => if Nat.eqb i nodeId then replacement else [i]) ids.

(** A parent left without children loses its entry. *)
Definition setChildIds (parentId : nat) (ids : list nat)
           (childIdsById : NumMap.t (list nat)) : NumMap.t (list nat) :=
  match ids with
  | [] => NumMap.delete parentId childIdsById
  | _ => NumMap.set parentId ids childIdsById
  end.

(** An open parent gets the attribute slot of a child that leaves it back. *)
Definition giveBackAttribute (parentId : nat) (contextNodeById : NumMap.t ContextNode)
  : NumMap.t ContextNode :=
  match NumMap.get parentId contextNodeById with
  | Some parent =>
      NumMap.set parentId
        (mkContextNode (contextId parent) (contextKind parent) (tokenIndexStart parent)
                       (contextAttributeIndex parent) (Nat.pred (attributeCounter parent)))
        contextNodeById
  | None => contextNodeById
  end.

(** Modelled from the spec: parser/context/contextUtils.ts is not under src/.
    The relinking of a deletion: the node leaves the children of its parent,
    where [replacement] takes its place, in order, and is reparented to that
    parent; without a parent the replacement become roots. *)
Definition relink (collection : Collection) (nodeId : nat) (replacement : list nat)
  : Collection :=
  match NumMap.get nodeId (parentIdById collection) with
  | Some parentId =>
      mkCollection
        (astNodeById collection)
        (giveBackAttribute parentId (contextNodeById collection))
        (fold_left (fun m childId => NumMap.set childId parentId m) replacement
                   (parentIdById collection))
        (setChildIds parentId
           (replaceId nodeId replacement (childIdsOf collection parentId))
           (childIdsById collection))
  | None =>
      mkCollection
        (astNodeById collection)
        (contextNodeById collection)
        (fold_left (fun m childId => NumMap.delete childId m) replacement
                   (parentIdById collection))
        (childIdsById collection)
  end.

(** The rewiring: each child of the deleted node is reparented to the deleted
    node's parent, preserving order. *)
Definition rewire (collection : Collection) (nodeId : nat) : Collection :=
  relink collection nodeId (childIdsOf collection nodeId).

(** Modelled from the spec: [deleteAst] removes a finished node from every
    map of the collection, from the children of its parent and from the leaf
    ids; if the parent will also be deleted the node's children are dropped
    silently, otherwise they are rewired to the parent. *)
Definition deleteAst (state : State) (nodeId : nat) (parentWillBeDeleted : bool)
  : Res State :=
  let collection := nodeIdMapCollection state in
  match NumMap.get nodeId (astNodeById collection) with
  | None => Throw (InvariantError "nodeId isn't an astNode")
  | Some _ =>
      let relinked := relink collection nodeId
                        (if parentWillBeDeleted then []
                         else childIdsOf collection nodeId) in
      Ok (mkState
            (mkCollection
               (NumMap.delete nodeId (astNodeById relinked))
               (contextNodeById relinked)
               (NumMap.delete nodeId (parentIdById relinked))
               (NumMap.delete nodeId (childIdsById relinked)))
            (idCounter state)
            (removeId nodeId (leafNodeIds state)))
  end.

(** Modelled from the spec: [deleteContext] asserts the id is an open
    context, removes it and reparents its children to its parent, preserving
    order; it returns the parent context, if any, as the new current one. *)
Definition deleteContext (state : State) (nodeId : nat)
  : Res (State * option nat) :=
  let collection := nodeIdMapCollection state in
  match NumMap.get nodeId (contextNodeById collection) with
  | None => Throw (InvariantError "nodeId isn't a context node")
  | Some _ =>
      let maybeParentId := NumMap.get nodeId (parentIdById collection) in
      let relinked := rewire collection nodeId in
      Ok (mkState
            (mkCollection
               (astNodeById relinked)
               (NumMap.delete nodeId (contextNodeById relinked))
               (NumMap.delete nodeId (parentIdById relinked))
               (NumMap.delete nodeId (childIdsById relinked)))
            (idCounter state)
            (leafNodeIds state),
          match maybeParentId with
          | Some parentId =>
              match NumMap.get parentId (contextNodeById collection) with
              | Some _ => Some parentId
              | None => None
              end
          | None => None
          end)
  end.

(** Modelled from the spec: [startContext] allocates the next id, makes the
    current context the parent, appends the new id to the parent's children
    and advances the parent's attribute counter. *)
Definition startContext (state : State) (nodeKind : string) (tokenIndexStart : nat)
           (maybeParentId : option nat) : State * ContextNode :=
  let collection := nodeIdMapCollection state in
  let nodeId := S (idCounter state) in
  let maybeParent := match maybeParentId with
                     | Some parentId => NumMap.get parentId (contextNodeById collection)
                     | None => None
                     end in
  let newNode := mkContextNode nodeId nodeKind tokenIndexStart
                   (option_map attributeCounter maybeParent) 0 in
  match maybeParent with
  | Some parent =>
      let parentId := contextId parent in
      let advanced := mkContextNode parentId (contextKind parent)
                        (ParseContext.tokenIndexStart parent)
                        (contextAttributeIndex parent) (S (attributeCounter parent)) in
      let siblings := match NumMap.get parentId (childIdsById collection) with
                      | Some ids => ids
                      | None => []
                      end in
      (mkState
         (mkCollection
            (astNodeById collection)
            (NumMap.set nodeId newNode
               (NumMap.set parentId advanced (contextNodeById collection)))
            (NumMap.set nodeId parentId (parentIdById collection))
            (NumMap.set parentId (siblings ++ [nodeId])%list (childIdsById collection)))
         nodeId (leafNodeIds state),
       newNode)
  | None =>
      (mkState
         (mkCollection
            (astNodeById collection)
            (NumMap.set nodeId newNode (contextNodeById collection))
            (parentIdById collection)
            (childIdsById collection))
         nodeId (leafNodeIds state),
       newNode)
  end.

(** Modelled from the spec: [endContext] promotes an open context: the
    finished node takes the context's id in [astNodeById], the id leaves
    [contextNodeById], a terminal node is recorded as a leaf, and the parent
    context, if any, is the new current one. *)
Definition endContext (state : State) (contextNodeId : nat) (astNode : Node)
           (isLeaf : bool) : Res (State * option nat) :=
  let collection := nodeIdMapCollection state in
  match NumMap.get contextNodeId (contextNodeById collection) with
  | None => Throw (InvariantError "can't end a context that isn't open")
  | Some _ =>
      if negb (Nat.eqb (id astNode) contextNodeId) then
        Throw (InvariantError "contextNode.id !== astNode.id")
      else
        Ok (mkState
              (mkCollection
                 (NumMap.set contextNodeId astNode (astNodeById collection))
                 (NumMap.delete contextNodeId (contextNodeById collection))
                 (parentIdById collection)
                 (childIdsById collection))
              (idCounter state)
              (if isLeaf then (leafNodeIds state ++ [contextNodeId])%list
               else leafNodeIds state),
            match NumMap.get contextNodeId (parentIdById collection) with
            | Some parentId =>
                match NumMap.get parentId (contextNodeById collection) with
                | Some _ => Some parentId
                | None => None
                end
            | None => None
            end)
  end.

End ParseContext.

(* ------------------------------------------------------------------ *)
(** ** parser/IParserState/IParserStateUtils.ts *)

Module IParserStateUtils.
Import ParseContext.

(** What the sources read of [LexerSnapshot]. *)
Record LexerSnapshot : Type := mkLexerSnapshot {
  tokens : list Token.Token;
  graphemePositionStartFrom : Token.Token -> Res GraphemePosition
}.

(** [IParserState].  [maybeCurrentContextNode] refers to a node that lives in
    [contextNodeById]; the reference is kept as that node's id. *)
Record IParserState : Type := mkIParserState {
  lexerSnapshot : LexerSnapshot;
  tokenIndex : nat;
  maybeCurrentToken : option Token.Token;
  maybeCurrentTokenKind : option string;
  contextState : ParseContext.State;
  maybeCurrentContextNode : option nat
}.

Record FastStateBackup : Type := mkFastStateBackup {
  backupTokenIndex : nat;
  contextStateIdCounter : nat;
  maybeContextNodeId : option nat
}.

Definition stateFactory (lexerSnapshot : LexerSnapshot) : IParserState :=
  let maybeCurrentToken := nth_error (tokens lexerSnapshot) 0 in
  mkIParserState lexerSnapshot 0 maybeCurrentToken
                 (option_map Token.kind maybeCurrentToken)
                 ParseContext.newState None.

Definition fastStateBackup (state : IParserState) : FastStateBackup :=
  mkFastStateBackup (tokenIndex state)
                    (idCounter (contextState state))
                    (maybeCurrentContextNode state).

(** [ids.sort((left, right) => left - right)] *)
Fixpoint insertByNumber (x : nat) (sorted : list nat) : list nat :=
  match sorted with
  | [] => [x]
  | y :: rest => if Nat.leb x y then x :: sorted else y :: insertByNumber x rest
  end.

Definition sortByNumber (ids : list nat) : list nat :=
  fold_right insertByNumber [] ids.

(** The loop over the new AST ids. *)
Fixpoint deleteNewAstNodes (contextState : ParseContext.State) (backupIdCounter : nat)
         (nodeIds : list nat) : Res ParseContext.State :=
  match nodeIds with
  | [] => Ok contextState
  | nodeId :: rest =>
      let maybeParentId :=
        NumMap.get nodeId (parentIdById (nodeIdMapCollection contextState)) in
      let parentWillBeDeleted :=
        match maybeParentId with
        | Some parentId => Nat.leb backupIdCounter parentId   (* parentId >= backupIdCounter *)
        | None => false
        end in
      let* contextState' := ParseContext.deleteAst contextState nodeId parentWillBeDeleted in
      deleteNewAstNodes contextState' backupIdCounter rest
  end.

(** The loop over the new context ids. *)
Fixpoint deleteNewContextNodes (contextState : ParseContext.State)
         (nodeIds : list nat) : Res ParseContext.State :=
  match nodeIds with
  | [] => Ok contextState
  | nodeId :: rest =>
      let* deleted := ParseContext.deleteContext contextState nodeId in
      deleteNewContextNodes (fst deleted) rest
  end.

Definition applyFastStateBackup (state : IParserState) (backup : FastStateBackup)
  : Res IParserState :=
  let tokenIndex' := backupTokenIndex backup in
  let maybeCurrentToken' := nth_error (tokens (lexerSnapshot state)) tokenIndex' in
  let maybeCurrentTokenKind' := option_map Token.kind maybeCurrentToken' in
  let nodeIdMapCollection := nodeIdMapCollection (contextState state) in
  let backupIdCounter := contextStateIdCounter backup in
  let contextState0 :=
    mkState nodeIdMapCollection backupIdCounter (leafNodeIds (contextState state)) in
  let newAstNodeIds :=
    filter (fun nodeId => Nat.ltb backupIdCounter nodeId)
           (NumMap.keys (astNodeById nodeIdMapCollection)) in
  let newContextNodeIds :=
    filter (fun nodeId => Nat.ltb backupIdCounter nodeId)
           (NumMap.keys (contextNodeById nodeIdMapCollection)) in
  let* contextState1 :=
    deleteNewAstNodes contextState0 backupIdCounter (rev (sortByNumber newAstNodeIds)) in
  let* contextState2 :=
    deleteNewContextNodes contextState1 (rev (sortByNumber newContextNodeIds)) in
  let restored (maybeCurrentContextNode' : option nat) :=
    mkIParserState (lexerSnapshot state) tokenIndex' maybeCurrentToken'
                   maybeCurrentTokenKind' contextState2 maybeCurrentContextNode' in
  match maybeContextNodeId backup with
  | Some (S n) =>
      (* NodeIdMapUtils.assertGetContext *)
      match NumMap.get (S n) (contextNodeById (ParseContext.nodeIdMapCollection contextState2)) with
      | Some _ => Ok (restored (Some (S n)))
      | None => Throw (InvariantError "nodeId wasn't a context node")
      end
  | _ => Ok (restored None)
  end.

Definition startContext (state : IParserState) (nodeKind : string) : IParserState :=
  let started := ParseContext.startContext (contextState state) nodeKind
                   (tokenIndex state) (maybeCurrentContextNode state) in
  mkIParserState (lexerSnapshot state) (tokenIndex state) (maybeCurrentToken state)
                 (maybeCurrentTokenKind state) (fst started)
                 (Some (contextId (snd started))).

Definition endContext (state : IParserState) (astNode : Node) (isLeaf : bool)
  : Res IParserState :=
  match maybeCurrentContextNode state with
  | None => Throw (InvariantError "can't end a context if one doesn't exist")
  | Some currentId =>
      let* ended := ParseContext.endContext (contextState state) currentId astNode isLeaf in
      Ok (mkIParserState (lexerSnapshot state) (tokenIndex state) (maybeCurrentToken state)
                         (maybeCurrentTokenKind state) (fst ended) (snd ended))
  end.

(** [deleteContext(state, maybeNodeId)]: without an id, the current context
    is the one deleted. *)
Definition deleteContext (state : IParserState) (maybeNodeId : option nat)
  : Res IParserState :=
  let* nodeId :=
    match maybeNodeId with
    | Some nodeId => Ok nodeId
    | None =>
        match maybeCurrentContextNode state with
        | Some currentId => Ok currentId
        | None => Throw (InvariantError "can't delete a context if one doesn't exist")
        end
    end in
  let* deleted := ParseContext.deleteContext (contextState state) nodeId in
  Ok (mkIParserState (lexerSnapshot state) (tokenIndex state) (maybeCurrentToken state)
                     (maybeCurrentTokenKind state) (fst deleted) (snd deleted)).

(** [incrementAttributeCounter]: the current context node is the object
    filed in [contextNodeById]. *)
Definition incrementAttributeCounter (state : IParserState) : Res IParserState :=
  match maybeCurrentContextNode state with
  | None => Throw (InvariantError "state.maybeCurrentContextNode")
  | Some currentId =>
      let collection := nodeIdMapCollection (contextState state) in
      match NumMap.get currentId (contextNodeById collection) with
      | None => Ok state
      | Some currentContextNode =>
          let incremented :=
            mkContextNode (contextId currentContextNode) (contextKind currentContextNode)
                          (ParseContext.tokenIndexStart currentContextNode)
                          (contextAttributeIndex currentContextNode)
                          (S (attributeCounter currentContextNode)) in
          Ok (mkIParserState
                (lexerSnapshot state) (tokenIndex state) (maybeCurrentToken state)
                (maybeCurrentTokenKind state)
                (mkState
                   (mkCollection (astNodeById collection)
                                 (NumMap.set currentId incremented (contextNodeById collection))
                                 (parentIdById collection)
                                 (childIdsById collection))
                   (idCounter (contextState state))
                   (leafNodeIds (contextState state)))
                (maybeCurrentContextNode state))
      end
  end.

Definition assertGetTokenAt (state : IParserState) (tokenIndex : nat) : Res Token.Token :=
  match nth_error (tokens (lexerSnapshot state)) tokenIndex with
  | Some token => Ok token
  | None => Throw (InvariantError "assert failed, expected value to be defined")
  end.

(** Returns normally on [Ok tt]; otherwise what it throws. *)
Definition assertNoMoreTokens (state : IParserState) : Res unit :=
  if Nat.eqb (tokenIndex state) (List.length (tokens (lexerSnapshot state))) then Ok tt
  else
    let* token := assertGetTokenAt state (tokenIndex state) in
    let* positionStart := graphemePositionStartFrom (lexerSnapshot state) token in
    Throw (UnusedTokensRemainError token positionStart).

Definition assertNoOpenContext (state : IParserState) : Res unit :=
  match maybeCurrentContextNode state with
  | None => Ok tt
  | Some _ => Throw (InvariantError "assert failed, expected value to be undefined")
  end.

(** A speculative read over the one-token document [x]: the backup is taken
    right after the context of the enclosing production (id 1) is started;
    the read then starts a context for the identifier (id 2), consumes the
    token and ends the context; the production fails afterwards and the
    backup is applied. *)
Module Rollback.
Definition tokenX : Token.Token :=
  Token.mkToken "Identifier" "x" (mkPosition 0 0) (mkPosition 0 1).
Definition snapshot : LexerSnapshot :=
  mkLexerSnapshot [tokenX] (fun _ => Ok (mkGraphemePosition 0 0 0)).
Definition identifier : Node :=
  mkNode 2 "Identifier" (Some 0%nat) None (Some "x") None (mkPosition 0 0) (mkPosition 0 1).
Definition readToken (state : IParserState) : IParserState :=
  let index := S (tokenIndex state) in
  mkIParserState (lexerSnapshot state) index
                 (nth_error (tokens (lexerSnapshot state)) index)
                 (option_map Token.kind (nth_error (tokens (lexerSnapshot state)) index))
                 (contextState state) (maybeCurrentContextNode state).
Definition atBackup : IParserState :=
  startContext (stateFactory snapshot) "IdentifierExpression".
Definition backup : FastStateBackup := fastStateBackup atBackup.
Definition afterRead : Res IParserState :=
  endContext (readToken (startContext atBackup "Identifier")) identifier true.
Definition afterRollback : Res IParserState :=
  let* state := afterRead in applyFastStateBackup state backup.
End Rollback.

End IParserStateUtils.

(* ------------------------------------------------------------------ *)
(** ** parser/IParser/IParserUtils.ts : tryRead *)

Module IParserUtils.
Import IParserStateUtils.

Record ParseOk : Type := mkParseOk {
  root : Node;
  okNodeIdMapCollection : ParseContext.Collection;
  okLeafNodeIds : list nat;
  okState : IParserState
}.

(** [ParseError.TParseError]: a [ParseError] carrying the parser state, or a
    [CommonError]. *)
Inductive TParseError : Type :=
| ParseError (innerError : Fault) (state : IParserState)
| CommonErrorOf (error : Fault).

Inductive TriedParse : Type :=
| okFactory (value : ParseOk)
| errFactory (error : TParseError).

(** [parser.read] mutates the state it is given and returns the root or
    throws: [read state] is the state it leaves behind and its outcome. *)
Definition Reader : Type := IParserState -> IParserState * Res Node.

Definition tryRead (state : IParserState) (read : Reader) : TriedParse :=
  let (state, outcome) := read state in
  match outcome with
  | Throw err =>
      if isTInnerParseError err then errFactory (ParseError err state)
      else errFactory (CommonErrorOf (ensureCommonError err))
  | Ok root =>
      match assertNoOpenContext state with
      | Throw err => errFactory (CommonErrorOf (CommonError err))
      | Ok _ =>
          match assertNoMoreTokens state with
          | Throw err => errFactory (ParseError err state)
          | Ok _ =>
              okFactory (mkParseOk root
                           (ParseContext.nodeIdMapCollection (contextState state))
                           (ParseContext.leafNodeIds (contextState state))
                           state)
          end
      end
  end.

(** A one-token document [x] and three readers over it: one that consumes
    nothing, one that consumes the token, and one that leaves the token index
    beyond the token list. *)
Module Scenario.
Definition tokenX : Token.Token :=
  Token.mkToken "Identifier" "x" (mkPosition 0 0) (mkPosition 0 1).
Definition snapshot : LexerSnapshot :=
  mkLexerSnapshot [tokenX] (fun _ => Ok (mkGraphemePosition 0 0 0)).
Definition rootNode : Node :=
  mkNode 1 "IdentifierExpression" None None None None (mkPosition 0 0) (mkPosition 0 1).
Definition withTokenIndex (state : IParserState) (index : nat) : IParserState :=
  mkIParserState (lexerSnapshot state) index
                 (nth_error (tokens (lexerSnapshot state)) index)
                 (option_map Token.kind (nth_error (tokens (lexerSnapshot state)) index))
                 (contextState state) (maybeCurrentContextNode state).
Definition readNothing : Reader := fun state => (state, Ok rootNode).
Definition readToken : Reader := fun state => (withTokenIndex state 1, Ok rootNode).
Definition readBeyond : Reader := fun state => (withTokenIndex state 2, Ok rootNode).
End Scenario.

End IParserUtils.

(* ------------------------------------------------------------------ *)
(** ** language/keyword.ts *)

(** Modelled from the spec: language/keyword.ts is not under src/.  A keyword
    kind is the keyword's spelling; the start-of-document keywords are the
    keywords that start an expression, and [section]. *)
Module Keyword.
Definition And := "and".
Definition As := "as".
Definition Each := "each".
Definition Error := "error".
Definition False := "false".
Definition If := "if".
Definition Is := "is".
Definition Let := "let".
Definition Meta := "meta".
Definition Not := "not".
Definition Or := "or".
Definition Section_ := "section".
Definition True := "true".
Definition Try := "try".
Definition Type_ := "type".

Definition ExpressionKeywords : list string :=
  [Each; Error; False; If; Let; Not; True; Try; Type_].

Definition StartOfDocumentKeywords : list string :=
  (ExpressionKeywords ++ [Section_])%list.
End Keyword.

(* ------------------------------------------------------------------ *)
(** ** parser/nodeIdMap/ancestryUtils.ts *)

Module AncestryUtils.

(** [array[i]] for a possibly negative index. *)
Definition at_ {A : Type} (array : list A) (i : Z) : option A :=
  if (i <? 0)%Z then None else nth_error array (Z.to_nat i).

Definition includes (kinds : list string) (nodeKind : string) : bool :=
  existsb (String.eqb nodeKind) kinds.

Definition maybeNthPreviousXor (ancestry : list TXorNode) (ancestryIndex : Z) (n : Z)
           (maybeAllowedNodeKinds : option (list string)) : option TXorNode :=
  match at_ ancestry (ancestryIndex - n), maybeAllowedNodeKinds with
  | Some xorNode, Some allowed =>
      if includes allowed (nodeKind (node xorNode)) then Some xorNode else None
  | maybeXorNode, _ => maybeXorNode
  end.

Definition maybeNthNextXor (ancestry : list TXorNode) (ancestryIndex : Z) (n : Z)
           (maybeAllowedNodeKinds : option (list string)) : option TXorNode :=
  match at_ ancestry (ancestryIndex + n), maybeAllowedNodeKinds with
  | Some xorNode, Some allowed =>
      if includes allowed (nodeKind (node xorNode)) then Some xorNode else None
  | maybeXorNode, _ => maybeXorNode
  end.

Definition assertGetLeaf (ancestry : list TXorNode) : Res TXorNode :=
  match ancestry with
  | leaf :: _ => Ok leaf
  | [] => Throw (InvariantError "assert failed, expected value to be defined")
  end.

End AncestryUtils.

(* ------------------------------------------------------------------ *)
(** ** inspection/activeNode and inspection/position *)

Inductive ActiveNodeLeafKind : Type := OnAstNode | AfterAstNode | ContextNode.

Record ActiveNode : Type := mkActiveNode {
  position : Position;
  ancestry : list TXorNode;
  leafKind : ActiveNodeLeafKind;
  maybeIdentifierUnderPosition : option Node
}.

Record TrailingToken : Type := mkTrailingToken {
  trailingData : string;
  trailingPositionStart : Position;
  isInOrOnPosition : bool
}.

(** Modelled from the spec: inspection/position is not under src/.  A bound
    that is included belongs to the token: the caret is after a token
    position when it is on a later line, or on the same line past the
    position's code unit (at it too, when the bound is excluded), and before
    it the other way round; it is in a node when it is neither before the
    node's start nor after its end. *)
Module PositionUtils.

Definition isAfterTokenPosition (position tokenPosition : Position)
           (isBoundIncluded : bool) : bool :=
  if (lineNumber tokenPosition <? lineNumber position)%Z then true
  else if (lineNumber position <? lineNumber tokenPosition)%Z then false
  else
    let upperBound := if isBoundIncluded then lineCodeUnit tokenPosition
                      else (lineCodeUnit tokenPosition - 1)%Z in
    (upperBound <? lineCodeUnit position)%Z.

Definition isBeforeTokenPosition (position tokenPosition : Position)
           (isBoundIncluded : bool) : bool :=
  if (lineNumber position <? lineNumber tokenPosition)%Z then true
  else if (lineNumber tokenPosition <? lineNumber position)%Z then false
  else
    let upperBound := if isBoundIncluded then lineCodeUnit tokenPosition
                      else (lineCodeUnit tokenPosition + 1)%Z in
    (lineCodeUnit position <? upperBound)%Z.

Definition isAfterAst (position : Position) (astNode : Node) (isBoundIncluded : bool) : bool :=
  isAfterTokenPosition position (positionEnd astNode) isBoundIncluded.

(** [isInXor(nodeIdMapCollection, position, xorNode, isLowerBoundIncluded,
    isHigherBoundIncluded)], on the position range recorded with the node. *)
Definition isInXor (position : Position) (xorNode : TXorNode)
           (isLowerBoundIncluded isHigherBoundIncluded : bool) : bool :=
  negb (isBeforeTokenPosition position (positionStart (node xorNode)) isLowerBoundIncluded)
  && negb (isAfterTokenPosition position (positionEnd (node xorNode)) isHigherBoundIncluded).

End PositionUtils.

(* ------------------------------------------------------------------ *)
(** ** inspection/autocomplete/autocompleteKeyword/autocompleteKeyword.ts *)

Module AutocompleteKeyword.

Record InspectAutocompleteKeywordState : Type := mkKeywordState {
  nodeIdMapCollection : ParseContext.Collection;
  leafNodeIds : list nat;
  activeNode : ActiveNode;
  maybeTrailingToken : option TrailingToken;
  parent : TXorNode;
  child : TXorNode;
  ancestryIndex : nat
}.

(** The per-kind routines of the ancestry walk, each in a file of its own
    that is not under src/: a routine returns suggestions, or nothing to keep
    walking, or throws. *)
Record Routines : Type := mkRoutines {
  autocompleteKeywordErrorHandlingExpression :
    InspectAutocompleteKeywordState -> Res (option (list string));
  autocompleteKeywordIdentifierPairedExpression :
    InspectAutocompleteKeywordState -> Res (option (list string));
  autocompleteKeywordLetExpression :
    InspectAutocompleteKeywordState -> Res (option (list string));
  autocompleteKeywordListExpression :
    InspectAutocompleteKeywordState -> Res (option (list string));
  autocompleteKeywordSectionMember :
    InspectAutocompleteKeywordState -> Res (option (list string));
  autocompleteKeywordDefault :
    InspectAutocompleteKeywordState -> Res (option (list string))
}.

(** The collaborators that are not under src/. *)
Record Collaborators : Type := mkCollaborators {
  (* PositionUtils.isInXor(nodeIdMapCollection, position, xorNode, _, _) *)
  isInXor : ParseContext.Collection -> Position -> TXorNode -> bool -> bool -> bool;
  isAfterAst : Position -> Node -> bool -> bool;
  isAfterTokenPosition : Position -> Position -> bool -> bool;
  isTUnaryType : TXorNode -> bool;
  autocompleteKeywordTrailingText :
    list string -> TrailingToken -> option (list string) -> list string;
  routines : Routines;
  StartOfDocumentKeywords : list string
}.

Definition ConjunctionKeywords : list string :=
  [Keyword.And; Keyword.As; Keyword.Is; Keyword.Meta; Keyword.Or].

(** Keeps the first occurrence of every element. *)
Fixpoint dedupe (seen : list string) (elements : list string) : list string :=
  match elements with
  | [] => []
  | x :: rest =>
      if existsb (String.eqb x) seen then dedupe seen rest
      else x :: dedupe (x :: seen) rest
  end.

(** Modelled from the spec: ArrayUtils.concatUnique is not under src/; the
    two arrays one after the other, "deduplicated, first occurrence wins". *)
Definition concatUnique (left right : list string) : list string :=
  dedupe [] (left ++ right)%list.

Definition filterRecommendations (inspected : list string)
           (maybePositionName : option string) : list string :=
  match maybePositionName with
  | None => inspected
  | Some positionName =>
      filter (fun kind => Js.startsWith kind positionName) inspected
  end.

Section WithCollaborators.
Variable env : Collaborators.

(** The text the caret sits in: the first statements of
    [autocompleteKeyword]. *)
Definition maybePositionNameOf (collection : ParseContext.Collection)
           (activeNode : ActiveNode) (ancestryLeaf : TXorNode) : option string :=
  if isInXor env collection (position activeNode) ancestryLeaf false true then
    match maybeIdentifierUnderPosition activeNode with
    | Some identifier => literal identifier
    | None =>
        if XorNodeKind_eqb (kind ancestryLeaf) Ast
           && String.eqb (nodeKind (node ancestryLeaf)) "LiteralExpression"
           && (match literalKind (node ancestryLeaf) with
               | Some literalKind =>
                   String.eqb literalKind "Logical" || String.eqb literalKind "Null"
               | None => false
               end)
        then literal (node ancestryLeaf)
        else None
    end
  else None.

Definition dispatch (state : InspectAutocompleteKeywordState)
  : Res (option (list string)) :=
  let parentKind := nodeKind (node (parent state)) in
  if String.eqb parentKind "ErrorHandlingExpression" then
    autocompleteKeywordErrorHandlingExpression (routines env) state
  else if String.eqb parentKind "IdentifierPairedExpression" then
    autocompleteKeywordIdentifierPairedExpression (routines env) state
  else if String.eqb parentKind "LetExpression" then
    autocompleteKeywordLetExpression (routines env) state
  else if String.eqb parentKind "ListExpression" then
    autocompleteKeywordListExpression (routines env) state
  else if String.eqb parentKind "SectionMember" then
    autocompleteKeywordSectionMember (routines env) state
  else
    autocompleteKeywordDefault (routines env) state.

(** The loop of [traverseAncestors], from [ancestryIndex] on: [child] is
    [ancestry[ancestryIndex - 1]] and [parents] is what is left of the
    ancestry. *)
Fixpoint traverseFrom (state : InspectAutocompleteKeywordState) (child : TXorNode)
         (parents : list TXorNode) (ancestryIndex : nat) : Res (list string) :=
  match parents with
  | [] => Ok []
  | parent :: rest =>
      let state' := mkKeywordState (nodeIdMapCollection state) (leafNodeIds state)
                      (activeNode state) (maybeTrailingToken state)
                      parent child ancestryIndex in
      let* maybeInspected := dispatch state' in
      match maybeInspected with
      | Some inspected => Ok inspected
      | None => traverseFrom state' parent rest (S ancestryIndex)
      end
  end.

Definition traverseAncestors (state : InspectAutocompleteKeywordState)
  : Res (list string) :=
  match ancestry (activeNode state) with
  | [] => Ok []
  | leaf :: parents => traverseFrom state leaf parents 1
  end.

(** [maybeEdgeCase] is called with an ancestry of two nodes or more. *)
Definition maybeEdgeCase (state : InspectAutocompleteKeywordState)
           (maybeTrailingToken : option TrailingToken)
  : Res (option (list string)) :=
  let activeNode := activeNode state in
  let ancestry := ancestry activeNode in
  match ancestry with
  | ancestry0 :: ancestry1 :: rest =>
      let isAstIdentifier :=
        XorNodeKind_eqb (kind ancestry0) Ast
        && String.eqb (nodeKind (node ancestry0)) "Identifier" in
      if (match maybeTrailingToken with None => true | Some _ => false end)
         && Nat.eqb (List.length ancestry) 2
         && isAstIdentifier
         && String.eqb (nodeKind (node ancestry1)) "IdentifierExpression"
      then
        let identifier := match literal (node ancestry0) with
                          | Some text => text
                          | None => "undefined"
                          end in
        Ok (Some (filter (fun keywordKind => Js.startsWith keywordKind identifier)
                         (StartOfDocumentKeywords env)))
      else if isAstIdentifier
              && String.eqb (nodeKind (node ancestry1)) "Parameter"
              && isAfterAst env (position activeNode) (node ancestry0) true
      then Ok (Some [Keyword.As])
      else if (match maybeTrailingToken with
               | Some trailingToken => String.eqb (trailingData trailingToken) "a"
               | None => false
               end)
              && XorNodeKind_eqb (kind ancestry0) Context
              && String.eqb (nodeKind (node ancestry0)) "Constant"
              && String.eqb (nodeKind (node ancestry1)) "ParameterList"
      then
        match rest with
        | ancestry2 :: _ =>
            if String.eqb (nodeKind (node ancestry2)) "FunctionExpression"
            then Ok (Some [Keyword.As])
            else Ok None
        | [] => Throw (ForeignFault "TypeError: ancestry[2] is undefined")
        end
      else Ok None
  | _ => Throw (ForeignFault "TypeError: ancestry[1] is undefined")
  end.

Definition handleConjunctions (activeNode : ActiveNode) (inspected : list string)
           (maybeTrailingToken : option TrailingToken) : Res (list string) :=
  match leafKind activeNode with
  | OnAstNode => Ok inspected
  | _ =>
      let* activeNodeLeaf := AncestryUtils.assertGetLeaf (ancestry activeNode) in
      match maybeTrailingToken with
      | Some trailingToken =>
          if isInOrOnPosition trailingToken then
            Ok (autocompleteKeywordTrailingText env inspected trailingToken None)
          else if isTUnaryType env activeNodeLeaf then
            if isAfterTokenPosition env (position activeNode)
                                    (trailingPositionStart trailingToken) false
            then Ok inspected
            else if XorNodeKind_eqb (kind activeNodeLeaf) Ast
            then Ok (concatUnique inspected ConjunctionKeywords)
            else Ok inspected
          else Ok inspected
      | None =>
          if isTUnaryType env activeNodeLeaf then
            if XorNodeKind_eqb (kind activeNodeLeaf) Ast
            then Ok (concatUnique inspected ConjunctionKeywords)
            else Ok inspected
          else Ok inspected
      end
  end.

(** There is no trailing token, or the caret is neither in or on it nor
    after its start. *)
Definition noLaterToken (activeNode : ActiveNode)
           (maybeTrailingToken : option TrailingToken) : Prop :=
  match maybeTrailingToken with
  | None => True
  | Some trailingToken =>
      isInOrOnPosition trailingToken = false /\
      isAfterTokenPosition env (position activeNode)
                           (trailingPositionStart trailingToken) false = false
  end.

Definition autocompleteKeyword (nodeIdMapCollection : ParseContext.Collection)
           (leafNodeIds : list nat) (activeNode : ActiveNode)
           (maybeTrailingToken : option TrailingToken) : Res (list string) :=
  let* ancestryLeaf := AncestryUtils.assertGetLeaf (ancestry activeNode) in
  let maybePositionName := maybePositionNameOf nodeIdMapCollection activeNode ancestryLeaf in
  if Nat.ltb (List.length (ancestry activeNode)) 2 then
    let* conjunctions := handleConjunctions activeNode [] maybeTrailingToken in
    Ok (filterRecommendations conjunctions maybePositionName)
  else
    match nth_error (ancestry activeNode) 1 with
    | None => Throw (InvariantError "ancestry.length >= 2")
    | Some ancestry1 =>
        let state := mkKeywordState nodeIdMapCollection leafNodeIds activeNode
                       maybeTrailingToken ancestry1 ancestryLeaf 0 in
        let* maybeEarlyExitInspected := maybeEdgeCase state maybeTrailingToken in
        match maybeEarlyExitInspected with
        | Some inspected => Ok inspected
        | None =>
            let* inspected := traverseAncestors state in
            let* conjunctions := handleConjunctions activeNode inspected maybeTrailingToken in
            Ok (filterRecommendations conjunctions maybePositionName)
        end
    end.

End WithCollaborators.

End AutocompleteKeyword.

(* ------------------------------------------------------------------ *)
(** ** inspection/autocomplete/autocompletePrimitiveType.ts *)

Module AutocompletePrimitiveType.

Definition filterRecommendations (inspected : list string)
           (maybeTrailingToken : option TrailingToken) : list string :=
  match maybeTrailingToken with
  | None => inspected
  | Some trailingToken =>
      filter (fun primitiveTypeConstantKind =>
                Js.startsWith primitiveTypeConstantKind (trailingData trailingToken))
             inspected
  end.

Section WithCollaborators.
(** [Constant.PrimitiveTypeConstantKinds] and [PositionUtils.isAfterAst], not
    under src/. *)
Variable PrimitiveTypeConstantKinds : list string.
Variable isAfterAst : Position -> Node -> bool -> bool.

(** One turn of the loop of [traverseAncestors]: [Some] is a [return], [None]
    goes on with the next index. *)
Definition inspectAncestor (activeNode : ActiveNode) (index : nat)
  : option (list string) :=
  let ancestry := ancestry activeNode in
  match nth_error ancestry index with
  | None => None
  | Some parent =>
      let maybeChild := AncestryUtils.at_ ancestry (Z.of_nat index - 1) in
      if String.eqb (nodeKind (node parent)) "TypePrimaryType" then
        match maybeChild with
        | None => Some PrimitiveTypeConstantKinds
        | Some child =>
            if (match maybeAttributeIndex (node child) with
                | Some attributeIndex => Nat.eqb attributeIndex 0
                | None => false
                end)
               && XorNodeKind_eqb (kind child) Ast
               && isAfterAst (position activeNode) (node child) true
            then Some PrimitiveTypeConstantKinds
            else None
        end
      else if String.eqb (nodeKind (node parent)) "Parameter"
              && (match AncestryUtils.maybeNthNextXor ancestry (Z.of_nat index) 4
                          (Some ["FunctionExpression"]) with
                  | Some _ => true
                  | None => false
                  end)
      then
        match AncestryUtils.maybeNthPreviousXor ancestry (Z.of_nat index) 2 None with
        | None => None
        | Some grandchild =>
            if XorNodeKind_eqb (kind grandchild) Ast
               && String.eqb (nodeKind (node grandchild)) "Constant"
               && (match constantKind (node grandchild) with
                   | Some constantKind => String.eqb constantKind Keyword.As
                   | None => false
                   end)
               && isAfterAst (position activeNode) (node grandchild) true
            then Some PrimitiveTypeConstantKinds
            else if String.eqb (nodeKind (node grandchild)) "NullablePrimitiveType" then
              match AncestryUtils.maybeNthPreviousXor ancestry (Z.of_nat index) 3 None with
              | Some greatGreatGrandchild =>
                  if String.eqb (nodeKind (node greatGreatGrandchild)) "PrimitiveType"
                  then Some PrimitiveTypeConstantKinds
                  else None
              | None => None
              end
            else None
        end
      else None
  end.

Fixpoint traverseIndices (activeNode : ActiveNode) (indices : list nat) : list string :=
  match indices with
  | [] => []
  | index :: rest =>
      match inspectAncestor activeNode index with
      | Some inspected => inspected
      | None => traverseIndices activeNode rest
      end
  end.

Definition traverseAncestors (activeNode : ActiveNode) : list string :=
  traverseIndices activeNode (seq 0 (List.length (ancestry activeNode))).

Definition autocompletePrimitiveType (activeNode : ActiveNode)
           (maybeTrailingToken : option TrailingToken) : list string :=
  filterRecommendations (traverseAncestors activeNode) maybeTrailingToken.

End WithCollaborators.

End AutocompletePrimitiveType.

(* ------------------------------------------------------------------ *)
(** ** Carets in small documents *)

Module Carets.
Import AutocompleteKeyword.

Definition at0 (column : Z) : Position := mkPosition 0 column.

(** Modelled from the spec: parser/nodeIdMap/xorNodeUtils.ts is not under
    src/; the unary-type expressions are the unary expression, the primary
    type and the primary expressions of the grammar. *)
Definition isTUnaryType (xorNode : TXorNode) : bool :=
  existsb (String.eqb (nodeKind (node xorNode)))
    [ "UnaryExpression"; "TypePrimaryType"; "LiteralExpression"; "ListExpression";
      "RecordExpression"; "IdentifierExpression"; "ParenthesizedExpression";
      "InvokeExpression"; "RecursivePrimaryExpression"; "NotImplementedExpression" ].

(** Routines that find nothing to suggest. *)
Definition silent : Routines :=
  mkRoutines (fun _ => Ok None) (fun _ => Ok None) (fun _ => Ok None)
             (fun _ => Ok None) (fun _ => Ok None) (fun _ => Ok None).

(** Modelled from the spec: the trailing-text adjustment "narrows by prefix". *)
Definition narrowByPrefix (inspected : list string) (trailingToken : TrailingToken)
           (maybeSelected : option (list string)) : list string :=
  filter (fun kind => Js.startsWith kind (trailingData trailingToken)) inspected.

Definition env : Collaborators :=
  mkCollaborators
    (fun _ position xorNode lower higher => PositionUtils.isInXor position xorNode lower higher)
    PositionUtils.isAfterAst
    PositionUtils.isAfterTokenPosition
    isTUnaryType
    narrowByPrefix
    silent
    Keyword.StartOfDocumentKeywords.

Definition emptyCollection : ParseContext.Collection :=
  ParseContext.mkCollection [] [] [] [].

(** [true|]: the caret right after the logical literal that is the whole
    document. *)
Module AfterTrue.
Definition literalTrue : TXorNode :=
  mkXor Ast (mkNode 1 "LiteralExpression" None None (Some "true") (Some "Logical")
                    (at0 0) (at0 4)).
Definition activeNode : ActiveNode :=
  mkActiveNode (at0 4) [literalTrue] AfterAstNode None.
End AfterTrue.

(** [1|]: the caret right after a number literal. *)
Module AfterOne.
Definition literalOne : TXorNode :=
  mkXor Ast (mkNode 1 "LiteralExpression" None None (Some "1") (Some "Numeric")
                    (at0 0) (at0 1)).
Definition activeNode : ActiveNode :=
  mkActiveNode (at0 1) [literalOne] AfterAstNode None.
End AfterOne.

(** [l|] in an otherwise empty document. *)
Module LoneL.
Definition identifier : Node :=
  mkNode 2 "Identifier" (Some 0%nat) None (Some "l") None (at0 0) (at0 1).
Definition identifierExpression : TXorNode :=
  mkXor Ast (mkNode 1 "IdentifierExpression" None None None None (at0 0) (at0 1)).
Definition activeNode : ActiveNode :=
  mkActiveNode (at0 1) [mkXor Ast identifier; identifierExpression] AfterAstNode
               (Some identifier).
End LoneL.

(** [type n|]: the caret in the trailing [n] after the [type] keyword. *)
Module AfterType.
Definition typeConstant : TXorNode :=
  mkXor Ast (mkNode 2 "Constant" (Some 0%nat) (Some "type") None None (at0 0) (at0 4)).
Definition typePrimaryType : TXorNode :=
  mkXor Context (mkNode 1 "TypePrimaryType" None None None None (at0 0) (at0 4)).
Definition activeNode : ActiveNode :=
  mkActiveNode (at0 6) [typeConstant; typePrimaryType] AfterAstNode None.
Definition trailing : TrailingToken := mkTrailingToken "n" (at0 5) true.
Definition primitiveTypes : list string :=
  ["any"; "list"; "none"; "null"; "number"; "text"].
End AfterType.

(** [try true|]: the caret right after a logical literal under an error
    handling expression, whose routine suggests the expression keywords. *)
Module TryTrue.
Definition literalTrue : TXorNode :=
  mkXor Ast (mkNode 3 "LiteralExpression" (Some 1%nat) None (Some "true") (Some "Logical")
                    (at0 4) (at0 8)).
Definition errorHandlingExpression : TXorNode :=
  mkXor Ast (mkNode 1 "ErrorHandlingExpression" None None None None (at0 0) (at0 8)).
Definition activeNode : ActiveNode :=
  mkActiveNode (at0 8) [literalTrue; errorHandlingExpression] AfterAstNode None.
Definition env : Collaborators :=
  mkCollaborators
    (fun _ position xorNode lower higher => PositionUtils.isInXor position xorNode lower higher)
    PositionUtils.isAfterAst
    PositionUtils.isAfterTokenPosition
    isTUnaryType
    narrowByPrefix
    (mkRoutines (fun _ => Ok (Some Keyword.ExpressionKeywords)) (fun _ => Ok None)
                (fun _ => Ok None) (fun _ => Ok None) (fun _ => Ok None)
                (fun _ => Ok None))
    Keyword.StartOfDocumentKeywords.
End TryTrue.

End Carets.

(* ------------------------------------------------------------------ *)
(** ** parser/IParserState/IParserStateUtils.ts : token tests *)

Module TokenTests.
Import IParserStateUtils.

(** [originalState] after [applyState(originalState, otherState)]: every
    mutable field is taken from [otherState], the snapshot is kept. *)
Definition applyState (originalState otherState : IParserState) : IParserState :=
  mkIParserState (lexerSnapshot originalState)
                 (tokenIndex otherState)
                 (maybeCurrentToken otherState)
                 (maybeCurrentTokenKind otherState)
                 (contextState otherState)
                 (maybeCurrentContextNode otherState).

(** [tokens[tokenIndex]?.kind === tokenKind ?? false]: the comparison binds
    tighter than [??], and is false for a missing token. *)
Definition isTokenKind (state : IParserState) (tokenKind : string) (tokenIndex : nat) : bool :=
  match nth_error (tokens (lexerSnapshot state)) tokenIndex with
  | Some token => String.eqb (Token.kind token) tokenKind
  | None => false
  end.

Definition isNextTokenKind (state : IParserState) (tokenKind : string) : bool :=
  isTokenKind state tokenKind (tokenIndex state + 1).

(** [isOnTokenKind(state, tokenKind, tokenIndex = state.tokenIndex)] *)
Definition isOnTokenKind (state : IParserState) (tokenKind : string)
           (maybeTokenIndex : option nat) : bool :=
  isTokenKind state tokenKind
              (match maybeTokenIndex with
               | Some tokenIndex => tokenIndex
               | None => tokenIndex state
               end).

Definition isRecursivePrimaryExpressionNext (state : IParserState)
           (maybeTokenIndexStart : option nat) : bool :=
  let tokenIndexStart := match maybeTokenIndexStart with
                         | Some tokenIndex => tokenIndex
                         | None => tokenIndex state
                         end in
  isTokenKind state "LeftBrace" tokenIndexStart
  || isTokenKind state "LeftBracket" tokenIndexStart
  || isTokenKind state "LeftParenthesis" tokenIndexStart.

Record TokenWithColumnNumber : Type := mkTokenWithColumnNumber {
  foundToken : Token.Token;
  foundColumnNumber : Z
}.

Inductive CsvContinuationKind : Type := DanglingComma | LetExpression.

(** The errors the tests build (and return, not throw). *)
Inductive TestError : Type :=
| ExpectedCsvContinuationError (kind : CsvContinuationKind)
                               (maybeFoundToken : option TokenWithColumnNumber)
| ExpectedTokenKindError (expectedTokenKind : string)
                         (maybeFoundToken : option TokenWithColumnNumber)
| ExpectedAnyTokenKindError (expectedAnyTokenKinds : list string)
                            (maybeFoundToken : option TokenWithColumnNumber).

Section WithSnapshot.
(** [lexerSnapshot.columnNumberStartFrom], which throws when the snapshot
    cannot place the token. *)
Variable columnNumberStartFrom : LexerSnapshot -> Token.Token -> Res Z.

Definition maybeTokenWithColumnNumber (state : IParserState) (tokenIndex : nat)
  : Res (option TokenWithColumnNumber) :=
  match nth_error (tokens (lexerSnapshot state)) tokenIndex with
  | None => Ok None
  | Some currentToken =>
      let* columnNumber := columnNumberStartFrom (lexerSnapshot state) currentToken in
      Ok (Some (mkTokenWithColumnNumber currentToken columnNumber))
  end.

Definition maybeCurrentTokenWithColumnNumber (state : IParserState)
  : Res (option TokenWithColumnNumber) :=
  maybeTokenWithColumnNumber state (tokenIndex state).

Definition kindIs (maybeTokenKind : option string) (tokenKind : string) : bool :=
  match maybeTokenKind with
  | Some kind => String.eqb kind tokenKind
  | None => false
  end.

Definition testCsvContinuationLetExpression (state : IParserState)
  : Res (option TestError) :=
  if kindIs (maybeCurrentTokenKind state) "KeywordIn" then
    let* maybeToken := maybeCurrentTokenWithColumnNumber state in
    Ok (Some (ExpectedCsvContinuationError LetExpression maybeToken))
  else Ok None.

Definition testCsvContinuationDanglingComma (state : IParserState) (tokenKind : string)
  : Res (option TestError) :=
  if kindIs (maybeCurrentTokenKind state) tokenKind then
    let* maybeToken := maybeCurrentTokenWithColumnNumber state in
    Ok (Some (ExpectedCsvContinuationError DanglingComma maybeToken))
  else Ok None.

Definition testIsOnTokenKind (state : IParserState) (expectedTokenKind : string)
  : Res (option TestError) :=
  if negb (kindIs (maybeCurrentTokenKind state) expectedTokenKind) then
    let* maybeToken := maybeCurrentTokenWithColumnNumber state in
    Ok (Some (ExpectedTokenKindError expectedTokenKind maybeToken))
  else Ok None.

Definition testIsOnAnyTokenKind (state : IParserState)
           (expectedAnyTokenKinds : list string) : Res (option TestError) :=
  let isError :=
    match maybeCurrentTokenKind state with
    | None => true
    | Some kind => negb (existsb (String.eqb kind) expectedAnyTokenKinds)
    end in
  if isError then
    let* maybeToken := maybeCurrentTokenWithColumnNumber state in
    Ok (Some (ExpectedAnyTokenKindError expectedAnyTokenKinds maybeToken))
  else Ok None.

End WithSnapshot.

(** The cached current token and its kind are those of [tokens[tokenIndex]]. *)
Definition currentTokenInSync (state : IParserState) : Prop :=
  maybeCurrentToken state = nth_error (tokens (lexerSnapshot state)) (tokenIndex state) /\
  maybeCurrentTokenKind state = option_map Token.kind (maybeCurrentToken state).

(** Every node of the collection was allocated at or before the id counter. *)
Definition idsWithinCounter (contextState : ParseContext.State) : Prop :=
  Forall (fun nodeId => nodeId <= ParseContext.idCounter contextState)
         (NumMap.keys (ParseContext.astNodeById (ParseContext.nodeIdMapCollection contextState))) /\
  Forall (fun nodeId => nodeId <= ParseContext.idCounter contextState)
         (NumMap.keys (ParseContext.contextNodeById (ParseContext.nodeIdMapCollection contextState))).

(** The current context, if any, has a non-zero id and is open. *)
Definition currentContextIsOpen (state : IParserState) : Prop :=
  match maybeCurrentContextNode state with
  | None => True
  | Some nodeId =>
      nodeId <> 0 /\
      NumMap.get nodeId (ParseContext.contextNodeById
                           (ParseContext.nodeIdMapCollection (contextState state))) <> None
  end.

End TokenTests.

(* ------------------------------------------------------------------ *)
(** ** Speculative reads: what lies between a backup and its rollback *)

Module Speculation.
Import ParseContext IParserStateUtils.

(** A node with the id is in the collection, finished or open. *)
Definition live (collection : Collection) (nodeId : nat) : Prop :=
  NumMap.get nodeId (astNodeById collection) <> None \/
  NumMap.get nodeId (contextNodeById collection) <> None.

(** What identifies an open context: all but its attribute counter. *)
Definition contextIdentity (contextNode : ContextNode)
  : nat * string * nat * option nat :=
  (contextId contextNode, contextKind contextNode, tokenIndexStart contextNode,
   contextAttributeIndex contextNode).

(** Two id maps that cannot be told apart: the same finished nodes with the
    same payloads, the same open contexts, the same parents and the same
    children in the same order. *)
Definition sameIdMap (c1 c2 : Collection) : Prop :=
  (forall nodeId,
     NumMap.get nodeId (astNodeById c1) = NumMap.get nodeId (astNodeById c2)) /\
  (forall nodeId,
     option_map contextIdentity (NumMap.get nodeId (contextNodeById c1)) =
     option_map contextIdentity (NumMap.get nodeId (contextNodeById c2))) /\
  (forall nodeId,
     NumMap.get nodeId (parentIdById c1) = NumMap.get nodeId (parentIdById c2)) /\
  (forall nodeId, childIdsOf c1 nodeId = childIdsOf c2 nodeId).

(** Every id the collection mentions is at most [bound]. *)
Definition idsWithin (bound : nat) (collection : Collection) : Prop :=
  (forall nodeId, NumMap.get nodeId (astNodeById collection) <> None -> nodeId <= bound) /\
  (forall nodeId, NumMap.get nodeId (contextNodeById collection) <> None -> nodeId <= bound) /\
  (forall nodeId, NumMap.get nodeId (parentIdById collection) <> None -> nodeId <= bound) /\
  (forall nodeId, NumMap.get nodeId (childIdsById collection) <> None -> nodeId <= bound) /\
  (forall nodeId childId, In childId (childIdsOf collection nodeId) -> childId <= bound).

(** An open context is filed under its own id. *)
Definition contextIdsAgree (collection : Collection) : Prop :=
  forall nodeId contextNode,
    NumMap.get nodeId (contextNodeById collection) = Some contextNode ->
    contextId contextNode = nodeId.

(** A context state whose ids are allocated from the counter and whose node
    maps are Maps. *)
Definition allocated (contextState : ParseContext.State) : Prop :=
  idsWithin (idCounter contextState) (nodeIdMapCollection contextState) /\
  NoDup (NumMap.keys (astNodeById (nodeIdMapCollection contextState))) /\
  NoDup (NumMap.keys (contextNodeById (nodeIdMapCollection contextState))) /\
  contextIdsAgree (nodeIdMapCollection contextState).

(** The state a backup is taken from: its context state is allocated, and
    the current context, if any, is open. *)
Definition wellFormed (state : IParserState) : Prop :=
  allocated (contextState state) /\
  match maybeCurrentContextNode state with
  | None => True
  | Some nodeId =>
      nodeId <> 0 /\
      NumMap.get nodeId (contextNodeById (nodeIdMapCollection (contextState state))) <> None
  end.

(** The context [deleteContext(state, maybeNodeId)] is about to delete. *)
Definition contextToDelete (state : IParserState) (maybeNodeId : option nat) : option nat :=
  match maybeNodeId with
  | Some nodeId => Some nodeId
  | None => maybeCurrentContextNode state
  end.

(** The states a read reaches from [state]: contexts are started, tokens are
    consumed, attribute counters are incremented, and contexts are ended or
    deleted; [threshold] is the id counter at the start, and the read ends
    and deletes the contexts it started itself, those past the threshold,
    and no other. *)
Inductive Reads (threshold : nat) (state : IParserState) : IParserState -> Prop :=
| Reads_nothing : Reads threshold state state
| Reads_startContext : forall state' nodeKind,
    Reads threshold state state' ->
    Reads threshold state (startContext state' nodeKind)
| Reads_readToken : forall state',
    Reads threshold state state' ->
    Reads threshold state (Rollback.readToken state')
| Reads_incrementAttributeCounter : forall state' state'',
    Reads threshold state state' ->
    incrementAttributeCounter state' = Ok state'' ->
    Reads threshold state state''
| Reads_endContext : forall state' state'' currentId astNode isLeaf,
    Reads threshold state state' ->
    maybeCurrentContextNode state' = Some currentId ->
    threshold < currentId ->
    endContext state' astNode isLeaf = Ok state'' ->
    Reads threshold state state''
| Reads_deleteContext : forall state' state'' maybeNodeId nodeId,
    Reads threshold state state' ->
    contextToDelete state' maybeNodeId = Some nodeId ->
    threshold < nodeId ->
    deleteContext state' maybeNodeId = Ok state'' ->
    Reads threshold state state''.

(** What a speculative read and its rollback keep of the collection [c0] at
    the backup, [threshold] being the backup's id counter: the ids at or
    below the threshold keep their nodes, their parents and, among their
    children, those at or below the threshold; and what refers to an id past
    the threshold refers to a node that is still there. *)
Definition keepsBackup (threshold : nat) (c0 collection : Collection) : Prop :=
  (forall parentId childId,
     threshold < parentId -> In childId (childIdsOf collection parentId) ->
     threshold < childId) /\
  (forall parentId childId,
     In childId (childIdsOf collection parentId) -> threshold < childId ->
     live collection childId /\
     NumMap.get childId (parentIdById collection) = Some parentId) /\
  (forall nodeId,
     threshold < nodeId -> NumMap.get nodeId (parentIdById collection) <> None ->
     live collection nodeId) /\
  (forall nodeId,
     threshold < nodeId -> NumMap.get nodeId (childIdsById collection) <> None ->
     live collection nodeId) /\
  (forall nodeId,
     nodeId <= threshold ->
     NumMap.get nodeId (astNodeById collection) = NumMap.get nodeId (astNodeById c0)) /\
  (forall nodeId,
     nodeId <= threshold ->
     option_map contextIdentity (NumMap.get nodeId (contextNodeById collection)) =
     option_map contextIdentity (NumMap.get nodeId (contextNodeById c0))) /\
  (forall nodeId,
     nodeId <= threshold ->
     NumMap.get nodeId (parentIdById collection) = NumMap.get nodeId (parentIdById c0)) /\
  (forall nodeId,
     nodeId <= threshold ->
     filter (fun childId => Nat.leb childId threshold) (childIdsOf collection nodeId) =
     childIdsOf c0 nodeId).

(** The ids the rollback hands to a deletion loop. *)
Definition idsPast (threshold : nat) (nodeIds : list nat) : list nat :=
  rev (sortByNumber (filter (fun nodeId => Nat.ltb threshold nodeId) nodeIds)).

End Speculation.

(* ------------------------------------------------------------------ *)
(** ** parser/nodeIdMap/ancestryUtils.ts : the walk to the root *)

Module Ancestry.
Import AncestryUtils.

(** The [while (maybeParentId)] loop of [assertGetAncestry]: the parent ids
    pushed from [maybeParentId] on.  A parent id of 0 ends the loop like a
    missing one; [None] is a loop that is still running when the fuel is
    spent. *)
Fixpoint ancestryIdsLoop (parentIdById : NumMap.t nat) (fuel : nat)
         (maybeParentId : option nat) {struct fuel} : option (list nat) :=
  match maybeParentId with
  | Some (S parent) =>
      match fuel with
      | 0 => None
      | S fuel' =>
          option_map (cons (S parent))
                     (ancestryIdsLoop parentIdById fuel'
                        (NumMap.get (S parent) parentIdById))
      end
  | _ => Some []
  end.

(** [ancestryIds] when the loop is over. *)
Definition assertGetAncestryIds (parentIdById : NumMap.t nat) (rootId : nat) (fuel : nat)
  : option (list nat) :=
  option_map (cons rootId)
             (ancestryIdsLoop parentIdById fuel (NumMap.get rootId parentIdById)).

Section WithIterator.
(** [NodeIdMapIterator.assertIterXor], not under src/. *)
Variable assertIterXor : ParseContext.Collection -> list nat -> Res (list TXorNode).

Definition assertGetAncestry (nodeIdMapCollection : ParseContext.Collection)
           (rootId : nat) (fuel : nat) : option (Res (list TXorNode)) :=
  option_map (assertIterXor nodeIdMapCollection)
             (assertGetAncestryIds (ParseContext.parentIdById nodeIdMapCollection)
                                   rootId fuel).
End WithIterator.

Definition assertGetRoot (ancestry : list TXorNode) : Res TXorNode :=
  match nth_error ancestry (List.length ancestry - 1) with
  | Some root =>
      if Nat.ltb 0 (List.length ancestry) then Ok root
      else Throw (InvariantError "ancestry.length > 0")
  | None => Throw (InvariantError "ancestry.length > 0")
  end.

Definition assertGetNthNextXor (ancestry : list TXorNode) (ancestryIndex n : Z)
           (maybeAllowedNodeKinds : option (list string)) : Res TXorNode :=
  match maybeNthNextXor ancestry ancestryIndex n maybeAllowedNodeKinds with
  | Some xorNode => Ok xorNode
  | None => Throw (InvariantError "no next node")
  end.

Definition assertGetNextXor (ancestry : list TXorNode) (ancestryIndex : Z)
           (maybeAllowedNodeKinds : option (list string)) : Res TXorNode :=
  assertGetNthNextXor ancestry ancestryIndex 1 maybeAllowedNodeKinds.

(** Every parent was allocated before its child. *)
Definition parentsDecrease (parentIdById : NumMap.t nat) : Prop :=
  forall child parent, NumMap.get child parentIdById = Some parent -> parent < child.

(** Each id is followed by its parent. *)
Fixpoint isParentChain (parentIdById : NumMap.t nat) (ids : list nat) : Prop :=
  match ids with
  | child :: ((parent :: _) as rest) =>
      NumMap.get child parentIdById = Some parent /\ isParentChain parentIdById rest
  | _ => True
  end.

End Ancestry.

(* ------------------------------------------------------------------ *)
(** ** The states the keyword walk hands to the routines *)

Module KeywordWalk.
Import AutocompleteKeyword.

(** [state] after [state.ancestryIndex], [state.parent] and [state.child] are
    assigned in a turn of the loop of [traverseAncestors]. *)
Definition stateAt (state : InspectAutocompleteKeywordState) (parent child : TXorNode)
           (ancestryIndex : nat) : InspectAutocompleteKeywordState :=
  mkKeywordState (nodeIdMapCollection state) (leafNodeIds state) (activeNode state)
                 (maybeTrailingToken state) parent child ancestryIndex.

(** The state [autocompleteKeyword] starts from. *)
Definition initialState (collection : ParseContext.Collection) (leafNodeIds : list nat)
           (activeNode : ActiveNode) (maybeTrailingToken : option TrailingToken)
           (parent leaf : TXorNode) : InspectAutocompleteKeywordState :=
  mkKeywordState collection leafNodeIds activeNode maybeTrailingToken parent leaf 0.

End KeywordWalk.

(* ------------------------------------------------------------------ *)
(** ** Reading a lookup key back *)

Module LookupKeys.

(** The three components of a key, split at its last two commas. *)
Definition components (key : string) : string * string * string :=
  let (partialKey, rightTypeKind) := BinOp.splitKey key in
  let (leftTypeKind, operatorKind) := BinOp.splitKey partialKey in
  (leftTypeKind, operatorKind, rightTypeKind).

Definition isComparison (operatorKind : string) : bool :=
  existsb (String.eqb operatorKind)
    [ RelationalOperatorKind.GreaterThan; RelationalOperatorKind.GreaterThanEqualTo;
      RelationalOperatorKind.LessThan; RelationalOperatorKind.LessThanEqualTo;
      EqualityOperatorKind.EqualTo; EqualityOperatorKind.NotEqualTo ].

(** A check of every entry of a table, on its key's components and value. *)
Definition forallEntries (check : string -> string -> string -> string -> bool)
           (table : Js.Map string) : bool :=
  forallb (fun entry =>
             let '(leftTypeKind, operatorKind, rightTypeKind) := components (fst entry) in
             check leftTypeKind operatorKind rightTypeKind (snd entry))
          table.

(** The sets of a partial index are sets: non-empty, without duplicates. *)
Definition setsAreSets (m : Js.Map Js.StringSet) : Prop :=
  forall pk s, Js.get pk m = Some s -> s <> [] /\ NoDup s.

End LookupKeys.

(* ------------------------------------------------------------------ *)
(** ** Literal operands *)

(** The nodes of [1 *], of [1 + 2] and of ["a" + 1]: an ArithmeticExpression
    (id 1) over a literal (id 2), an operator constant (id 3) and, when it is
    there, a second literal (id 4). *)
Module Operands.
Import BinOp.
Definition at0 (column : Z) : Position := mkPosition 0 column.
Definition literalExpression (nodeId attributeIndex : nat) (text literalKind : string)
  : TXorNode :=
  mkXor Ast (mkNode nodeId "LiteralExpression" (Some attributeIndex) None (Some text)
                    (Some literalKind) (at0 0) (at0 1)).
Definition operator (operatorKind : string) : TXorNode :=
  mkXor Ast (mkNode 3 "Constant" (Some 1%nat) (Some operatorKind) None None
                    (at0 2) (at0 3)).
Definition openExpression : TXorNode :=
  mkXor Context (mkNode 1 "ArithmeticExpression" None None None None (at0 0) (at0 3)).
Definition expression : TXorNode :=
  mkXor Ast (mkNode 1 "ArithmeticExpression" None None None None (at0 0) (at0 5)).
Definition stateOf (children : list TXorNode) (cancelled : bool) : InspectTypeState :=
  mkInspectTypeState cancelled
    (fun parentId => if Nat.eqb parentId 1 then Ok children else Ok []).

Definition one : TXorNode := literalExpression 2 0 "1" "Numeric".
Definition two : TXorNode := literalExpression 4 2 "2" "Numeric".
Definition rightOne : TXorNode := literalExpression 4 2 "1" "Numeric".
Definition textA : TXorNode := literalExpression 2 0 "a" "Text".

Definition oneTimes : list TXorNode := [one; operator "*"].
Definition onePlusTwo : list TXorNode := [one; operator "+"; two].
Definition textPlusOne : list TXorNode := [textA; operator "+"; rightOne].
End Operands.

(* ------------------------------------------------------------------ *)
(** ** test/testUtils/assertUtils.ts *)

Module AssertUtils.

Definition pipe : ascii := "|"%char.

(** [s.indexOf(c)] for a one-character needle: -1 when absent. *)
Fixpoint indexOf (c : ascii) (s : string) : Z :=
  match s with
  | EmptyString => (-1)%Z
  | String a rest =>
      if Ascii.eqb a c then 0%Z
      else let i := indexOf c rest in
           if (0 <=? i)%Z then (i + 1)%Z else (-1)%Z
  end.

(** [s.replace(c, empty)] for a one-character string pattern: the first
    occurrence alone is removed. *)
Fixpoint removeFirst (c : ascii) (s : string) : string :=
  match s with
  | EmptyString => EmptyString
  | String a rest => if Ascii.eqb a c then rest else String a (removeFirst c rest)
  end.

(** A failed [expect] throws chai's AssertionError, named here by the message
    handed to the expectation. *)
Definition assertGetTextWithPosition (text : string) : Res (string * Position) :=
  let indexOfPipe := indexOf pipe text in
  if negb (-1 <? indexOfPipe)%Z then
    Throw (ForeignFault "text must have | marker")
  else if negb (indexOfPipe =? Js.lastIndexOf pipe text)%Z then
    Throw (ForeignFault "text must have one and only one '|'")
  else
    Ok (removeFirst pipe text, mkPosition 0 indexOfPipe).

(** Putting the marker back at a position. *)
Definition insertAt (c : ascii) (index : nat) (s : string) : string :=
  String.substring 0 index s ++ String c (String.substring index (String.length s - index) s).

End AssertUtils.

(* ------------------------------------------------------------------ *)
(** * Theorems *)

Lemma length_append : forall s1 s2 : string,
  String.length (s1 ++ s2) = String.length s1 + String.length s2.
Proof.
  induction s1 as [|c s1 IH]; intros s2; simpl; [reflexivity|].
  rewrite IH. reflexivity.
Qed.

Module StringUtilsFacts.
Import StringUtils.

Lemma summedLength_nonneg : forall gs, (0 <= summedLength gs)%Z.
Proof.
  induction gs as [|g gs IH]; simpl; unfold codeUnits in *; lia.
Qed.

Lemma summedLength_app : forall xs ys,
  summedLength (xs ++ ys) = (summedLength xs + summedLength ys)%Z.
Proof.
  induction xs as [|x xs IH]; intros ys; simpl; [reflexivity|].
  rewrite IH. lia.
Qed.

Lemma concat_length_summed : forall gs,
  codeUnits (String.concat "" gs) = summedLength gs.
Proof.
  induction gs as [|g gs IH]; [reflexivity|].
  simpl summedLength. rewrite <- IH.
  unfold codeUnits. destruct gs as [|g' gs'].
  - simpl. lia.
  - change (String.concat "" (g :: g' :: gs'))
      with (g ++ "" ++ String.concat "" (g' :: gs')).
    rewrite !length_append. simpl. lia.
Qed.

(** The loop returns [columnNumber + k] for the first [k], below the number of
    graphemes, whose prefix sums up to the required code unit. *)
Lemma columnNumberLoop_spec : forall gs r c s,
  Forall (fun g => (0 < codeUnits g)%Z) gs ->
  forall v,
    columnNumberLoop gs r c s = Ok v <->
    exists k, (k < List.length gs)%nat /\ v = (c + Z.of_nat k)%Z /\
              (s + summedLength (firstn k gs))%Z = r.
Proof.
  induction gs as [|g gs IH]; intros r c s Hpos v.
  - simpl. split; [discriminate|]. intros (k & Hk & _). simpl in Hk. lia.
  - inversion Hpos as [|? ? Hg Hgs]; subst. simpl columnNumberLoop.
    destruct (Z.eqb_spec s r) as [Heq|Hne].
    + split.
      * intros [= <-]. exists 0%nat. simpl. repeat split; lia.
      * intros (k & Hk & -> & Hsum). destruct k as [|k]; [f_equal; lia|].
        simpl in Hsum. pose proof (summedLength_nonneg (firstn k gs)). lia.
    + rewrite (IH r (c + 1)%Z (s + codeUnits g)%Z Hgs v). split.
      * intros (k & Hk & -> & Hsum). exists (S k). simpl. repeat split; lia.
      * intros (k & Hk & -> & Hsum). destruct k as [|k].
        -- simpl in Hsum. lia.
        -- exists k. simpl in Hk, Hsum. repeat split; lia.
Qed.

Lemma columnNumberLoop_throws : forall gs r c s,
  (forall v, columnNumberLoop gs r c s <> Ok v) ->
  columnNumberLoop gs r c s =
  Throw (InvariantError "no columnNumber can be generated for required codeUnit").
Proof.
  induction gs as [|g gs IH]; intros r c s Hno; simpl in *; [reflexivity|].
  destruct (s =? r)%Z.
  - exfalso. apply (Hno c). reflexivity.
  - apply IH. exact Hno.
Qed.

Lemma firstn_strict_sum_lt : forall gs k,
  Forall (fun g => (0 < codeUnits g)%Z) gs ->
  (k < List.length gs)%nat ->
  (summedLength (firstn k gs) < summedLength gs)%Z.
Proof.
  induction gs as [|g gs IH]; intros k Hpos Hk; simpl in Hk; [lia|].
  inversion Hpos as [|? ? Hg Hgs]; subst.
  destruct k as [|k]; simpl.
  - pose proof (summedLength_nonneg gs). lia.
  - assert (k < List.length gs)%nat by lia. specialize (IH k Hgs H). lia.
Qed.

Section ColumnNumber.
Variable splitGraphemes : string -> list string.
(** The splitter's contract: graphemes are non-empty and concatenate back
    to the text. *)
Hypothesis graphemes_nonempty :
  forall text, Forall (fun g => (0 < codeUnits g)%Z) (splitGraphemes text).
Hypothesis graphemes_concat :
  forall text, String.concat "" (splitGraphemes text) = text.

(** C10: [columnNumberFrom text r] returns [k] exactly when [k] graphemes form
    a strict prefix of the grapheme sequence of [text] whose summed code-unit
    length is [r]; it throws InvariantError when there is no such strict
    prefix, and in particular when [r] is the full code-unit length of
    [text]. *)
Theorem columnNumberFrom_strict_prefix : forall text r,
  (forall v, columnNumberFrom splitGraphemes text r = Ok v <->
     exists k, (k < List.length (splitGraphemes text))%nat /\ v = Z.of_nat k /\
               summedLength (firstn k (splitGraphemes text)) = r) /\
  ((~ exists k, (k < List.length (splitGraphemes text))%nat /\
                summedLength (firstn k (splitGraphemes text)) = r) ->
   columnNumberFrom splitGraphemes text r =
   Throw (InvariantError "no columnNumber can be generated for required codeUnit")) /\
  (r = codeUnits text ->
   columnNumberFrom splitGraphemes text r =
   Throw (InvariantError "no columnNumber can be generated for required codeUnit")).
Proof.
  intros text r. unfold columnNumberFrom.
  pose proof (graphemes_nonempty text) as Hpos.
  assert (Hspec : forall v,
    columnNumberLoop (splitGraphemes text) r 0 0 = Ok v <->
    exists k, (k < List.length (splitGraphemes text))%nat /\ v = Z.of_nat k /\
              summedLength (firstn k (splitGraphemes text)) = r).
  { intros v. rewrite (columnNumberLoop_spec _ r 0%Z 0%Z Hpos v).
    split; intros (k & Hk & Hv & Hs); exists k; repeat split; lia. }
  assert (Hthrow :
    (~ exists k, (k < List.length (splitGraphemes text))%nat /\
                 summedLength (firstn k (splitGraphemes text)) = r) ->
    columnNumberLoop (splitGraphemes text) r 0 0 =
    Throw (InvariantError "no columnNumber can be generated for required codeUnit")).
  { intros Hno. apply columnNumberLoop_throws. intros v Hv.
    apply Hspec in Hv. destruct Hv as (k & Hk & _ & Hs).
    apply Hno. exists k. split; assumption. }
  split; [exact Hspec|]. split; [exact Hthrow|].
  intros ->. apply Hthrow. intros (k & Hk & Hs).
  pose proof (firstn_strict_sum_lt _ k Hpos Hk) as Hlt.
  rewrite <- (graphemes_concat text) in Hs at 2.
  rewrite concat_length_summed in Hs. lia.
Qed.
End ColumnNumber.

Lemma splitCodeUnits_nonempty : forall text,
  Forall (fun g => (0 < codeUnits g)%Z) (splitCodeUnits text).
Proof.
  induction text as [|c text IH]; simpl; constructor; [|exact IH].
  unfold codeUnits. simpl. lia.
Qed.

Lemma splitCodeUnits_concat : forall text,
  String.concat "" (splitCodeUnits text) = text.
Proof.
  induction text as [|c text IH]; [reflexivity|].
  simpl splitCodeUnits. destruct text as [|c' text'].
  - reflexivity.
  - change (String.concat "" (String c "" :: splitCodeUnits (String c' text')))
      with (String c "" ++ "" ++ String.concat "" (splitCodeUnits (String c' text'))).
    rewrite IH. reflexivity.
Qed.

Lemma columnNumberFrom_strict_prefix_witness :
  columnNumberFrom splitCodeUnits "let" 2 = Ok 2%Z /\
  columnNumberFrom splitCodeUnits "let" 3 =
  Throw (InvariantError "no columnNumber can be generated for required codeUnit").
Proof.
  pose proof (columnNumberFrom_strict_prefix splitCodeUnits
                splitCodeUnits_nonempty splitCodeUnits_concat "let") as H.
  split.
  - apply (proj1 (H 2%Z)). exists 2%nat. repeat split. simpl. lia.
  - apply (proj2 (proj2 (H 3%Z))). reflexivity.
Defined.

End StringUtilsFacts.

(* ------------------------------------------------------------------ *)
(** ** Facts about the JavaScript containers *)

Module JsFacts.
Import Js.
Local Open Scope list_scope.

Lemma get_set_same : forall (V : Type) key (value : V) m,
  get key (set key value m) = Some value.
Proof.
  induction m as [|[k v] m IH]; simpl.
  - rewrite String.eqb_refl. reflexivity.
  - destruct (String.eqb_spec k key) as [->|Hne]; simpl.
    + rewrite String.eqb_refl. reflexivity.
    + destruct (String.eqb_spec k key); [contradiction|exact IH].
Qed.

Lemma get_set_other : forall (V : Type) key key' (value : V) m,
  key <> key' -> get key' (set key value m) = get key' m.
Proof.
  induction m as [|[k v] m IH]; intros Hne; simpl.
  - destruct (String.eqb_spec key key'); [contradiction|reflexivity].
  - destruct (String.eqb_spec k key) as [->|Hk]; simpl.
    + destruct (String.eqb_spec key key'); [contradiction|reflexivity].
    + destruct (String.eqb_spec k key'); [reflexivity|apply IH; exact Hne].
Qed.

Lemma get_some_in_keys : forall (V : Type) key (m : Map V) v,
  get key m = Some v -> In key (keys m).
Proof.
  induction m as [|[k w] m IH]; intros v; simpl; [discriminate|].
  destruct (String.eqb_spec k key) as [->|Hne]; [left; reflexivity|].
  intros H. right. exact (IH _ H).
Qed.

Lemma get_none_not_in_keys : forall (V : Type) key (m : Map V),
  get key m = None -> ~ In key (keys m).
Proof.
  induction m as [|[k w] m IH]; simpl; [tauto|].
  destruct (String.eqb_spec k key) as [->|Hne]; [discriminate|].
  intros H [Heq|Hin]; [contradiction|]. exact (IH H Hin).
Qed.

Lemma keys_set_present : forall (V : Type) key (value : V) m,
  In key (keys m) -> keys (set key value m) = keys m.
Proof.
  induction m as [|[k v] m IH]; simpl; [tauto|].
  intros Hin. destruct (String.eqb_spec k key) as [->|Hne]; [reflexivity|].
  simpl. f_equal. apply IH. destruct Hin; [contradiction|assumption].
Qed.

Lemma keys_set_absent : forall (V : Type) key (value : V) m,
  ~ In key (keys m) -> set key value m = (m ++ [(key, value)])%list.
Proof.
  induction m as [|[k v] m IH]; simpl; [reflexivity|].
  intros Hnin. destruct (String.eqb_spec k key) as [->|Hne]; [tauto|].
  f_equal. apply IH. tauto.
Qed.

Lemma NoDup_keys_set : forall (V : Type) key (value : V) m,
  NoDup (keys m) -> NoDup (keys (set key value m)).
Proof.
  intros V key value m Hnd.
  destruct (in_dec string_dec key (keys m)) as [Hin|Hnin].
  - rewrite keys_set_present by exact Hin. exact Hnd.
  - rewrite keys_set_absent by exact Hnin. unfold keys.
    rewrite List.map_app. simpl.
    apply NoDup_rev in Hnd. rewrite <- (rev_involutive (_ ++ _)%list).
    apply NoDup_rev. rewrite rev_app_distr. simpl. constructor.
    + rewrite <- in_rev. exact Hnin.
    + exact Hnd.
Qed.

Lemma get_in_iff : forall (V : Type) key (v : V) m,
  NoDup (keys m) -> (In (key, v) m <-> get key m = Some v).
Proof.
  induction m as [|[k w] m IH]; simpl; intros Hnd.
  - split; [tauto|discriminate].
  - inversion Hnd as [|? ? Hk Hm]; subst.
    destruct (String.eqb_spec k key) as [->|Hne].
    + split.
      * intros [[= ->]|Hin]; [reflexivity|].
        exfalso. apply Hk. change key with (fst (key, v)).
        apply in_map. exact Hin.
      * intros [= ->]. left. reflexivity.
    + rewrite <- (IH Hm). split.
      * intros [[= -> _]|Hin]; [contradiction|exact Hin].
      * intros Hin. right. exact Hin.
Qed.

(** [new Map(m.entries())] copies a map. *)
Lemma mapOfEntries_copy : forall (V : Type) (m : Map V),
  NoDup (keys m) -> mapOfEntries m = m.
Proof.
  intros V m. unfold mapOfEntries.
  assert (Hgen : forall (entries acc : Map V),
    NoDup (keys (acc ++ entries)) ->
    fold_left (fun m kv => set (fst kv) (snd kv) m) entries acc
    = (acc ++ entries)%list).
  { induction entries as [|[k v] entries IH]; intros acc Hnd; simpl.
    - rewrite app_nil_r. reflexivity.
    - assert (Hnin : ~ In k (keys acc)).
      { unfold keys in *. rewrite List.map_app in Hnd. simpl in Hnd.
        apply NoDup_remove_2 in Hnd. intros Hin. apply Hnd.
        apply in_or_app. left. exact Hin. }
      rewrite (keys_set_absent V k v acc Hnin).
      rewrite IH; rewrite <- app_assoc; simpl; [reflexivity|exact Hnd]. }
  intros Hnd. exact (Hgen m [] Hnd).
Qed.

Lemma in_add_iff : forall x y s, In x (add y s) <-> x = y \/ In x s.
Proof.
  intros x y s. unfold add, has.
  destruct (existsb (String.eqb y) s) eqn:Hex.
  - apply existsb_exists in Hex. destruct Hex as (z & Hz & Heq).
    apply String.eqb_eq in Heq. subst z. split; [tauto|].
    intros [->|H]; assumption.
  - rewrite in_app_iff. simpl. split; intros H; [|destruct H as [->|H]]; intuition.
Qed.

End JsFacts.

(* ------------------------------------------------------------------ *)
(** ** Splitting a lookup key at its last comma *)

Module KeyFacts.
Import Js.
Import BinOp.

Lemma countChar_append : forall c s1 s2,
  countChar c (s1 ++ s2) = countChar c s1 + countChar c s2.
Proof.
  induction s1 as [|a s1 IH]; intros s2; simpl; [reflexivity|].
  rewrite IH. lia.
Qed.

Lemma lastIndexOf_bounds : forall c s,
  (-1 <= lastIndexOf c s < Z.of_nat (String.length s))%Z.
Proof.
  induction s as [|a s IH]; simpl String.length; simpl lastIndexOf; [lia|].
  destruct (Z.leb_spec 0 (lastIndexOf c s)); [lia|].
  destruct (Ascii.eqb a c); lia.
Qed.

Lemma lastIndexOf_absent : forall c s,
  countChar c s = 0 -> lastIndexOf c s = (-1)%Z.
Proof.
  induction s as [|a s IH]; simpl; [reflexivity|].
  destruct (Ascii.eqb a c); [discriminate|]. simpl. intros H.
  rewrite (IH H). reflexivity.
Qed.

Lemma lastIndexOf_negative : forall c s,
  (lastIndexOf c s < 0)%Z -> countChar c s = 0.
Proof.
  induction s as [|a s IH]; simpl; [reflexivity|].
  destruct (Z.leb_spec 0 (lastIndexOf c s)) as [Hge|Hlt].
  - pose proof (lastIndexOf_bounds c s). lia.
  - destruct (Ascii.eqb a c); [lia|]. intros _. simpl. exact (IH Hlt).
Qed.

Lemma lastIndexOf_append : forall c p r,
  countChar c r = 0 ->
  lastIndexOf c (p ++ String c r) = Z.of_nat (String.length p).
Proof.
  intros c p r Hr. induction p as [|a p IH].
  - simpl. rewrite (lastIndexOf_absent c r Hr). simpl.
    rewrite Ascii.eqb_refl. reflexivity.
  - simpl String.length. simpl append. simpl lastIndexOf. rewrite IH.
    destruct (Z.leb_spec 0 (Z.of_nat (String.length p))); lia.
Qed.

Lemma lastIndexOf_decompose : forall c s,
  (0 <= lastIndexOf c s)%Z ->
  exists p r, s = p ++ String c r /\ countChar c r = 0.
Proof.
  induction s as [|a s IH]; simpl; [lia|].
  destruct (Z.leb_spec 0 (lastIndexOf c s)) as [Hge|Hlt].
  - intros _. destruct (IH Hge) as (p & r & -> & Hr).
    exists (String a p), r. split; [reflexivity|exact Hr].
  - destruct (Ascii.eqb_spec a c) as [->|Hne]; [|lia].
    intros _. exists "", s. split; [reflexivity|].
    apply lastIndexOf_negative. exact Hlt.
Qed.

Lemma substring_prefix : forall p s,
  substring 0 (String.length p) (p ++ s) = p.
Proof.
  induction p as [|a p IH]; intros s; simpl.
  - destruct s; reflexivity.
  - rewrite IH. reflexivity.
Qed.

Lemma substring_whole : forall s, substring 0 (String.length s) s = s.
Proof.
  induction s as [|a s IH]; simpl; [reflexivity|]. rewrite IH. reflexivity.
Qed.

Lemma substring_after : forall p c r,
  substring (S (String.length p)) (String.length r) (p ++ String c r) = r.
Proof.
  induction p as [|a p IH]; intros c r; simpl.
  - apply substring_whole.
  - apply IH.
Qed.

Lemma splitKey_append : forall p r,
  countChar comma r = 0 -> splitKey (p ++ String comma r) = (p, r).
Proof.
  intros p r Hr. unfold splitKey, sliceFrom, slice, clampIndex.
  rewrite (lastIndexOf_append comma p r Hr).
  rewrite length_append. simpl String.length.
  set (lp := String.length p). set (lr := String.length r).
  assert (H0 : (0 <? 0)%Z = false) by reflexivity. rewrite H0.
  destruct (Z.ltb_spec (Z.of_nat lp) 0); [lia|].
  destruct (Z.ltb_spec (Z.of_nat lp + 1) 0); [lia|].
  destruct (Z.ltb_spec (Z.of_nat (lp + S lr)) 0); [lia|].
  replace (Z.min 0 (Z.of_nat (lp + S lr))) with 0%Z by lia.
  replace (Z.min (Z.of_nat lp) (Z.of_nat (lp + S lr))) with (Z.of_nat lp) by lia.
  replace (Z.min (Z.of_nat lp + 1) (Z.of_nat (lp + S lr)))
    with (Z.of_nat (S lp)) by lia.
  replace (Z.min (Z.of_nat (lp + S lr)) (Z.of_nat (lp + S lr)))
    with (Z.of_nat (lp + S lr)) by lia.
  replace (Z.of_nat lp - 0)%Z with (Z.of_nat lp) by lia.
  replace (Z.of_nat (lp + S lr) - Z.of_nat (S lp))%Z with (Z.of_nat lr) by lia.
  rewrite !Nat2Z.id. change (Z.to_nat 0) with 0%nat.
  unfold lp, lr. rewrite substring_prefix, substring_after. reflexivity.
Qed.

(** A key with a comma splits into what precedes its last comma and the
    comma-free rest. *)
Lemma splitKey_decompose : forall key,
  0 < countChar comma key ->
  exists p r, key = p ++ String comma r /\ countChar comma r = 0 /\
              splitKey key = (p, r).
Proof.
  intros key Hc.
  assert (Hi : (0 <= lastIndexOf comma key)%Z).
  { destruct (Z.leb_spec 0 (lastIndexOf comma key)) as [H|H]; [exact H|].
    apply lastIndexOf_negative in H. lia. }
  destruct (lastIndexOf_decompose comma key Hi) as (p & r & -> & Hr).
  exists p, r. repeat split; [exact Hr|]. apply splitKey_append. exact Hr.
Qed.

Lemma append_String_inj : forall p p' c r r',
  countChar c r = 0 -> countChar c r' = 0 ->
  p ++ String c r = p' ++ String c r' -> p = p' /\ r = r'.
Proof.
  induction p as [|a p IH]; intros p' c r r' Hr Hr' Heq.
  - destruct p' as [|a' p']; simpl in Heq.
    + injection Heq as ->. split; reflexivity.
    + injection Heq as <- ->. rewrite countChar_append in Hr. simpl in Hr.
      rewrite Ascii.eqb_refl in Hr. lia.
  - destruct p' as [|a' p']; simpl in Heq.
    + injection Heq as -> <-. rewrite countChar_append in Hr'. simpl in Hr'.
      rewrite Ascii.eqb_refl in Hr'. lia.
    + injection Heq as -> Heq. destruct (IH p' c r r' Hr Hr' Heq) as [-> ->].
      split; reflexivity.
Qed.

End KeyFacts.

(* ------------------------------------------------------------------ *)
(** ** The partial index is the index of the keys it is reduced from *)

Module PartialLookupFacts.
Import Js JsFacts BinOp.
Local Open Scope list_scope.

Lemma partialLookupStep_eq : forall m key,
  partialLookupStep m key =
  match get (fst (splitKey key)) m with
  | None => set (fst (splitKey key)) [snd (splitKey key)] m
  | Some s => set (fst (splitKey key)) (add (snd (splitKey key)) s) m
  end.
Proof. reflexivity. Qed.

Lemma indexes_nil : indexes [] [].
Proof.
  repeat split.
  - constructor.
  - intros key [].
  - simpl in H. discriminate.
  - simpl in H. discriminate.
Qed.

Lemma indexes_step : forall m ks k,
  indexes m ks -> indexes (partialLookupStep m k) (ks ++ [k]).
Proof.
  intros m ks k (Hnd & Hfiled & Hexact).
  rewrite partialLookupStep_eq.
  destruct (splitKey k) as [pk x] eqn:Hk. simpl fst. simpl snd.
  set (v := match get pk m with None => [x] | Some s => add x s end).
  assert (Hm' : match get pk m with
                | None => set pk [x] m
                | Some s => set pk (add x s) m
                end = set pk v m).
  { unfold v. destruct (get pk m); reflexivity. }
  rewrite Hm'. clear Hm'.
  assert (Hx : In x v).
  { unfold v. destruct (get pk m); [apply in_add_iff|]; left; reflexivity. }
  assert (Hkeep : forall s y, get pk m = Some s -> In y s -> In y v).
  { intros s y Hs Hy. unfold v. rewrite Hs. apply in_add_iff. right. exact Hy. }
  split; [apply NoDup_keys_set; exact Hnd|]. split.
  - intros key Hin. apply in_app_or in Hin. destruct Hin as [Hin|[<-|[]]].
    + destruct (Hfiled key Hin) as (s & Hs & Hmem).
      destruct (string_dec pk (fst (splitKey key))) as [Heq|Hne].
      * exists v. rewrite <- Heq. split; [apply get_set_same|].
        rewrite <- Heq in Hs. exact (Hkeep s _ Hs Hmem).
      * exists s. rewrite get_set_other by exact Hne. split; assumption.
    + rewrite Hk. simpl. exists v. split; [apply get_set_same|exact Hx].
  - intros pk' s' Hget y.
    destruct (string_dec pk pk') as [<-|Hne].
    + rewrite get_set_same in Hget. injection Hget as <-. split.
      * intros Hy. unfold v in Hy. destruct (get pk m) as [s|] eqn:Hs.
        -- apply in_add_iff in Hy. destruct Hy as [->|Hy].
           ++ exists k. split; [apply in_or_app; right; left; reflexivity|exact Hk].
           ++ apply (Hexact pk s Hs) in Hy. destruct Hy as (key & Hin & Hsplit).
              exists key. split; [apply in_or_app; left; exact Hin|exact Hsplit].
        -- destruct Hy as [<-|[]].
           exists k. split; [apply in_or_app; right; left; reflexivity|exact Hk].
      * intros (key & Hin & Hsplit). apply in_app_or in Hin.
        destruct Hin as [Hin|[<-|[]]].
        -- destruct (Hfiled key Hin) as (s & Hs & Hmem).
           rewrite Hsplit in Hs, Hmem. simpl in Hs, Hmem.
           exact (Hkeep s y Hs Hmem).
        -- rewrite Hk in Hsplit. injection Hsplit as <-. exact Hx.
    + rewrite get_set_other in Hget by exact Hne.
      rewrite (Hexact pk' s' Hget y). split.
      * intros (key & Hin & Hsplit). exists key.
        split; [apply in_or_app; left; exact Hin|exact Hsplit].
      * intros (key & Hin & Hsplit). apply in_app_or in Hin.
        destruct Hin as [Hin|[<-|[]]].
        -- exists key. split; assumption.
        -- rewrite Hk in Hsplit. injection Hsplit as Heq _. contradiction.
Qed.

Lemma indexes_fold : forall ks, indexes (fold_left partialLookupStep ks []) ks.
Proof.
  induction ks as [|k ks IH] using rev_ind.
  - exact indexes_nil.
  - rewrite fold_left_app. simpl. apply indexes_step. exact IH.
Qed.

Lemma indexes_buildPartialLookup : forall ks, indexes (buildPartialLookup ks) ks.
Proof.
  intros ks. unfold buildPartialLookup.
  pose proof (indexes_fold ks) as H.
  rewrite mapOfEntries_copy; [exact H|]. exact (proj1 H).
Qed.

End PartialLookupFacts.

(* ------------------------------------------------------------------ *)
(** ** The operator tables *)

Module LookupFacts.
Import Js JsFacts BinOp KeyFacts PartialLookupFacts.

Lemma append_assoc : forall a b c : string, (a ++ b) ++ c = a ++ (b ++ c).
Proof.
  induction a as [|x a IH]; intros b c; simpl; [reflexivity|].
  rewrite IH. reflexivity.
Qed.

Lemma lookupKey_partial : forall l o r,
  lookupKey l o r = partialLookupKey l o ++ String comma r.
Proof.
  intros l o r. unfold lookupKey, partialLookupKey.
  rewrite !append_assoc. reflexivity.
Qed.

Lemma countChar_lookupKey : forall l o r,
  countChar comma (lookupKey l o r) =
  (2 + countChar comma l + countChar comma o + countChar comma r)%nat.
Proof.
  intros l o r. unfold lookupKey.
  rewrite !countChar_append. simpl. lia.
Qed.

Lemma Lookup_keys_two_commas : forall key,
  In key (keys Lookup) -> countChar comma key = 2%nat.
Proof.
  assert (H : forallb (fun key => Nat.eqb (countChar comma key) 2) (keys Lookup) = true)
    by (vm_compute; reflexivity).
  intros key Hin. rewrite forallb_forall in H.
  apply Nat.eqb_eq. exact (H key Hin).
Qed.

Lemma PartialLookup_keys_one_comma : forall pk,
  In pk (keys PartialLookup) -> countChar comma pk = 1%nat.
Proof.
  assert (H : forallb (fun key => Nat.eqb (countChar comma key) 1) (keys PartialLookup) = true)
    by (vm_compute; reflexivity).
  intros pk Hin. rewrite forallb_forall in H.
  apply Nat.eqb_eq. exact (H pk Hin).
Qed.

Lemma splitKey_lookupKey : forall l o r,
  In (lookupKey l o r) (keys Lookup) ->
  splitKey (lookupKey l o r) = (partialLookupKey l o, r).
Proof.
  intros l o r Hin. apply Lookup_keys_two_commas in Hin.
  rewrite countChar_lookupKey in Hin.
  rewrite lookupKey_partial. apply splitKey_append. lia.
Qed.

(** C6: every key [l,o,r] of the full table is filed in the partial index
    under [l,o], in a set that contains [r]; and the set of every entry of
    the partial index, whose key is some [l,o], holds exactly the last
    components [x] of the full-table keys [l,o,x]. *)
Theorem PartialLookup_indexes_Lookup :
  (forall l o r, In (lookupKey l o r) (keys Lookup) ->
     exists s, get (partialLookupKey l o) PartialLookup = Some s /\ In r s) /\
  (forall pk s, In (pk, s) PartialLookup ->
     exists l o, pk = partialLookupKey l o /\
       forall x, In x s <-> In (lookupKey l o x) (keys Lookup)).
Proof.
  destruct (indexes_buildPartialLookup (keys Lookup)) as (Hnd & Hfiled & Hexact).
  fold PartialLookup in Hnd, Hfiled, Hexact.
  split.
  - intros l o r Hin. destruct (Hfiled _ Hin) as (s & Hs & Hmem).
    rewrite (splitKey_lookupKey l o r Hin) in Hs, Hmem.
    exists s. split; assumption.
  - intros pk s Hentry.
    assert (Hget : get pk PartialLookup = Some s)
      by (apply get_in_iff; assumption).
    assert (Hone : countChar comma pk = 1%nat).
    { apply PartialLookup_keys_one_comma. change pk with (fst (pk, s)).
      apply in_map. exact Hentry. }
    destruct (splitKey_decompose pk) as (l & o & Hpk & Ho & _); [lia|].
    exists l, o. split; [exact Hpk|].
    intros x. rewrite (Hexact pk s Hget x). split.
    + intros (key & Hin & Hsplit).
      pose proof (Lookup_keys_two_commas key Hin) as Htwo.
      destruct (splitKey_decompose key) as (p & r & Hkey & Hr & Hsplit'); [lia|].
      rewrite Hsplit in Hsplit'. injection Hsplit' as <- <-.
      rewrite lookupKey_partial. unfold partialLookupKey.
      change (l ++ "," ++ o) with (l ++ String comma o).
      rewrite <- Hpk, <- Hkey. exact Hin.
    + intros Hin. exists (lookupKey l o x). split; [exact Hin|].
      rewrite (splitKey_lookupKey l o x Hin). rewrite Hpk. reflexivity.
Qed.

Lemma PartialLookup_indexes_Lookup_witness :
  exists s, get (partialLookupKey "Number" "*") PartialLookup = Some s /\ In "Duration" s.
Proof.
  apply (proj1 PartialLookup_indexes_Lookup "Number" "*" "Duration").
  assert (H : existsb (String.eqb (lookupKey "Number" "*" "Duration")) (keys Lookup) = true)
    by (vm_compute; reflexivity).
  apply existsb_exists in H. destruct H as (key & Hin & Heq).
  apply String.eqb_eq in Heq. rewrite Heq. exact Hin.
Defined.

End LookupFacts.

(* ------------------------------------------------------------------ *)
(** ** Typing a binary-operator expression *)

Module BinOpFacts.
Import Js JsFacts BinOp KeyFacts LookupFacts.

(** The tables are only ever evaluated as a whole. *)
Local Opaque Lookup PartialLookup.

Lemma In_by_eqb : forall x l, existsb (String.eqb x) l = true -> In x l.
Proof.
  intros x l H. apply existsb_exists in H. destruct H as (y & Hy & Heq).
  apply String.eqb_eq in Heq. subst y. exact Hy.
Qed.

Section Partial.
Variable isBinOp : string -> bool.
Variable inspectXor : InspectTypeState -> TXorNode -> Res TType.

(** The branch taken for [left op] with the right operand missing. *)
Lemma inspectType_partial_branch :
  forall state xorNode children leftXor opXor operatorKind leftType,
    isCancelled state = false ->
    isBinOp (nodeKind (node xorNode)) = true ->
    assertIterChildrenXor state (id (node xorNode)) = Ok children ->
    nth_error children 0 = Some leftXor ->
    nth_error children 1 = Some opXor ->
    kind opXor = Ast ->
    constantKind (node opXor) = Some operatorKind ->
    isAbsentOrContext (nth_error children 2) = true ->
    inspectXor state leftXor = Ok leftType ->
    inspectTypeTBinOpExpression isBinOp inspectXor state xorNode =
    match get (partialLookupKey (typeKindOf leftType) operatorKind) PartialLookup with
    | None => Ok NoneInstance
    | Some [onlyKind] => Ok (primitiveTypeFactory (isNullable leftType) onlyKind)
    | Some kinds =>
        Ok (anyUnionFactory (List.map (fun typeKind => Primitive typeKind true) kinds))
    end.
Proof.
  intros state xorNode children leftXor opXor operatorKind leftType
         Hcancel Hkind Hchildren Hleft Hop HopAst Hconst Hright Hinspect.
  unfold inspectTypeTBinOpExpression.
  rewrite Hcancel, Hkind, Hchildren. unfold negb, bindRes, maybeOperatorKindOf.
  rewrite Hleft, Hop, HopAst. unfold XorNodeKind_eqb.
  rewrite Hconst, Hright, Hinspect. reflexivity.
Qed.

(** C3: with a left operand, a finished operator constant and the right
    operand absent or still a context, a singleton partial lookup [{k}]
    gives the primitive type of kind [k] with the nullability of the left
    type, and a lookup of two or more kinds gives an AnyUnion with one
    member per kind, every member nullable. *)
Theorem inspectType_partial_lookup :
  forall state xorNode children leftXor opXor operatorKind leftType,
    isCancelled state = false ->
    isBinOp (nodeKind (node xorNode)) = true ->
    assertIterChildrenXor state (id (node xorNode)) = Ok children ->
    nth_error children 0 = Some leftXor ->
    nth_error children 1 = Some opXor ->
    kind opXor = Ast ->
    constantKind (node opXor) = Some operatorKind ->
    (nth_error children 2 = None \/
     exists rightXor, nth_error children 2 = Some rightXor /\ kind rightXor = Context) ->
    inspectXor state leftXor = Ok leftType ->
    (forall k,
       get (partialLookupKey (typeKindOf leftType) operatorKind) PartialLookup = Some [k] ->
       inspectTypeTBinOpExpression isBinOp inspectXor state xorNode =
       Ok (Primitive k (isNullable leftType))) /\
    (forall kinds,
       get (partialLookupKey (typeKindOf leftType) operatorKind) PartialLookup = Some kinds ->
       2 <= List.length kinds ->
       exists nullable members,
         inspectTypeTBinOpExpression isBinOp inspectXor state xorNode =
         Ok (AnyUnion nullable members) /\
         members = List.map (fun k => Primitive k true) kinds /\
         (forall k, In k kinds -> In (Primitive k true) members) /\
         (forall member, In member members -> isNullable member = true)).
Proof.
  intros state xorNode children leftXor opXor operatorKind leftType
         Hcancel Hkind Hchildren Hleft Hop HopAst Hconst Hright Hinspect.
  assert (Hright' : isAbsentOrContext (nth_error children 2) = true).
  { destruct Hright as [->|(r & -> & Hr)]; simpl; [reflexivity|].
    rewrite Hr. reflexivity. }
  pose proof (inspectType_partial_branch state xorNode children leftXor opXor
                operatorKind leftType Hcancel Hkind Hchildren Hleft Hop HopAst
                Hconst Hright' Hinspect) as Hbranch.
  split.
  - intros k Hget. rewrite Hbranch, Hget. reflexivity.
  - intros kinds Hget Hlen. rewrite Hbranch, Hget.
    destruct kinds as [|k1 [|k2 kinds]]; simpl in Hlen; try lia.
    eexists. eexists. split; [reflexivity|]. split; [reflexivity|]. split.
    + intros k Hin. apply (in_map (fun k => Primitive k true)). exact Hin.
    + intros member Hin. apply in_map_iff in Hin.
      destruct Hin as (k & <- & _). reflexivity.
Qed.
End Partial.

(** The literal [1] under [Number,*] and the duration-taking [Number,+]. *)
Lemma inspectType_partial_lookup_witness :
  inspectTypeTBinOpExpression isTBinOpExpressionKind inspectXorLiteral
    OnePlus.state OnePlus.arithmeticExpression = Ok (Primitive "Number" false).
Proof.
  assert (Hget : get (partialLookupKey "Number" "+") PartialLookup = Some ["Number"])
    by (vm_compute; reflexivity).
  exact (proj1 (inspectType_partial_lookup isTBinOpExpressionKind inspectXorLiteral
            OnePlus.state OnePlus.arithmeticExpression
            [OnePlus.literalOne; OnePlus.plus] OnePlus.literalOne OnePlus.plus "+"
            (Primitive "Number" false) eq_refl eq_refl eq_refl eq_refl eq_refl
            eq_refl eq_refl (or_introl eq_refl) eq_refl) "Number" Hget).
Defined.

Section OnePlusPartial.
Variable inspectXor : InspectTypeState -> TXorNode -> Res TType.

(** C4 (amended): for the partially parsed [1 +], whatever Number type
    [inspectXor] gives the literal, the singleton partial lookup on
    (Number, +) makes the result the primitive Number type with the
    nullability of that left type. *)
Theorem inspectType_one_plus : forall leftType,
  inspectXor OnePlus.state OnePlus.literalOne = Ok leftType ->
  typeKindOf leftType = TypeKind.Number ->
  get (partialLookupKey TypeKind.Number "+") PartialLookup = Some [TypeKind.Number] /\
  inspectTypeTBinOpExpression isTBinOpExpressionKind inspectXor
    OnePlus.state OnePlus.arithmeticExpression =
  Ok (Primitive TypeKind.Number (isNullable leftType)).
Proof.
  intros leftType Hinspect Hkind.
  assert (Hget : get (partialLookupKey TypeKind.Number "+") PartialLookup
                 = Some [TypeKind.Number]) by (vm_compute; reflexivity).
  split; [exact Hget|].
  rewrite (inspectType_partial_branch isTBinOpExpressionKind inspectXor
             OnePlus.state OnePlus.arithmeticExpression
             [OnePlus.literalOne; OnePlus.plus] OnePlus.literalOne OnePlus.plus "+"
             leftType eq_refl eq_refl eq_refl eq_refl eq_refl eq_refl eq_refl
             eq_refl Hinspect).
  rewrite Hkind, Hget. reflexivity.
Qed.
End OnePlusPartial.

Lemma inspectType_one_plus_witness :
  inspectTypeTBinOpExpression isTBinOpExpressionKind inspectXorLiteral
    OnePlus.state OnePlus.arithmeticExpression = Ok (Primitive TypeKind.Number false).
Proof.
  exact (proj2 (inspectType_one_plus inspectXorLiteral (Primitive TypeKind.Number false)
                  eq_refl eq_refl)).
Defined.

(** C4 as stated fails: the literal [1] is not nullable, and neither is the
    type inferred for [1 +]. *)
Lemma inspectType_one_plus_not_nullable :
  inspectTypeTBinOpExpression isTBinOpExpressionKind inspectXorLiteral
    OnePlus.state OnePlus.arithmeticExpression <> Ok (Primitive TypeKind.Number true).
Proof.
  vm_compute. discriminate.
Qed.

(** *** Combining records and tables with [&] *)

Lemma get_some_in : forall (V : Type) key (v : V) (m : Map V),
  get key m = Some v -> In (key, v) m.
Proof.
  induction m as [|[k w] m IH]; simpl; [discriminate|].
  destruct (String.eqb_spec k key) as [->|Hne].
  - intros [= ->]. left. reflexivity.
  - intros H. right. exact (IH H).
Qed.

Lemma lookupKey_inj : forall l o r l' o' r',
  countChar comma o = 0%nat -> countChar comma r = 0%nat ->
  countChar comma o' = 0%nat -> countChar comma r' = 0%nat ->
  lookupKey l o r = lookupKey l' o' r' -> l = l' /\ o = o' /\ r = r'.
Proof.
  intros l o r l' o' r' Ho Hr Ho' Hr' Heq.
  rewrite !lookupKey_partial in Heq.
  destruct (append_String_inj _ _ _ _ _ Hr Hr' Heq) as [Hp ->].
  unfold partialLookupKey in Hp.
  change (l ++ "," ++ o = l' ++ "," ++ o')
    with (l ++ String comma o = l' ++ String comma o') in Hp.
  destruct (append_String_inj _ _ _ _ _ Ho Ho' Hp) as [-> ->].
  repeat split.
Qed.

(** [&] yields Record or Table only on two records or two tables. *)
Lemma Lookup_record_or_table : forall l r k,
  get (lookupKey l ArithmeticOperatorKind.And r) Lookup = Some k ->
  k = TypeKind.Record \/ k = TypeKind.Table ->
  l = k /\ r = k.
Proof.
  intros l r k Hget Hk. apply get_some_in in Hget.
  assert (Htable : forallb (fun kv : string * string =>
            if String.eqb (snd kv) TypeKind.Record
            then String.eqb (fst kv) (lookupKey TypeKind.Record "&" TypeKind.Record)
            else if String.eqb (snd kv) TypeKind.Table
            then String.eqb (fst kv) (lookupKey TypeKind.Table "&" TypeKind.Table)
            else true) Lookup = true) by (vm_compute; reflexivity).
  rewrite forallb_forall in Htable. specialize (Htable _ Hget). simpl in Htable.
  assert (Htwo : countChar comma (lookupKey l ArithmeticOperatorKind.And r) = 2%nat).
  { apply Lookup_keys_two_commas. change (lookupKey l ArithmeticOperatorKind.And r)
      with (fst (lookupKey l ArithmeticOperatorKind.And r, k)).
    apply in_map. exact Hget. }
  rewrite countChar_lookupKey in Htwo.
  destruct Hk as [-> | ->].
  - change (String.eqb TypeKind.Record TypeKind.Record) with true in Htable.
    apply String.eqb_eq in Htable.
    apply lookupKey_inj in Htable; try reflexivity; try lia. tauto.
  - change (String.eqb TypeKind.Table TypeKind.Record) with false in Htable.
    change (String.eqb TypeKind.Table TypeKind.Table) with true in Htable.
    apply String.eqb_eq in Htable.
    apply lookupKey_inj in Htable; try reflexivity; try lia. tauto.
Qed.

(** The combined fields are the right-biased merge of the two field maps. *)
Lemma get_combineFields : forall rightFields leftFields key,
  NoDup (keys rightFields) ->
  get key (combineFields leftFields rightFields) =
  match get key rightFields with
  | Some v => Some v
  | None => get key leftFields
  end.
Proof.
  unfold combineFields.
  induction rightFields as [|[k v] rf IH]; intros lf key Hnd; simpl; [reflexivity|].
  inversion Hnd as [|? ? Hk Hrf]; subst. rewrite (IH _ key Hrf).
  destruct (String.eqb_spec k key) as [->|Hne].
  - destruct (get key rf) as [w|] eqn:Hw.
    + exfalso. apply Hk. exact (get_some_in_keys _ _ _ _ Hw).
    + apply get_set_same.
  - destruct (get key rf); [reflexivity|]. apply get_set_other. exact Hne.
Qed.

(** The combined fields list the left keys in their order, then the keys
    only the right map has, in the right map's order. *)
Lemma keys_combineFields : forall rightFields leftFields,
  NoDup (keys rightFields) ->
  keys (combineFields leftFields rightFields) =
  (keys leftFields ++
   filter (fun key => negb (existsb (String.eqb key) (keys leftFields)))
          (keys rightFields))%list.
Proof.
  unfold combineFields.
  induction rightFields as [|[k v] rf IH]; intros lf Hnd; simpl.
  - rewrite app_nil_r. reflexivity.
  - inversion Hnd as [|? ? Hk Hrf]; subst. rewrite (IH _ Hrf).
    destruct (existsb (String.eqb k) (keys lf)) eqn:Hex; simpl.
    + assert (Hin : In k (keys lf)).
      { apply existsb_exists in Hex. destruct Hex as (y & Hy & Heq).
        apply String.eqb_eq in Heq. subst y. exact Hy. }
      rewrite (keys_set_present _ k v lf Hin). reflexivity.
    + assert (Hnin : ~ In k (keys lf)).
      { intros Hin. apply Bool.not_true_iff_false in Hex. apply Hex.
        apply existsb_exists. exists k. split; [exact Hin|apply String.eqb_refl]. }
      rewrite (keys_set_absent _ k v lf Hnin). unfold keys at 1 2.
      rewrite List.map_app. simpl. rewrite <- app_assoc. simpl. f_equal. f_equal.
      apply filter_ext_in. intros key Hkey. f_equal.
      fold (keys lf). rewrite existsb_app. simpl.
      destruct (String.eqb_spec key k) as [->|Hne]; [contradiction|].
      rewrite Bool.orb_false_r. reflexivity.
Qed.

(** The combined fields are a Map when the left fields are. *)
Lemma NoDup_keys_combineFields : forall rightFields leftFields,
  NoDup (keys leftFields) -> NoDup (keys (combineFields leftFields rightFields)).
Proof.
  unfold combineFields.
  induction rightFields as [|[k v] rf IH]; intros lf Hnd; simpl; [exact Hnd|].
  apply IH. apply NoDup_keys_set. exact Hnd.
Qed.

Lemma typeKind_record_shape : forall t,
  typeKindOf t = TypeKind.Record ->
  (exists n, t = Primitive TypeKind.Record n /\ asRecordOrTable t = Some (RecordT n)) \/
  (exists n f o, t = DefinedRecord n f o /\ asRecordOrTable t = Some (DefinedRecordT n f o)).
Proof.
  intros [k n|n u|n f o|n f o|n|n]; simpl; intros H; try discriminate.
  - left. exists n. subst k. split; reflexivity.
  - right. exists n, f, o. split; reflexivity.
Qed.

Lemma typeKind_table_shape : forall t,
  typeKindOf t = TypeKind.Table ->
  (exists n, t = Primitive TypeKind.Table n /\ asRecordOrTable t = Some (TableT n)) \/
  (exists n f o, t = DefinedTable n f o /\ asRecordOrTable t = Some (DefinedTableT n f o)).
Proof.
  intros [k n|n u|n f o|n f o|n|n]; simpl; intros H; try discriminate.
  - left. exists n. subst k. split; reflexivity.
  - right. exists n, f, o. split; reflexivity.
Qed.

Section Full.
Variable isBinOp : string -> bool.
Variable inspectXor : InspectTypeState -> TXorNode -> Res TType.

(** The branch taken for [left & right] when the table yields Record or
    Table. *)
Lemma inspectType_and_branch :
  forall state xorNode children leftXor opXor rightXor leftType rightType k,
    isCancelled state = false ->
    isBinOp (nodeKind (node xorNode)) = true ->
    assertIterChildrenXor state (id (node xorNode)) = Ok children ->
    nth_error children 0 = Some leftXor ->
    nth_error children 1 = Some opXor ->
    kind opXor = Ast ->
    constantKind (node opXor) = Some ArithmeticOperatorKind.And ->
    nth_error children 2 = Some rightXor ->
    kind rightXor = Ast ->
    inspectXor state leftXor = Ok leftType ->
    inspectXor state rightXor = Ok rightType ->
    get (lookupKey (typeKindOf leftType) ArithmeticOperatorKind.And
                   (typeKindOf rightType)) Lookup = Some k ->
    k = TypeKind.Record \/ k = TypeKind.Table ->
    inspectTypeTBinOpExpression isBinOp inspectXor state xorNode =
    match asRecordOrTable leftType, asRecordOrTable rightType with
    | Some l, Some r => inspectRecordOrTableUnion l r
    | _, _ => Throw (InvariantError "not a record or table type")
    end.
Proof.
  intros state xorNode children leftXor opXor rightXor leftType rightType k
         Hcancel Hkind Hchildren Hleft Hop HopAst Hconst Hright HrightAst
         Hl Hr Hget Hk.
  unfold inspectTypeTBinOpExpression.
  rewrite Hcancel, Hkind, Hchildren. unfold negb, bindRes, maybeOperatorKindOf.
  rewrite Hleft, Hop, HopAst. unfold XorNodeKind_eqb.
  rewrite Hconst, Hright. unfold isAbsentOrContext. rewrite HrightAst.
  rewrite Hl, Hr, Hget.
  destruct Hk as [-> | ->]; reflexivity.
Qed.

(** C5: when [&] is typed over two operands and the full lookup yields
    Record or Table, two unextended operands give the primitive of that
    kind, nullable iff either side is; exactly one extended operand gives
    that operand's type with [isOpen] set to true; two extended operands of
    the same extended kind give that extended type with the right-biased
    merge of the two field maps (each key with the right value when the
    right map has it and the left value otherwise; the left keys in their
    order, then the keys only the right map has; one entry per key), the
    conjunction of the nullabilities and the disjunction of the [isOpen]
    flags. *)
Theorem inspectType_record_or_table_union :
  forall state xorNode children leftXor opXor rightXor leftType rightType k,
    isCancelled state = false ->
    isBinOp (nodeKind (node xorNode)) = true ->
    assertIterChildrenXor state (id (node xorNode)) = Ok children ->
    nth_error children 0 = Some leftXor ->
    nth_error children 1 = Some opXor ->
    kind opXor = Ast ->
    constantKind (node opXor) = Some ArithmeticOperatorKind.And ->
    nth_error children 2 = Some rightXor ->
    kind rightXor = Ast ->
    inspectXor state leftXor = Ok leftType ->
    inspectXor state rightXor = Ok rightType ->
    get (lookupKey (typeKindOf leftType) ArithmeticOperatorKind.And
                   (typeKindOf rightType)) Lookup = Some k ->
    k = TypeKind.Record \/ k = TypeKind.Table ->
    let result := inspectTypeTBinOpExpression isBinOp inspectXor state xorNode in
    (maybeExtendedKind leftType = None -> maybeExtendedKind rightType = None ->
     result = Ok (Primitive k (isNullable leftType || isNullable rightType))) /\
    (forall extended other,
       (extended = leftType /\ other = rightType) \/
       (extended = rightType /\ other = leftType) ->
       maybeExtendedKind extended <> None -> maybeExtendedKind other = None ->
       exists t, result = Ok t /\
         typeKindOf t = typeKindOf extended /\
         maybeExtendedKind t = maybeExtendedKind extended /\
         isNullable t = isNullable extended /\
         fieldsOf t = fieldsOf extended /\
         isOpenOf t = Some true) /\
    (forall extendedKind,
       maybeExtendedKind leftType = Some extendedKind ->
       maybeExtendedKind rightType = Some extendedKind ->
       exists t fields leftFields rightFields leftOpen rightOpen,
         result = Ok t /\
         typeKindOf t = k /\
         maybeExtendedKind t = Some extendedKind /\
         fieldsOf leftType = Some leftFields /\
         fieldsOf rightType = Some rightFields /\
         isOpenOf leftType = Some leftOpen /\
         isOpenOf rightType = Some rightOpen /\
         fieldsOf t = Some fields /\
         (NoDup (keys rightFields) ->
          (forall key, get key fields =
                       match get key rightFields with
                       | Some v => Some v
                       | None => get key leftFields
                       end) /\
          keys fields =
            (keys leftFields ++
             filter (fun key => negb (existsb (String.eqb key) (keys leftFields)))
                    (keys rightFields))%list /\
          (NoDup (keys leftFields) -> NoDup (keys fields))) /\
         isNullable t = isNullable leftType && isNullable rightType /\
         isOpenOf t = Some (leftOpen || rightOpen)).
Proof.
  intros state xorNode children leftXor opXor rightXor leftType rightType k
         Hcancel Hkind Hchildren Hleft Hop HopAst Hconst Hright HrightAst
         Hl Hr Hget Hk result.
  pose proof (inspectType_and_branch state xorNode children leftXor opXor rightXor
                leftType rightType k Hcancel Hkind Hchildren Hleft Hop HopAst
                Hconst Hright HrightAst Hl Hr Hget Hk) as Hbranch.
  fold result in Hbranch.
  destruct (Lookup_record_or_table _ _ _ Hget Hk) as [HlK HrK].
  clearbody result. clear Hget Hl Hr.
  destruct Hk as [-> | ->].
  - destruct (typeKind_record_shape _ HlK) as [(ln & -> & Hla)|(ln & lf & lo & -> & Hla)];
    destruct (typeKind_record_shape _ HrK) as [(rn & -> & Hra)|(rn & rf & ro & -> & Hra)];
    rewrite Hla, Hra in Hbranch; rewrite Hbranch; clear Hbranch Hla Hra HlK HrK;
    (split; [|split]).
    all: try (intros; discriminate).
    all: try (intros extended other [[-> ->]|[-> ->]] He Ho; simpl in He, Ho;
              try discriminate; try congruence;
              eexists; (split; [reflexivity|]); repeat split).
    all: try (intros _ _; reflexivity).
    all: try (intros e [= <-] _;
         exists (DefinedRecord (ln && rn) (combineFields lf rf) (lo || ro)),
                (combineFields lf rf), lf, rf, lo, ro;
         refine (conj eq_refl (conj eq_refl (conj eq_refl (conj eq_refl
                  (conj eq_refl (conj eq_refl (conj eq_refl (conj eq_refl
                  (conj _ (conj eq_refl eq_refl))))))))));
         intros Hnd; refine (conj _ (conj _ _));
         [ intros key; apply get_combineFields; exact Hnd
         | apply keys_combineFields; exact Hnd
         | apply NoDup_keys_combineFields ]).
  - destruct (typeKind_table_shape _ HlK) as [(ln & -> & Hla)|(ln & lf & lo & -> & Hla)];
    destruct (typeKind_table_shape _ HrK) as [(rn & -> & Hra)|(rn & rf & ro & -> & Hra)];
    rewrite Hla, Hra in Hbranch; rewrite Hbranch; clear Hbranch Hla Hra HlK HrK;
    (split; [|split]).
    all: try (intros; discriminate).
    all: try (intros extended other [[-> ->]|[-> ->]] He Ho; simpl in He, Ho;
              try discriminate; try congruence;
              eexists; (split; [reflexivity|]); repeat split).
    all: try (intros _ _; reflexivity).
    all: try (intros e [= <-] _;
         exists (DefinedTable (ln && rn) (combineFields lf rf) (lo || ro)),
                (combineFields lf rf), lf, rf, lo, ro;
         refine (conj eq_refl (conj eq_refl (conj eq_refl (conj eq_refl
                  (conj eq_refl (conj eq_refl (conj eq_refl (conj eq_refl
                  (conj _ (conj eq_refl eq_refl))))))))));
         intros Hnd; refine (conj _ (conj _ _));
         [ intros key; apply get_combineFields; exact Hnd
         | apply keys_combineFields; exact Hnd
         | apply NoDup_keys_combineFields ]).
Qed.
End Full.

(** [[a = 1] & [b = 2]]: both operands are defined records. *)
Lemma inspectType_record_or_table_union_witness :
  exists t fields,
    inspectTypeTBinOpExpression isTBinOpExpressionKind RecordAnd.inspectXor
      RecordAnd.state RecordAnd.arithmeticExpression = Ok t /\
    typeKindOf t = TypeKind.Record /\
    maybeExtendedKind t = Some ExtDefinedRecord /\
    fieldsOf t = Some fields /\
    get "a" fields = Some (Primitive TypeKind.Number false) /\
    get "b" fields = Some (Primitive TypeKind.Number false) /\
    keys fields = ["a"; "b"] /\
    isNullable t = false /\
    isOpenOf t = Some false.
Proof.
  assert (Hget : get (lookupKey (typeKindOf RecordAnd.leftType) ArithmeticOperatorKind.And
                                (typeKindOf RecordAnd.rightType)) Lookup
                 = Some TypeKind.Record) by (vm_compute; reflexivity).
  pose proof (inspectType_record_or_table_union isTBinOpExpressionKind
                RecordAnd.inspectXor RecordAnd.state RecordAnd.arithmeticExpression
                [RecordAnd.leftRecord; RecordAnd.ampersand; RecordAnd.rightRecord]
                RecordAnd.leftRecord RecordAnd.ampersand RecordAnd.rightRecord
                RecordAnd.leftType RecordAnd.rightType TypeKind.Record
                eq_refl eq_refl eq_refl eq_refl eq_refl eq_refl eq_refl eq_refl
                eq_refl eq_refl eq_refl Hget (or_introl eq_refl)) as H.
  destruct H as (_ & _ & H).
  destruct (H ExtDefinedRecord eq_refl eq_refl)
    as (t & fields & lf & rf & lo & ro & Ht & Hk & He & Hlf & Hrf & Hlo & Hro
        & Hf & Hmerge & Hn & Ho).
  injection Hlf as <-. injection Hrf as <-. injection Hlo as <-. injection Hro as <-.
  assert (Hnd : NoDup (keys [("b", Primitive TypeKind.Number false)])).
  { constructor; [intros []|constructor]. }
  destruct (Hmerge Hnd) as (Hlookup & Hkeys & _).
  exists t, fields.
  refine (conj Ht (conj Hk (conj He (conj Hf (conj _ (conj _ (conj _ (conj Hn Ho)))))))).
  - rewrite (Hlookup "a"). reflexivity.
  - rewrite (Hlookup "b"). reflexivity.
  - rewrite Hkeys. reflexivity.
Defined.

End BinOpFacts.

(* ------------------------------------------------------------------ *)
(** ** tryRead *)

Module TryReadFacts.
Import IParserStateUtils IParserUtils.

Lemma ensureCommonError_isCommonError : forall err,
  isCommonError (ensureCommonError err) = true.
Proof.
  intros err. unfold ensureCommonError.
  destruct (isCommonError err) eqn:H; [exact H|].
  destruct (isTInnerCommonError err); reflexivity.
Qed.

(** C2 (amended): [tryRead] returns a ParseError wrapping the thrown error and
    carrying the state as [read] left it when [read] throws an inner parse
    error; a CommonError when [read] throws anything else, and when [read]
    returns with a context still open; with no open context, a ParseError
    wrapping UnusedTokensRemainError for the token at the token index, and
    carrying the state, when the token index is below the token count (the
    snapshot locating that token); a ParseError wrapping the InvariantError
    of [assertGetTokenAt] when the token index is beyond the token count;
    and ok when the token index equals the token count. *)
Theorem tryRead_cases : forall state (read : Reader) state' outcome,
  read state = (state', outcome) ->
  (forall err, outcome = Throw err -> isTInnerParseError err = true ->
     tryRead state read = errFactory (ParseError err state')) /\
  (forall err, outcome = Throw err -> isTInnerParseError err = false ->
     tryRead state read = errFactory (CommonErrorOf (ensureCommonError err)) /\
     isCommonError (ensureCommonError err) = true) /\
  (forall root, outcome = Ok root -> maybeCurrentContextNode state' <> None ->
     exists invariant,
       tryRead state read = errFactory (CommonErrorOf (CommonError (InvariantError invariant)))) /\
  (forall root token positionStart,
     outcome = Ok root -> maybeCurrentContextNode state' = None ->
     nth_error (tokens (lexerSnapshot state')) (tokenIndex state') = Some token ->
     graphemePositionStartFrom (lexerSnapshot state') token = Ok positionStart ->
     tryRead state read =
     errFactory (ParseError (UnusedTokensRemainError token positionStart) state')) /\
  (forall root,
     outcome = Ok root -> maybeCurrentContextNode state' = None ->
     List.length (tokens (lexerSnapshot state')) < tokenIndex state' ->
     exists invariant,
       tryRead state read = errFactory (ParseError (InvariantError invariant) state')) /\
  (forall root,
     outcome = Ok root -> maybeCurrentContextNode state' = None ->
     tokenIndex state' = List.length (tokens (lexerSnapshot state')) ->
     tryRead state read =
     okFactory (mkParseOk root
                  (ParseContext.nodeIdMapCollection (contextState state'))
                  (ParseContext.leafNodeIds (contextState state'))
                  state')).
Proof.
  intros state read state' outcome Hread. unfold tryRead. rewrite Hread.
  refine (conj _ (conj _ (conj _ (conj _ (conj _ _))))).
  - intros err -> Hinner. rewrite Hinner. reflexivity.
  - intros err -> Hinner. rewrite Hinner.
    split; [reflexivity|apply ensureCommonError_isCommonError].
  - intros root -> Hopen. unfold assertNoOpenContext.
    destruct (maybeCurrentContextNode state'); [|contradiction].
    eexists. reflexivity.
  - intros root token positionStart -> Hopen Htoken Hposition.
    unfold assertNoOpenContext, assertNoMoreTokens, assertGetTokenAt.
    rewrite Hopen.
    assert (Hlt : tokenIndex state' < List.length (tokens (lexerSnapshot state'))).
    { apply nth_error_Some. rewrite Htoken. discriminate. }
    destruct (Nat.eqb_spec (tokenIndex state')
                (List.length (tokens (lexerSnapshot state')))); [lia|].
    rewrite Htoken. unfold bindRes. rewrite Hposition. reflexivity.
  - intros root -> Hopen Hbeyond.
    unfold assertNoOpenContext, assertNoMoreTokens, assertGetTokenAt.
    rewrite Hopen.
    destruct (Nat.eqb_spec (tokenIndex state')
                (List.length (tokens (lexerSnapshot state')))); [lia|].
    assert (Hnone : nth_error (tokens (lexerSnapshot state')) (tokenIndex state') = None).
    { apply nth_error_None. lia. }
    rewrite Hnone. eexists. reflexivity.
  - intros root -> Hopen Hall.
    unfold assertNoOpenContext, assertNoMoreTokens. rewrite Hopen, Hall.
    rewrite Nat.eqb_refl. reflexivity.
Qed.

Lemma tryRead_cases_witness :
  tryRead (stateFactory Scenario.snapshot) Scenario.readNothing =
  errFactory (ParseError (UnusedTokensRemainError Scenario.tokenX (mkGraphemePosition 0 0 0))
                         (stateFactory Scenario.snapshot)) /\
  tryRead (stateFactory Scenario.snapshot) Scenario.readToken =
  okFactory (mkParseOk Scenario.rootNode (ParseContext.mkCollection [] [] [] []) []
               (Scenario.withTokenIndex (stateFactory Scenario.snapshot) 1)).
Proof.
  split.
  - apply (proj1 (proj2 (proj2 (proj2
      (tryRead_cases (stateFactory Scenario.snapshot) Scenario.readNothing
         _ _ eq_refl)))) Scenario.rootNode); reflexivity.
  - apply (proj2 (proj2 (proj2 (proj2 (proj2
      (tryRead_cases (stateFactory Scenario.snapshot) Scenario.readToken
         _ _ eq_refl))))) Scenario.rootNode); reflexivity.
Defined.

(** C2 as stated fails twice: a ParseError carrying the state is returned
    although [read] threw nothing (so not exactly when [read] throws an inner
    parse error), and a read that returns with no open context and nothing
    left to consume, its token index beyond the token list, is given an
    error, not ok. *)
Lemma tryRead_not_as_stated :
  (Scenario.readNothing (stateFactory Scenario.snapshot) =
     (stateFactory Scenario.snapshot, Ok Scenario.rootNode) /\
   exists inner,
     tryRead (stateFactory Scenario.snapshot) Scenario.readNothing =
     errFactory (ParseError inner (stateFactory Scenario.snapshot))) /\
  (let state' := Scenario.withTokenIndex (stateFactory Scenario.snapshot) 2 in
   Scenario.readBeyond (stateFactory Scenario.snapshot) = (state', Ok Scenario.rootNode) /\
   maybeCurrentContextNode state' = None /\
   nth_error (tokens (lexerSnapshot state')) (tokenIndex state') = None /\
   tryRead (stateFactory Scenario.snapshot) Scenario.readBeyond =
   errFactory (ParseError
                 (InvariantError "assert failed, expected value to be defined") state')).
Proof.
  split.
  - split; [reflexivity|]. eexists. reflexivity.
  - repeat split.
Qed.

End TryReadFacts.

(* ------------------------------------------------------------------ *)
(** ** Map<number, V> *)

Module NumMapFacts.
Import NumMap.
Local Open Scope list_scope.

Lemma get_set : forall (V : Type) key (value : V) k m,
  get k (set key value m) = if Nat.eqb key k then Some value else get k m.
Proof.
  intros V key value k. induction m as [|[j v] m IH]; simpl; [reflexivity|].
  destruct (Nat.eqb_spec j key) as [->|Hne]; simpl.
  - destruct (Nat.eqb key k); reflexivity.
  - rewrite IH. destruct (Nat.eqb_spec j k) as [->|Hjk]; [|reflexivity].
    destruct (Nat.eqb_spec key k) as [->|Hkk]; [contradiction|reflexivity].
Qed.

Lemma get_delete : forall (V : Type) key k (m : t V),
  get k (delete key m) = if Nat.eqb key k then None else get k m.
Proof.
  intros V key k. unfold delete. induction m as [|[j v] m IH]; simpl.
  - destruct (Nat.eqb key k); reflexivity.
  - destruct (Nat.eqb_spec j key) as [->|Hne]; simpl.
    + rewrite IH. destruct (Nat.eqb key k); reflexivity.
    + rewrite IH. destruct (Nat.eqb_spec j k) as [->|Hjk]; [|reflexivity].
      destruct (Nat.eqb_spec key k) as [->|Hkk]; [contradiction|reflexivity].
Qed.

Lemma get_keys : forall (V : Type) k (m : t V),
  get k m <> None <-> In k (keys m).
Proof.
  intros V k. induction m as [|[j v] m IH]; simpl.
  - split; [intros H; contradiction|intros []].
  - destruct (Nat.eqb_spec j k) as [->|Hne].
    + split; [intros _; left; reflexivity|intros _; discriminate].
    + rewrite IH. split; [intros H; right; exact H|intros [H|H]; [contradiction|exact H]].
Qed.

Lemma keys_set_known : forall (V : Type) key (value : V) m,
  get key m <> None -> keys (set key value m) = keys m.
Proof.
  intros V key value. induction m as [|[j v] m IH]; simpl; [intros H; contradiction|].
  destruct (Nat.eqb_spec j key) as [->|Hne]; simpl; [reflexivity|].
  intros H. rewrite (IH H). reflexivity.
Qed.

Lemma keys_set_fresh : forall (V : Type) key (value : V) m,
  get key m = None -> keys (set key value m) = keys m ++ [key].
Proof.
  intros V key value. induction m as [|[j v] m IH]; simpl; [reflexivity|].
  destruct (Nat.eqb_spec j key) as [->|Hne]; simpl; [discriminate|].
  intros H. rewrite (IH H). reflexivity.
Qed.

Lemma keys_delete : forall (V : Type) key (m : t V),
  keys (delete key m) = filter (fun k => negb (Nat.eqb k key)) (keys m).
Proof.
  intros V key. unfold delete, keys. induction m as [|[j v] m IH]; simpl; [reflexivity|].
  destruct (Nat.eqb j key); simpl; [exact IH|]. rewrite IH. reflexivity.
Qed.

Lemma NoDup_keys_after_set : forall (V : Type) key (value : V) m,
  NoDup (keys m) -> NoDup (keys (set key value m)).
Proof.
  intros V key value m Hnd. destruct (get key m) as [v|] eqn:Hget.
  - rewrite keys_set_known; [exact Hnd|]. rewrite Hget. discriminate.
  - rewrite (keys_set_fresh _ _ _ _ Hget).
    apply NoDup_rev in Hnd. rewrite <- (rev_involutive (_ ++ _)).
    apply NoDup_rev. rewrite rev_app_distr. simpl. constructor; [|exact Hnd].
    rewrite <- in_rev. intros Hin. apply get_keys in Hin. contradiction.
Qed.

Lemma NoDup_keys_after_delete : forall (V : Type) key (m : t V),
  NoDup (keys m) -> NoDup (keys (delete key m)).
Proof.
  intros V key m Hnd. rewrite keys_delete. apply NoDup_filter. exact Hnd.
Qed.

Lemma existsb_eqb : forall k ids, existsb (Nat.eqb k) ids = true <-> In k ids.
Proof.
  intros k ids. rewrite existsb_exists. split.
  - intros (x & Hx & Heq). apply Nat.eqb_eq in Heq. subst x. exact Hx.
  - intros H. exists k. split; [exact H|apply Nat.eqb_refl].
Qed.

Lemma get_fold_set : forall (V : Type) (value : V) ids k m,
  get k (fold_left (fun m nodeId => set nodeId value m) ids m) =
  if existsb (Nat.eqb k) ids then Some value else get k m.
Proof.
  intros V value. induction ids as [|i ids IH]; intros k m; simpl; [reflexivity|].
  rewrite IH, get_set. rewrite (Nat.eqb_sym k i).
  destruct (existsb (Nat.eqb k) ids); [rewrite Bool.orb_true_r; reflexivity|].
  rewrite Bool.orb_false_r. reflexivity.
Qed.

Lemma get_deleteAll : forall (V : Type) ids k (m : t V),
  get k (deleteAll ids m) = if existsb (Nat.eqb k) ids then None else get k m.
Proof.
  intros V. unfold deleteAll.
  induction ids as [|i ids IH]; intros k m; simpl; [reflexivity|].
  rewrite IH, get_delete. rewrite (Nat.eqb_sym k i).
  destruct (existsb (Nat.eqb k) ids); [rewrite Bool.orb_true_r; reflexivity|].
  rewrite Bool.orb_false_r. reflexivity.
Qed.

Lemma keys_deleteAll : forall (V : Type) ids (m : t V),
  keys (deleteAll ids m) = filter (fun k => negb (existsb (Nat.eqb k) ids)) (keys m).
Proof.
  intros V. unfold deleteAll.
  induction ids as [|i ids IH]; intros m; simpl.
  - symmetry. apply forallb_filter_id. apply forallb_forall. intros; reflexivity.
  - rewrite IH, keys_delete. induction (keys m) as [|k ks IHk]; simpl; [reflexivity|].
    rewrite (Nat.eqb_sym k i).
    destruct (Nat.eqb i k); simpl; [exact IHk|].
    destruct (existsb (Nat.eqb k) ids); simpl; [exact IHk|]. rewrite IHk. reflexivity.
Qed.

End NumMapFacts.

(* ------------------------------------------------------------------ *)
(** ** Backups and rollbacks *)

Module RollbackFacts.
Import NumMap NumMapFacts ParseContext IParserStateUtils Speculation.
Local Open Scope list_scope.

(** The token index is the backup's, whatever was read in between. *)
Lemma applyFastStateBackup_tokenIndex : forall state backup restored,
  applyFastStateBackup state backup = Ok restored ->
  tokenIndex restored = backupTokenIndex backup /\
  maybeCurrentToken restored =
    nth_error (tokens (lexerSnapshot state)) (backupTokenIndex backup).
Proof.
  intros state backup restored. unfold applyFastStateBackup, bindRes.
  destruct (deleteNewAstNodes _ _ _) as [cs1|]; [|discriminate].
  destruct (deleteNewContextNodes _ _) as [cs2|]; [|discriminate].
  destruct (maybeContextNodeId backup) as [[|n]|].
  - intros [= <-]. split; reflexivity.
  - destruct (NumMap.get _ _); [|discriminate]. intros [= <-]. split; reflexivity.
  - intros [= <-]. split; reflexivity.
Qed.

Lemma filter_nothing : forall (keep : nat -> bool) ids,
  (forall x, In x ids -> keep x = false) -> filter keep ids = [].
Proof.
  induction ids as [|x ids IH]; intros H; simpl; [reflexivity|].
  rewrite (H x (or_introl eq_refl)). apply IH. intros y Hy. apply H. right. exact Hy.
Qed.

Lemma In_replaceId : forall nodeId replacement ids x,
  In x (replaceId nodeId replacement ids) <->
  (In x replacement /\ In nodeId ids) \/ (In x ids /\ x <> nodeId).
Proof.
  intros nodeId replacement ids x. unfold replaceId. rewrite in_flat_map. split.
  - intros (i & Hi & Hx). destruct (Nat.eqb_spec i nodeId) as [->|Hne].
    + left. split; assumption.
    + right. destruct Hx as [<-|[]]. split; assumption.
  - intros [[Hx Hn]|[Hx Hne]].
    + exists nodeId. split; [exact Hn|]. rewrite Nat.eqb_refl. exact Hx.
    + exists x. split; [exact Hx|]. apply Nat.eqb_neq in Hne. rewrite Hne.
      left. reflexivity.
Qed.

Lemma filter_replaceId : forall (keep : nat -> bool) nodeId replacement ids,
  keep nodeId = false ->
  (forall x, In x replacement -> keep x = false) ->
  filter keep (replaceId nodeId replacement ids) = filter keep ids.
Proof.
  intros keep nodeId replacement ids Hn Hreplacement. unfold replaceId.
  induction ids as [|i ids IH]; simpl; [reflexivity|].
  rewrite filter_app, IH. destruct (Nat.eqb_spec i nodeId) as [->|Hne].
  - rewrite Hn, (filter_nothing keep replacement Hreplacement). reflexivity.
  - simpl. destruct (keep i); reflexivity.
Qed.

Lemma childIds_setChildIds : forall parentId ids m q,
  match get q (setChildIds parentId ids m) with Some l => l | None => [] end =
  if Nat.eqb parentId q then ids
  else match get q m with Some l => l | None => [] end.
Proof.
  intros parentId ids m q. unfold setChildIds.
  destruct ids; [rewrite get_delete|rewrite get_set];
    destruct (Nat.eqb parentId q); reflexivity.
Qed.

Lemma giveBackAttribute_identity : forall parentId m k,
  option_map contextIdentity (get k (giveBackAttribute parentId m)) =
  option_map contextIdentity (get k m).
Proof.
  intros parentId m k. unfold giveBackAttribute.
  destruct (get parentId m) as [parent|] eqn:Hparent; [|reflexivity].
  rewrite get_set. destruct (Nat.eqb_spec parentId k) as [->|Hne]; [|reflexivity].
  rewrite Hparent. reflexivity.
Qed.

Lemma giveBackAttribute_keys : forall parentId m,
  keys (giveBackAttribute parentId m) = keys m.
Proof.
  intros parentId m. unfold giveBackAttribute.
  destruct (get parentId m) as [parent|] eqn:Hparent; [|reflexivity].
  apply keys_set_known. rewrite Hparent. discriminate.
Qed.

Lemma identity_none : forall (a b : option ContextNode),
  option_map contextIdentity a = option_map contextIdentity b ->
  (a <> None <-> b <> None).
Proof.
  intros [a|] [b|] H; simpl in H; try discriminate;
    split; intros H'; try discriminate; try contradiction.
Qed.

(** *** What relinking does to each map *)

Lemma relink_ast : forall collection nodeId replacement,
  astNodeById (relink collection nodeId replacement) = astNodeById collection.
Proof.
  intros collection nodeId replacement. unfold relink.
  destruct (get nodeId (parentIdById collection)); reflexivity.
Qed.

Lemma relink_context_identity : forall collection nodeId replacement k,
  option_map contextIdentity
    (get k (contextNodeById (relink collection nodeId replacement))) =
  option_map contextIdentity (get k (contextNodeById collection)).
Proof.
  intros collection nodeId replacement k. unfold relink.
  destruct (get nodeId (parentIdById collection)); simpl; [|reflexivity].
  apply giveBackAttribute_identity.
Qed.

Lemma relink_context_keys : forall collection nodeId replacement,
  keys (contextNodeById (relink collection nodeId replacement)) =
  keys (contextNodeById collection).
Proof.
  intros collection nodeId replacement. unfold relink.
  destruct (get nodeId (parentIdById collection)); simpl; [|reflexivity].
  apply giveBackAttribute_keys.
Qed.

Lemma relink_parent : forall collection nodeId replacement k,
  get k (delete nodeId (parentIdById (relink collection nodeId replacement))) =
  if Nat.eqb nodeId k then None
  else if existsb (Nat.eqb k) replacement then get nodeId (parentIdById collection)
  else get k (parentIdById collection).
Proof.
  intros collection nodeId replacement k. rewrite get_delete.
  destruct (Nat.eqb nodeId k); [reflexivity|]. unfold relink.
  destruct (get nodeId (parentIdById collection)) as [parentId|]; simpl.
  - apply get_fold_set.
  - apply (get_deleteAll nat replacement k).
Qed.

Lemma relink_childIds : forall collection nodeId replacement q,
  match get q (delete nodeId (childIdsById (relink collection nodeId replacement))) with
  | Some ids => ids
  | None => []
  end =
  if Nat.eqb nodeId q then []
  else match get nodeId (parentIdById collection) with
       | Some parentId =>
           if Nat.eqb parentId q
           then replaceId nodeId replacement (childIdsOf collection q)
           else childIdsOf collection q
       | None => childIdsOf collection q
       end.
Proof.
  intros collection nodeId replacement q. rewrite get_delete.
  destruct (Nat.eqb nodeId q); [reflexivity|]. unfold relink.
  destruct (get nodeId (parentIdById collection)) as [parentId|]; simpl; [|reflexivity].
  rewrite childIds_setChildIds.
  destruct (Nat.eqb_spec parentId q) as [->|Hne]; reflexivity.
Qed.

Lemma relink_childIds_key : forall collection nodeId replacement q,
  get q (delete nodeId (childIdsById (relink collection nodeId replacement))) <> None ->
  q <> nodeId /\ get q (childIdsById collection) <> None.
Proof.
  intros collection nodeId replacement q. rewrite get_delete.
  destruct (Nat.eqb_spec nodeId q) as [->|Hne]; [intros H; contradiction|].
  intros H. split; [intros ->; contradiction|]. revert H. unfold relink.
  destruct (get nodeId (parentIdById collection)) as [parentId|]; simpl; [|exact (fun H => H)].
  unfold setChildIds.
  destruct (replaceId nodeId replacement (childIdsOf collection parentId)) eqn:Hreplaced.
  - rewrite get_delete. destruct (Nat.eqb parentId q); [intros H; contradiction|exact (fun H => H)].
  - rewrite get_set. destruct (Nat.eqb_spec parentId q) as [->|Hpq]; [|exact (fun H => H)].
    intros _. unfold childIdsOf in Hreplaced.
    destruct (get q (childIdsById collection)); [discriminate|discriminate Hreplaced].
Qed.

(** *** Deleting a node past the threshold keeps what the backup needs *)

Lemma keepsBackup_detached :
  forall threshold c0 collection collection' nodeId replacement,
    keepsBackup threshold c0 collection ->
    threshold < nodeId ->
    incl replacement (childIdsOf collection nodeId) ->
    (forall k,
       get k (parentIdById collection') =
       if Nat.eqb nodeId k then None
       else if existsb (Nat.eqb k) replacement then get nodeId (parentIdById collection)
       else get k (parentIdById collection)) ->
    (forall q,
       childIdsOf collection' q =
       if Nat.eqb nodeId q then []
       else match get nodeId (parentIdById collection) with
            | Some parentId =>
                if Nat.eqb parentId q
                then replaceId nodeId replacement (childIdsOf collection q)
                else childIdsOf collection q
            | None => childIdsOf collection q
            end) ->
    (forall q, get q (childIdsById collection') <> None ->
               q <> nodeId /\ get q (childIdsById collection) <> None) ->
    (forall k, k <> nodeId -> live collection k -> live collection' k) ->
    (forall k, k <> nodeId ->
               get k (astNodeById collection') = get k (astNodeById collection)) ->
    (forall k, k <> nodeId ->
               option_map contextIdentity (get k (contextNodeById collection')) =
               option_map contextIdentity (get k (contextNodeById collection))) ->
    keepsBackup threshold c0 collection'.
Proof.
  intros T c0 c c' n repl (R2 & R3 & R4 & R5 & E1 & E2 & E3 & E4)
         Hn Hrepl Hparent Hchildren Hkey Hlive Hast Hctx.
  assert (Hnew : forall x, In x repl -> T < x).
  { intros x Hx. exact (R2 n x Hn (Hrepl x Hx)). }
  assert (Hin : forall q x,
            In x (childIdsOf c' q) ->
            q <> n /\
            ((get n (parentIdById c) = Some q /\ In x repl /\ In n (childIdsOf c q)) \/
             (In x (childIdsOf c q) /\
              (get n (parentIdById c) = Some q -> x <> n)))).
  { intros q x Hx. rewrite Hchildren in Hx.
    destruct (Nat.eqb_spec n q) as [->|Hnq]; [destruct Hx|].
    split; [intros ->; contradiction|].
    destruct (get n (parentIdById c)) as [p|] eqn:Hp.
    - destruct (Nat.eqb_spec p q) as [->|Hpq].
      + apply In_replaceId in Hx. destruct Hx as [[Hx Hnin]|[Hx Hne]].
        * left. repeat split; assumption.
        * right. split; [exact Hx|]. intros _. exact Hne.
      + right. split; [exact Hx|]. intros [= Heq]. contradiction.
    - right. split; [exact Hx|]. intros Heq. discriminate Heq. }
  refine (conj _ (conj _ (conj _ (conj _ (conj _ (conj _ (conj _ _))))))).
  - (* children of a node past the threshold are past it *)
    intros q x Hq Hx. destruct (Hin q x Hx) as [_ [(_ & Hxr & _)|[Hx' _]]].
    + exact (Hnew x Hxr).
    + exact (R2 q x Hq Hx').
  - (* a listed child past the threshold is there, under that parent *)
    intros q x Hx HTx. destruct (Hin q x Hx) as [Hqn [(Hp & Hxr & _)|[Hx' Hxn]]].
    + destruct (R3 n x (Hrepl x Hxr) HTx) as [Hlx Hpx].
      assert (Hne : x <> n).
      { intros ->. rewrite Hp in Hpx. injection Hpx as ->. contradiction. }
      split; [exact (Hlive x Hne Hlx)|].
      rewrite Hparent. apply Nat.eqb_neq in Hne. rewrite (Nat.eqb_sym n x), Hne.
      apply existsb_eqb in Hxr. rewrite Hxr. exact Hp.
    + destruct (R3 q x Hx' HTx) as [Hlx Hpx].
      assert (Hne : x <> n).
      { intros ->. exact (Hxn Hpx eq_refl). }
      split; [exact (Hlive x Hne Hlx)|].
      rewrite Hparent. pose proof Hne as Hneb.
      apply Nat.eqb_neq in Hneb. rewrite (Nat.eqb_sym n x), Hneb.
      destruct (existsb (Nat.eqb x) repl) eqn:Hxr; [|exact Hpx].
      apply existsb_eqb in Hxr.
      destruct (R3 n x (Hrepl x Hxr) HTx) as [_ Hpx'].
      rewrite Hpx in Hpx'. injection Hpx' as ->. contradiction.
  - (* a parent entry past the threshold is of a node that is there *)
    intros k Hk Hget. rewrite Hparent in Hget.
    destruct (Nat.eqb_spec n k) as [->|Hnk]; [contradiction|].
    assert (Hne : k <> n) by (intros ->; contradiction).
    apply (Hlive k Hne).
    destruct (existsb (Nat.eqb k) repl) eqn:Hkr.
    + apply existsb_eqb in Hkr. exact (proj1 (R3 n k (Hrepl k Hkr) Hk)).
    + exact (R4 k Hk Hget).
  - (* a children entry past the threshold is of a node that is there *)
    intros k Hk Hget. destruct (Hkey k Hget) as [Hne Hget'].
    exact (Hlive k Hne (R5 k Hk Hget')).
  - intros k Hk. rewrite Hast by lia. exact (E1 k Hk).
  - intros k Hk. rewrite Hctx by lia. exact (E2 k Hk).
  - intros k Hk. rewrite Hparent.
    destruct (Nat.eqb_spec n k) as [->|Hnk]; [lia|].
    destruct (existsb (Nat.eqb k) repl) eqn:Hkr; [|exact (E3 k Hk)].
    apply existsb_eqb in Hkr. specialize (Hnew k Hkr). lia.
  - intros p Hp. rewrite Hchildren.
    destruct (Nat.eqb_spec n p) as [->|Hnp]; [lia|].
    destruct (get n (parentIdById c)) as [p'|]; [|exact (E4 p Hp)].
    destruct (Nat.eqb_spec p' p) as [->|Hpp]; [|exact (E4 p Hp)].
    rewrite filter_replaceId; [exact (E4 p Hp)| |].
    + apply Nat.leb_gt. exact Hn.
    + intros x Hx. apply Nat.leb_gt. exact (Hnew x Hx).
Qed.

Lemma deleteAst_keepsBackup : forall threshold c0 state nodeId parentWillBeDeleted,
  keepsBackup threshold c0 (nodeIdMapCollection state) ->
  threshold < nodeId ->
  get nodeId (astNodeById (nodeIdMapCollection state)) <> None ->
  exists state',
    deleteAst state nodeId parentWillBeDeleted = Ok state' /\
    keepsBackup threshold c0 (nodeIdMapCollection state') /\
    astNodeById (nodeIdMapCollection state') =
      delete nodeId (astNodeById (nodeIdMapCollection state)) /\
    keys (contextNodeById (nodeIdMapCollection state')) =
      keys (contextNodeById (nodeIdMapCollection state)) /\
    idCounter state' = idCounter state.
Proof.
  intros T c0 state n hint Hkeeps Hn Hget. unfold deleteAst.
  destruct (get n (astNodeById (nodeIdMapCollection state))) as [astNode|];
    [|contradiction].
  eexists. split; [reflexivity|]. cbn [nodeIdMapCollection idCounter].
  set (c := nodeIdMapCollection state) in *.
  set (repl := if hint then [] else childIdsOf c n).
  refine (conj _ (conj _ (conj _ eq_refl))).
  - apply (keepsBackup_detached T c0 c _ n repl Hkeeps Hn).
    + subst repl. destruct hint; [intros x []|apply incl_refl].
    + intros k. cbn [parentIdById]. apply relink_parent.
    + intros q. unfold childIdsOf at 1. cbn [childIdsById]. apply relink_childIds.
    + intros q. cbn [childIdsById]. apply relink_childIds_key.
    + intros k Hne [Hlive|Hlive]; [left|right].
      * cbn [astNodeById]. rewrite get_delete, relink_ast.
        destruct (Nat.eqb_spec n k) as [->|]; [contradiction|exact Hlive].
      * cbn [contextNodeById].
        apply (identity_none _ _ (relink_context_identity c n repl k)). exact Hlive.
    + intros k Hne. cbn [astNodeById]. rewrite get_delete, relink_ast.
      destruct (Nat.eqb_spec n k) as [->|]; [contradiction|reflexivity].
    + intros k Hne. cbn [contextNodeById]. apply relink_context_identity.
  - cbn [astNodeById]. rewrite relink_ast. reflexivity.
  - cbn [contextNodeById]. apply relink_context_keys.
Qed.

Lemma deleteContext_keepsBackup : forall threshold c0 state nodeId,
  keepsBackup threshold c0 (nodeIdMapCollection state) ->
  threshold < nodeId ->
  get nodeId (contextNodeById (nodeIdMapCollection state)) <> None ->
  exists state' current,
    ParseContext.deleteContext state nodeId = Ok (state', current) /\
    keepsBackup threshold c0 (nodeIdMapCollection state') /\
    astNodeById (nodeIdMapCollection state') =
      astNodeById (nodeIdMapCollection state) /\
    keys (contextNodeById (nodeIdMapCollection state')) =
      keys (delete nodeId (contextNodeById (nodeIdMapCollection state))) /\
    idCounter state' = idCounter state.
Proof.
  intros T c0 state n Hkeeps Hn Hget. unfold ParseContext.deleteContext.
  destruct (get n (contextNodeById (nodeIdMapCollection state))) as [contextNode|];
    [|contradiction].
  eexists. eexists. split; [reflexivity|]. cbn [nodeIdMapCollection idCounter].
  set (c := nodeIdMapCollection state) in *. unfold rewire.
  set (repl := childIdsOf c n).
  refine (conj _ (conj _ (conj _ eq_refl))).
  - apply (keepsBackup_detached T c0 c _ n repl Hkeeps Hn).
    + apply incl_refl.
    + intros k. cbn [parentIdById]. apply relink_parent.
    + intros q. unfold childIdsOf at 1. cbn [childIdsById]. apply relink_childIds.
    + intros q. cbn [childIdsById]. apply relink_childIds_key.
    + intros k Hne [Hlive|Hlive]; [left|right].
      * cbn [astNodeById]. rewrite relink_ast. exact Hlive.
      * cbn [contextNodeById]. rewrite get_delete.
        destruct (Nat.eqb_spec n k) as [->|]; [contradiction|].
        apply (identity_none _ _ (relink_context_identity c n repl k)). exact Hlive.
    + intros k Hne. cbn [astNodeById]. rewrite relink_ast. reflexivity.
    + intros k Hne. cbn [contextNodeById]. rewrite get_delete.
      destruct (Nat.eqb_spec n k) as [->|]; [contradiction|].
      apply relink_context_identity.
  - cbn [astNodeById]. apply relink_ast.
  - cbn [contextNodeById]. rewrite !keys_delete, relink_context_keys. reflexivity.
Qed.

(** *** What the deletions leave of the node maps *)

Lemma deleteAst_nodes : forall state nodeId hint state',
  deleteAst state nodeId hint = Ok state' ->
  astNodeById (nodeIdMapCollection state') =
    delete nodeId (astNodeById (nodeIdMapCollection state)) /\
  keys (contextNodeById (nodeIdMapCollection state')) =
    keys (contextNodeById (nodeIdMapCollection state)) /\
  idCounter state' = idCounter state.
Proof.
  intros state nodeId hint state'. unfold deleteAst.
  destruct (get nodeId _); [|discriminate]. intros [= <-].
  cbn [nodeIdMapCollection astNodeById contextNodeById idCounter].
  rewrite relink_ast, relink_context_keys. repeat split.
Qed.

Lemma deleteContext_nodes : forall state nodeId state' current,
  ParseContext.deleteContext state nodeId = Ok (state', current) ->
  astNodeById (nodeIdMapCollection state') =
    astNodeById (nodeIdMapCollection state) /\
  keys (contextNodeById (nodeIdMapCollection state')) =
    keys (delete nodeId (contextNodeById (nodeIdMapCollection state))) /\
  idCounter state' = idCounter state.
Proof.
  intros state nodeId state' current. unfold ParseContext.deleteContext, rewire.
  destruct (get nodeId _); [|discriminate]. intros [= <- _].
  cbn [nodeIdMapCollection astNodeById contextNodeById idCounter].
  rewrite relink_ast, !keys_delete, relink_context_keys. repeat split.
Qed.

Lemma deleteNewAstNodes_nodes : forall nodeIds state backupIdCounter state',
  deleteNewAstNodes state backupIdCounter nodeIds = Ok state' ->
  astNodeById (nodeIdMapCollection state') =
    deleteAll nodeIds (astNodeById (nodeIdMapCollection state)) /\
  keys (contextNodeById (nodeIdMapCollection state')) =
    keys (contextNodeById (nodeIdMapCollection state)) /\
  idCounter state' = idCounter state.
Proof.
  induction nodeIds as [|nodeId nodeIds IH]; intros state c state'; simpl.
  - intros [= <-]. repeat split.
  - destruct (deleteAst state nodeId _) as [state1|] eqn:Hdel; [|discriminate].
    simpl. intros Hrest. destruct (IH _ _ _ Hrest) as (Hast & Hctx & Hcounter).
    destruct (deleteAst_nodes _ _ _ _ Hdel) as (Hast1 & Hctx1 & Hcounter1).
    rewrite Hast, Hctx, Hcounter, Hast1, Hctx1, Hcounter1. repeat split.
Qed.

Lemma deleteNewContextNodes_nodes : forall nodeIds state state',
  deleteNewContextNodes state nodeIds = Ok state' ->
  astNodeById (nodeIdMapCollection state') =
    astNodeById (nodeIdMapCollection state) /\
  keys (contextNodeById (nodeIdMapCollection state')) =
    keys (deleteAll nodeIds (contextNodeById (nodeIdMapCollection state))) /\
  idCounter state' = idCounter state.
Proof.
  induction nodeIds as [|nodeId nodeIds IH]; intros state state'; simpl.
  - intros [= <-]. repeat split.
  - destruct (ParseContext.deleteContext state nodeId) as [[state1 current]|] eqn:Hdel; [|discriminate].
    simpl. intros Hrest. destruct (IH _ _ Hrest) as (Hast & Hctx & Hcounter).
    destruct (deleteContext_nodes _ _ _ _ Hdel) as (Hast1 & Hctx1 & Hcounter1).
    rewrite Hast, Hctx, Hcounter, Hast1, Hcounter1. repeat split.
    rewrite !keys_deleteAll, Hctx1. reflexivity.
Qed.

Lemma deleteAll_filter : forall (V : Type) nodeIds (m : NumMap.t V),
  NumMap.deleteAll nodeIds m =
  filter (fun kv => negb (existsb (Nat.eqb (fst kv)) nodeIds)) m.
Proof.
  intros V. unfold NumMap.deleteAll.
  induction nodeIds as [|nodeId nodeIds IH]; intros m; simpl.
  - induction m as [|kv m IHm]; simpl; [reflexivity|]. f_equal. exact IHm.
  - rewrite IH. unfold NumMap.delete.
    induction m as [|kv m IHm]; simpl; [reflexivity|].
    destruct (Nat.eqb (fst kv) nodeId); simpl; [exact IHm|].
    destruct (existsb (Nat.eqb (fst kv)) nodeIds); simpl; [exact IHm|].
    f_equal. exact IHm.
Qed.

Lemma insertByNumber_In : forall x y sorted,
  In x (insertByNumber y sorted) <-> x = y \/ In x sorted.
Proof.
  induction sorted as [|z sorted IH]; simpl.
  - intuition.
  - destruct (Nat.leb y z); simpl; [intuition|]. rewrite IH. intuition.
Qed.

Lemma sortByNumber_In : forall x ids, In x (sortByNumber ids) <-> In x ids.
Proof.
  induction ids as [|y ids IH]; simpl; [tauto|].
  rewrite insertByNumber_In, IH. intuition.
Qed.

Lemma In_idsPast : forall threshold nodeIds x,
  In x (idsPast threshold nodeIds) <-> In x nodeIds /\ threshold < x.
Proof.
  intros threshold nodeIds x. unfold idsPast.
  rewrite <- in_rev, sortByNumber_In, filter_In, Nat.ltb_lt. reflexivity.
Qed.

(** Deleting the keys past the threshold, in any order, keeps the entries at
    or below it. *)
Lemma deleteAll_past_threshold : forall (V : Type) (m : NumMap.t V) threshold,
  NumMap.deleteAll (idsPast threshold (NumMap.keys m)) m =
  filter (fun kv => Nat.leb (fst kv) threshold) m.
Proof.
  intros V m threshold. rewrite deleteAll_filter. apply filter_ext_in.
  intros kv Hin.
  destruct (Nat.leb_spec (fst kv) threshold) as [Hle|Hgt].
  - apply Bool.negb_true_iff. apply Bool.not_true_iff_false. intros Hex.
    apply existsb_eqb, In_idsPast in Hex. lia.
  - apply Bool.negb_false_iff. apply existsb_eqb, In_idsPast.
    split; [apply in_map; exact Hin|exact Hgt].
Qed.

Lemma keys_filter : forall (V : Type) (keep : nat -> bool) (m : NumMap.t V),
  keys (filter (fun kv => keep (fst kv)) m) = filter keep (keys m).
Proof.
  intros V keep. unfold keys. induction m as [|kv m IH]; simpl; [reflexivity|].
  destruct (keep (fst kv)); simpl; rewrite IH; reflexivity.
Qed.

(** What the rollback does to the node maps, whatever the state: of the
    finished and of the open nodes, exactly those with an id at or below the
    backup's id counter are left, the finished ones unchanged. *)
Lemma applyFastStateBackup_nodes : forall state backup restored,
  applyFastStateBackup state backup = Ok restored ->
  let collection := nodeIdMapCollection (contextState state) in
  let collection' := nodeIdMapCollection (contextState restored) in
  astNodeById collection' =
    filter (fun kv => Nat.leb (fst kv) (contextStateIdCounter backup))
           (astNodeById collection) /\
  keys (contextNodeById collection') =
    filter (fun nodeId => Nat.leb nodeId (contextStateIdCounter backup))
           (keys (contextNodeById collection)) /\
  idCounter (contextState restored) = contextStateIdCounter backup.
Proof.
  intros state backup restored. unfold applyFastStateBackup, bindRes.
  fold (idsPast (contextStateIdCounter backup)
                (keys (astNodeById (nodeIdMapCollection (contextState state))))).
  fold (idsPast (contextStateIdCounter backup)
                (keys (contextNodeById (nodeIdMapCollection (contextState state))))).
  destruct (deleteNewAstNodes _ _ _) as [cs1|] eqn:Hast; [|discriminate].
  destruct (deleteNewContextNodes _ _) as [cs2|] eqn:Hctx; [|discriminate].
  destruct (deleteNewAstNodes_nodes _ _ _ _ Hast) as (Ha1 & Hc1 & Hn1).
  destruct (deleteNewContextNodes_nodes _ _ _ Hctx) as (Ha2 & Hc2 & Hn2).
  cbn [nodeIdMapCollection idCounter] in Ha1, Hc1, Hn1.
  assert (Hresult :
    astNodeById (nodeIdMapCollection cs2) =
      filter (fun kv => Nat.leb (fst kv) (contextStateIdCounter backup))
             (astNodeById (nodeIdMapCollection (contextState state))) /\
    keys (contextNodeById (nodeIdMapCollection cs2)) =
      filter (fun nodeId => Nat.leb nodeId (contextStateIdCounter backup))
             (keys (contextNodeById (nodeIdMapCollection (contextState state)))) /\
    idCounter cs2 = contextStateIdCounter backup).
  { rewrite Ha2, Ha1, Hc2, Hn2, Hn1. split; [apply deleteAll_past_threshold|].
    split; [|reflexivity].
    rewrite keys_deleteAll, Hc1, <- keys_deleteAll, deleteAll_past_threshold.
    apply (keys_filter _ (fun nodeId => Nat.leb nodeId (contextStateIdCounter backup))). }
  destruct (maybeContextNodeId backup) as [[|n]|].
  - intros [= <-]. exact Hresult.
  - destruct (NumMap.get _ _); [|discriminate]. intros [= <-]. exact Hresult.
  - intros [= <-]. exact Hresult.
Qed.

(** *** The deletion loops of a rollback *)

Lemma deleteNewAstNodes_keepsBackup : forall threshold c0 nodeIds state,
  NoDup nodeIds ->
  (forall n, In n nodeIds ->
     threshold < n /\ get n (astNodeById (nodeIdMapCollection state)) <> None) ->
  keepsBackup threshold c0 (nodeIdMapCollection state) ->
  exists state',
    deleteNewAstNodes state threshold nodeIds = Ok state' /\
    keepsBackup threshold c0 (nodeIdMapCollection state').
Proof.
  intros T c0. induction nodeIds as [|n ids IH]; intros state Hnd Hids Hkeeps.
  - exists state. split; [reflexivity|exact Hkeeps].
  - inversion Hnd as [|? ? Hnin Hnd']; subst.
    destruct (Hids n (or_introl eq_refl)) as [Hn Hget].
    cbn [deleteNewAstNodes].
    match goal with
    | |- context [deleteAst state n ?hint] =>
        destruct (deleteAst_keepsBackup T c0 state n hint Hkeeps Hn Hget)
          as (state1 & Hdel & Hkeeps1 & Hast1 & _)
    end.
    rewrite Hdel. cbn [bindRes]. apply (IH state1 Hnd'); [|exact Hkeeps1].
    intros n' Hn'. destruct (Hids n' (or_intror Hn')) as [HTn' Hget'].
    split; [exact HTn'|]. rewrite Hast1, get_delete.
    destruct (Nat.eqb_spec n n') as [->|Hne]; [contradiction|exact Hget'].
Qed.

Lemma deleteNewContextNodes_keepsBackup : forall threshold c0 nodeIds state,
  NoDup nodeIds ->
  (forall n, In n nodeIds ->
     threshold < n /\ get n (contextNodeById (nodeIdMapCollection state)) <> None) ->
  keepsBackup threshold c0 (nodeIdMapCollection state) ->
  exists state',
    deleteNewContextNodes state nodeIds = Ok state' /\
    keepsBackup threshold c0 (nodeIdMapCollection state').
Proof.
  intros T c0. induction nodeIds as [|n ids IH]; intros state Hnd Hids Hkeeps.
  - exists state. split; [reflexivity|exact Hkeeps].
  - inversion Hnd as [|? ? Hnin Hnd']; subst.
    destruct (Hids n (or_introl eq_refl)) as [Hn Hget].
    cbn [deleteNewContextNodes].
    destruct (deleteContext_keepsBackup T c0 state n Hkeeps Hn Hget)
      as (state1 & current & Hdel & Hkeeps1 & _ & Hkeys1 & _).
    rewrite Hdel. cbn [bindRes fst]. apply (IH state1 Hnd'); [|exact Hkeeps1].
    intros n' Hn'. destruct (Hids n' (or_intror Hn')) as [HTn' Hget'].
    split; [exact HTn'|]. apply get_keys. rewrite Hkeys1. apply get_keys.
    rewrite get_delete.
    destruct (Nat.eqb_spec n n') as [->|Hne]; [contradiction|exact Hget'].
Qed.

(** *** The order of the deletions *)

Lemma insertByNumber_sorted : forall x sorted,
  StronglySorted le sorted -> StronglySorted le (insertByNumber x sorted).
Proof.
  induction sorted as [|y sorted IH]; intros Hsorted; simpl.
  - constructor; constructor.
  - inversion Hsorted as [|? ? Htail Hall]; subst.
    destruct (Nat.leb_spec x y) as [Hle|Hgt].
    + constructor; [exact Hsorted|]. constructor; [exact Hle|].
      apply (Forall_impl _ (fun z (Hz : y <= z) => Nat.le_trans _ _ _ Hle Hz) Hall).
    + constructor; [exact (IH Htail)|]. apply Forall_forall. intros z Hz.
      apply insertByNumber_In in Hz. destruct Hz as [->|Hz]; [lia|].
      rewrite Forall_forall in Hall. exact (Hall z Hz).
Qed.

Lemma sortByNumber_sorted : forall ids, StronglySorted le (sortByNumber ids).
Proof.
  induction ids as [|x ids IH]; simpl; [constructor|].
  apply insertByNumber_sorted. exact IH.
Qed.

Lemma NoDup_insertByNumber : forall x sorted,
  ~ In x sorted -> NoDup sorted -> NoDup (insertByNumber x sorted).
Proof.
  induction sorted as [|y sorted IH]; intros Hnin Hnd; simpl.
  - constructor; [intros []|constructor].
  - destruct (Nat.leb x y); [constructor; assumption|].
    inversion Hnd as [|? ? Hy Hnd']; subst. constructor.
    + rewrite insertByNumber_In. intros [->|Hin]; [|contradiction].
      apply Hnin. left. reflexivity.
    + apply IH; [|exact Hnd']. intros Hin. apply Hnin. right. exact Hin.
Qed.

Lemma NoDup_sortByNumber : forall ids, NoDup ids -> NoDup (sortByNumber ids).
Proof.
  induction ids as [|x ids IH]; intros Hnd; simpl; [constructor|].
  inversion Hnd as [|? ? Hx Hnd']; subst.
  apply NoDup_insertByNumber; [|exact (IH Hnd')].
  rewrite sortByNumber_In. exact Hx.
Qed.

Lemma sorted_snoc : forall (R : nat -> nat -> Prop) ids x,
  StronglySorted R ids -> Forall (fun y => R y x) ids ->
  StronglySorted R (ids ++ [x]).
Proof.
  induction ids as [|y ids IH]; intros x Hsorted Hall; simpl.
  - constructor; constructor.
  - inversion Hsorted as [|? ? Htail Hy]; subst.
    inversion Hall as [|? ? Hyx Hall']; subst.
    constructor; [exact (IH x Htail Hall')|].
    apply Forall_app. split; [exact Hy|]. constructor; [exact Hyx|constructor].
Qed.

Lemma rev_descending : forall ids,
  StronglySorted le ids -> NoDup ids ->
  StronglySorted (fun earlier later => later < earlier) (rev ids).
Proof.
  induction ids as [|x ids IH]; intros Hsorted Hnd; simpl; [constructor|].
  inversion Hsorted as [|? ? Htail Hall]; subst.
  inversion Hnd as [|? ? Hx Hnd']; subst.
  apply sorted_snoc; [exact (IH Htail Hnd')|].
  apply Forall_forall. intros y Hy. apply in_rev in Hy.
  rewrite Forall_forall in Hall. specialize (Hall y Hy).
  assert (y <> x) by (intros ->; contradiction). lia.
Qed.

Lemma idsPast_descending : forall threshold nodeIds,
  NoDup nodeIds ->
  StronglySorted (fun earlier later => later < earlier) (idsPast threshold nodeIds) /\
  NoDup (idsPast threshold nodeIds).
Proof.
  intros threshold nodeIds Hnd. unfold idsPast.
  assert (Hsorted : NoDup (sortByNumber
            (filter (fun nodeId => Nat.ltb threshold nodeId) nodeIds))).
  { apply NoDup_sortByNumber, NoDup_filter. exact Hnd. }
  split.
  - apply rev_descending; [apply sortByNumber_sorted|exact Hsorted].
  - apply NoDup_rev. exact Hsorted.
Qed.

(** *** What a read keeps of the backup *)

Lemma keepsBackup_at_backup : forall contextState,
  allocated contextState ->
  keepsBackup (idCounter contextState) (nodeIdMapCollection contextState)
              (nodeIdMapCollection contextState).
Proof.
  intros cs ((Hast & Hctx & Hparent & Hchildren & Hlists) & _).
  refine (conj _ (conj _ (conj _ (conj _ (conj _ (conj _ (conj _ _))))))).
  - intros p x Hp Hx. exfalso. unfold childIdsOf in Hx.
    destruct (get p (childIdsById (nodeIdMapCollection cs))) eqn:Hget; [|destruct Hx].
    assert (p <= idCounter cs) by (apply Hchildren; rewrite Hget; discriminate). lia.
  - intros q x Hx HTx. specialize (Hlists q x Hx). lia.
  - intros k Hk Hget. specialize (Hparent k Hget). lia.
  - intros k Hk Hget. specialize (Hchildren k Hget). lia.
  - reflexivity.
  - reflexivity.
  - reflexivity.
  - intros p _. apply forallb_filter_id. apply forallb_forall. intros x Hx.
    apply Nat.leb_le. exact (Hlists p x Hx).
Qed.

(** A collection grown from one that keeps the backup keeps it. *)
Lemma keepsBackup_grown : forall threshold c0 collection collection',
  keepsBackup threshold c0 collection ->
  (forall q x, In x (childIdsOf collection' q) ->
     In x (childIdsOf collection q) \/
     (threshold < x /\ live collection' x /\ get x (parentIdById collection') = Some q)) ->
  (forall q x, In x (childIdsOf collection q) ->
     get x (parentIdById collection') = get x (parentIdById collection)) ->
  (forall k, live collection k -> live collection' k) ->
  (forall k, get k (parentIdById collection') <> None ->
     get k (parentIdById collection) <> None \/ live collection' k) ->
  (forall k, get k (childIdsById collection') <> None ->
     get k (childIdsById collection) <> None \/ live collection' k) ->
  (forall k, k <= threshold ->
     get k (astNodeById collection') = get k (astNodeById collection) /\
     option_map contextIdentity (get k (contextNodeById collection')) =
       option_map contextIdentity (get k (contextNodeById collection)) /\
     get k (parentIdById collection') = get k (parentIdById collection) /\
     filter (fun x => Nat.leb x threshold) (childIdsOf collection' k) =
       filter (fun x => Nat.leb x threshold) (childIdsOf collection k)) ->
  keepsBackup threshold c0 collection'.
Proof.
  intros T c0 c c' (R2 & R3 & R4 & R5 & E1 & E2 & E3 & E4) H1 H2 H3 H4 H5 H6.
  refine (conj _ (conj _ (conj _ (conj _ (conj _ (conj _ (conj _ _))))))).
  - intros q x Hq Hx. destruct (H1 q x Hx) as [Hold|(HTx & _)];
      [exact (R2 q x Hq Hold)|exact HTx].
  - intros q x Hx HTx. destruct (H1 q x Hx) as [Hold|(_ & Hlive & Hparent)].
    + destruct (R3 q x Hold HTx) as [Hlive Hparent].
      split; [exact (H3 x Hlive)|]. rewrite (H2 q x Hold). exact Hparent.
    + split; assumption.
  - intros k Hk Hget. destruct (H4 k Hget) as [Hold|Hlive];
      [exact (H3 k (R4 k Hk Hold))|exact Hlive].
  - intros k Hk Hget. destruct (H5 k Hget) as [Hold|Hlive];
      [exact (H3 k (R5 k Hk Hold))|exact Hlive].
  - intros k Hk. rewrite (proj1 (H6 k Hk)). exact (E1 k Hk).
  - intros k Hk. rewrite (proj1 (proj2 (H6 k Hk))). exact (E2 k Hk).
  - intros k Hk. rewrite (proj1 (proj2 (proj2 (H6 k Hk)))). exact (E3 k Hk).
  - intros k Hk. rewrite (proj2 (proj2 (proj2 (H6 k Hk)))). exact (E4 k Hk).
Qed.

Lemma get_not_none : forall (V : Type) k (m : NumMap.t V) v,
  get k m = Some v -> get k m <> None.
Proof.
  intros V k m v H. rewrite H. discriminate.
Qed.

(** Starting a context under an open parent. *)
Lemma started_under : forall threshold c0 contextState parentId parent newNode advanced,
  let collection := nodeIdMapCollection contextState in
  let nodeId := S (idCounter contextState) in
  keepsBackup threshold c0 collection ->
  allocated contextState ->
  threshold <= idCounter contextState ->
  get parentId (contextNodeById collection) = Some parent ->
  contextId newNode = nodeId ->
  contextId advanced = parentId ->
  contextIdentity advanced = contextIdentity parent ->
  forall leaves,
  let collection' :=
    mkCollection (astNodeById collection)
                 (set nodeId newNode (set parentId advanced (contextNodeById collection)))
                 (set nodeId parentId (parentIdById collection))
                 (set parentId (childIdsOf collection parentId ++ [nodeId])
                      (childIdsById collection)) in
  keepsBackup threshold c0 collection' /\
  allocated (mkState collection' nodeId leaves).
Proof.
  intros T c0 cs p parent newNode advanced c n Hkeeps
         ((Wast & Wctx & Wparent & Wchildren & Wlists) & Hnda & Hndc & Hagree)
         HT Hparent HnewId HadvId Hadvanced leaves c'.
  assert (Hp : p <= idCounter cs) by exact (Wctx p (get_not_none _ _ _ _ Hparent)).
  assert (Hlists : forall q,
            childIdsOf c' q =
            if Nat.eqb p q then childIdsOf c p ++ [n] else childIdsOf c q).
  { intros q. unfold childIdsOf at 1. subst c'. cbn [childIdsById].
    rewrite get_set. destruct (Nat.eqb_spec p q) as [->|]; reflexivity. }
  assert (Hlive : forall k, live c k -> live c' k).
  { intros k [H|H]; [left; exact H|right]. subst c'. cbn [contextNodeById].
    rewrite !get_set. destruct (Nat.eqb n k); [discriminate|].
    destruct (Nat.eqb p k); [discriminate|exact H]. }
  assert (Hliven : live c' n).
  { right. subst c'. cbn [contextNodeById]. rewrite get_set, Nat.eqb_refl. discriminate. }
  assert (Hlivep : live c' p).
  { apply Hlive. right. exact (get_not_none _ _ _ _ Hparent). }
  split.
  - apply (keepsBackup_grown T c0 c c' Hkeeps).
    + intros q x Hx. rewrite Hlists in Hx.
      destruct (Nat.eqb_spec p q) as [->|Hne]; [|left; exact Hx].
      apply in_app_iff in Hx. destruct Hx as [Hx|[<-|[]]]; [left; exact Hx|].
      right. split; [subst n; lia|]. split; [exact Hliven|].
      subst c'. cbn [parentIdById]. rewrite get_set, Nat.eqb_refl. reflexivity.
    + intros q x Hx. subst c'. cbn [parentIdById]. rewrite get_set.
      destruct (Nat.eqb_spec n x) as [<-|]; [|reflexivity].
      specialize (Wlists q n Hx). subst n. lia.
    + exact Hlive.
    + intros k. subst c'. cbn [parentIdById]. rewrite get_set.
      destruct (Nat.eqb_spec n k) as [<-|]; [intros _; right; exact Hliven|].
      intros H. left. exact H.
    + intros k. subst c'. cbn [childIdsById]. rewrite get_set.
      destruct (Nat.eqb_spec p k) as [<-|]; [intros _; right; exact Hlivep|].
      intros H. left. exact H.
    + intros k Hk. assert (Hnk : Nat.eqb n k = false).
      { apply Nat.eqb_neq. subst n. lia. }
      refine (conj eq_refl (conj _ (conj _ _))).
      * subst c'. cbn [contextNodeById]. rewrite !get_set, Hnk.
        destruct (Nat.eqb_spec p k) as [<-|]; [|reflexivity].
        rewrite Hparent. simpl. f_equal. exact Hadvanced.
      * subst c'. cbn [parentIdById]. rewrite get_set, Hnk. reflexivity.
      * rewrite Hlists. destruct (Nat.eqb_spec p k) as [<-|]; [|reflexivity].
        assert (Hn : Nat.leb n T = false) by (apply Nat.leb_gt; subst n; lia).
        rewrite filter_app. cbn [filter]. rewrite Hn. apply app_nil_r.
  - cbn [allocated nodeIdMapCollection idCounter]. unfold allocated.
    cbn [nodeIdMapCollection idCounter].
    refine (conj (conj _ (conj _ (conj _ (conj _ _)))) (conj Hnda (conj _ _))).
    + intros k Hk. specialize (Wast k Hk). lia.
    + intros k. subst c'. cbn [contextNodeById]. rewrite !get_set.
      destruct (Nat.eqb_spec n k) as [<-|]; [intros _; lia|].
      destruct (Nat.eqb_spec p k) as [<-|]; [intros _; lia|].
      intros Hk. specialize (Wctx k Hk). lia.
    + intros k. subst c'. cbn [parentIdById]. rewrite get_set.
      destruct (Nat.eqb_spec n k) as [<-|]; [intros _; lia|].
      intros Hk. specialize (Wparent k Hk). lia.
    + intros k. subst c'. cbn [childIdsById]. rewrite get_set.
      destruct (Nat.eqb_spec p k) as [<-|]; [intros _; lia|].
      intros Hk. specialize (Wchildren k Hk). lia.
    + intros k x Hx. rewrite Hlists in Hx.
      destruct (Nat.eqb p k).
      * apply in_app_iff in Hx. destruct Hx as [Hx|[<-|[]]]; [|lia].
        specialize (Wlists p x Hx). lia.
      * specialize (Wlists k x Hx). lia.
    + subst c'. cbn [contextNodeById]. apply NoDup_keys_after_set, NoDup_keys_after_set. exact Hndc.
    + intros k node. subst c'. cbn [contextNodeById]. rewrite !get_set.
      destruct (Nat.eqb_spec n k) as [<-|]; [intros [= <-]; exact HnewId|].
      destruct (Nat.eqb_spec p k) as [<-|]; [intros [= <-]; exact HadvId|].
      apply Hagree.
Qed.

(** Starting a context without an open parent. *)
Lemma started_root : forall threshold c0 contextState newNode,
  let collection := nodeIdMapCollection contextState in
  let nodeId := S (idCounter contextState) in
  keepsBackup threshold c0 collection ->
  allocated contextState ->
  threshold <= idCounter contextState ->
  contextId newNode = nodeId ->
  forall leaves,
  let collection' :=
    mkCollection (astNodeById collection)
                 (set nodeId newNode (contextNodeById collection))
                 (parentIdById collection)
                 (childIdsById collection) in
  keepsBackup threshold c0 collection' /\
  allocated (mkState collection' nodeId leaves).
Proof.
  intros T c0 cs newNode c n Hkeeps
         ((Wast & Wctx & Wparent & Wchildren & Wlists) & Hnda & Hndc & Hagree)
         HT HnewId leaves c'.
  assert (Hlive : forall k, live c k -> live c' k).
  { intros k [H|H]; [left; exact H|right]. subst c'. cbn [contextNodeById].
    rewrite get_set. destruct (Nat.eqb n k); [discriminate|exact H]. }
  split.
  - apply (keepsBackup_grown T c0 c c' Hkeeps).
    + intros q x Hx. left. exact Hx.
    + reflexivity.
    + exact Hlive.
    + intros k H. left. exact H.
    + intros k H. left. exact H.
    + intros k Hk. refine (conj eq_refl (conj _ (conj eq_refl eq_refl))).
      subst c'. cbn [contextNodeById]. rewrite get_set.
      destruct (Nat.eqb_spec n k) as [<-|]; [subst n; lia|reflexivity].
  - unfold allocated. cbn [nodeIdMapCollection idCounter].
    refine (conj (conj _ (conj _ (conj _ (conj _ _)))) (conj Hnda (conj _ _))).
    + intros k Hk. specialize (Wast k Hk). lia.
    + intros k. subst c'. cbn [contextNodeById]. rewrite get_set.
      destruct (Nat.eqb_spec n k) as [<-|]; [intros _; lia|].
      intros Hk. specialize (Wctx k Hk). lia.
    + intros k Hk. specialize (Wparent k Hk). lia.
    + intros k Hk. specialize (Wchildren k Hk). lia.
    + intros k x Hx. specialize (Wlists k x Hx). lia.
    + subst c'. cbn [contextNodeById]. apply NoDup_keys_after_set. exact Hndc.
    + intros k node. subst c'. cbn [contextNodeById]. rewrite get_set.
      destruct (Nat.eqb_spec n k) as [<-|]; [intros [= <-]; exact HnewId|].
      apply Hagree.
Qed.

Lemma startContext_keepsBackup :
  forall threshold c0 contextState nodeKind tokenIndexStart maybeParentId,
    keepsBackup threshold c0 (nodeIdMapCollection contextState) ->
    allocated contextState ->
    threshold <= idCounter contextState ->
    let contextState' :=
      fst (ParseContext.startContext contextState nodeKind tokenIndexStart maybeParentId) in
    keepsBackup threshold c0 (nodeIdMapCollection contextState') /\
    allocated contextState' /\
    threshold <= idCounter contextState'.
Proof.
  intros T c0 cs nodeKind tis maybeParentId Hkeeps Hallocated HT.
  pose proof Hallocated as (_ & _ & _ & Hagree).
  unfold ParseContext.startContext.
  destruct maybeParentId as [q|];
    [destruct (get q (contextNodeById (nodeIdMapCollection cs))) as [parent|] eqn:Hparent|].
  - cbn [fst nodeIdMapCollection idCounter option_map].
    rewrite (Hagree q parent Hparent).
    assert (Hidentity :
      contextIdentity
        (mkContextNode q (contextKind parent) (ParseContext.tokenIndexStart parent)
                       (contextAttributeIndex parent) (S (attributeCounter parent))) =
      contextIdentity parent).
    { unfold contextIdentity. cbn. rewrite (Hagree q parent Hparent). reflexivity. }
    destruct (started_under T c0 cs q parent
                (mkContextNode (S (idCounter cs)) nodeKind tis
                               (Some (attributeCounter parent)) 0)
                (mkContextNode q (contextKind parent) (ParseContext.tokenIndexStart parent)
                               (contextAttributeIndex parent) (S (attributeCounter parent)))
                Hkeeps Hallocated HT Hparent eq_refl eq_refl Hidentity (leafNodeIds cs))
      as [Hk Ha].
    split; [exact Hk|]. split; [exact Ha|lia].
  - cbn [fst nodeIdMapCollection idCounter option_map].
    destruct (started_root T c0 cs
                (mkContextNode (S (idCounter cs)) nodeKind tis None 0)
                Hkeeps Hallocated HT eq_refl (leafNodeIds cs)) as [Hk Ha].
    split; [exact Hk|]. split; [exact Ha|lia].
  - cbn [fst nodeIdMapCollection idCounter option_map].
    destruct (started_root T c0 cs
                (mkContextNode (S (idCounter cs)) nodeKind tis None 0)
                Hkeeps Hallocated HT eq_refl (leafNodeIds cs)) as [Hk Ha].
    split; [exact Hk|]. split; [exact Ha|lia].
Qed.

Lemma endContext_keepsBackup :
  forall threshold c0 contextState contextNodeId astNode isLeaf contextState' current,
    keepsBackup threshold c0 (nodeIdMapCollection contextState) ->
    allocated contextState ->
    threshold < contextNodeId ->
    ParseContext.endContext contextState contextNodeId astNode isLeaf
      = Ok (contextState', current) ->
    keepsBackup threshold c0 (nodeIdMapCollection contextState') /\
    allocated contextState' /\
    idCounter contextState' = idCounter contextState.
Proof.
  intros T c0 cs n astNode isLeaf cs' current Hkeeps
         ((Wast & Wctx & Wparent & Wchildren & Wlists) & Hnda & Hndc & Hagree) Hn.
  unfold ParseContext.endContext.
  destruct (get n (contextNodeById (nodeIdMapCollection cs))) as [contextNode|] eqn:Hopen;
    [|discriminate].
  destruct (negb (Nat.eqb (id astNode) n)); [discriminate|]. intros [= <- _].
  cbn [nodeIdMapCollection idCounter].
  set (c := nodeIdMapCollection cs) in *.
  assert (Hlive : forall k, live c k ->
            live (mkCollection (set n astNode (astNodeById c))
                               (delete n (contextNodeById c))
                               (parentIdById c) (childIdsById c)) k).
  { intros k [H|H]; unfold live; cbn [astNodeById contextNodeById];
      rewrite get_set, get_delete; destruct (Nat.eqb n k);
      try (left; discriminate); [left; exact H|right; exact H]. }
  refine (conj _ (conj _ eq_refl)).
  - apply (keepsBackup_grown T c0 c _ Hkeeps).
    + intros q x Hx. left. exact Hx.
    + reflexivity.
    + exact Hlive.
    + intros k H. left. exact H.
    + intros k H. left. exact H.
    + intros k Hk. assert (Hnk : Nat.eqb n k = false) by (apply Nat.eqb_neq; lia).
      cbn [astNodeById contextNodeById parentIdById]. rewrite get_set, get_delete, Hnk.
      repeat split.
  - unfold allocated. cbn [nodeIdMapCollection idCounter].
    refine (conj (conj _ (conj _ (conj Wparent (conj Wchildren Wlists)))) (conj _ (conj _ _))).
    + intros k. cbn [astNodeById]. rewrite get_set.
      destruct (Nat.eqb_spec n k) as [<-|];
        [intros _; exact (Wctx n (get_not_none _ _ _ _ Hopen))|apply Wast].
    + intros k. cbn [contextNodeById]. rewrite get_delete.
      destruct (Nat.eqb n k); [intros H; contradiction|apply Wctx].
    + cbn [astNodeById]. apply NoDup_keys_after_set. exact Hnda.
    + cbn [contextNodeById]. apply NoDup_keys_after_delete. exact Hndc.
    + intros k node. cbn [contextNodeById]. rewrite get_delete.
      destruct (Nat.eqb n k); [discriminate|apply Hagree].
Qed.

Lemma deleteContext_allocated : forall contextState nodeId contextState' current,
  allocated contextState ->
  ParseContext.deleteContext contextState nodeId = Ok (contextState', current) ->
  allocated contextState'.
Proof.
  intros cs n cs' current
         ((Wast & Wctx & Wparent & Wchildren & Wlists) & Hnda & Hndc & Hagree) Hdeleted.
  destruct (deleteContext_nodes _ _ _ _ Hdeleted) as (Hast & Hkeys & Hcounter).
  revert Hdeleted. unfold ParseContext.deleteContext, rewire.
  destruct (get n (contextNodeById (nodeIdMapCollection cs))); [|discriminate].
  intros [= Hstate _]. unfold allocated. rewrite Hcounter, Hkeys.
  refine (conj (conj _ (conj _ (conj _ (conj _ _))))
               (conj _ (conj (NoDup_keys_after_delete _ _ _ Hndc) _)));
    [intros k; rewrite Hast; apply Wast| | | | |rewrite Hast; exact Hnda|];
    subst cs'; cbn [nodeIdMapCollection contextNodeById parentIdById childIdsById].
  - intros k. rewrite get_delete. destruct (Nat.eqb n k); [intros H; contradiction|].
    intros H. apply Wctx.
    exact (proj1 (identity_none _ _ (relink_context_identity _ _ _ k)) H).
  - intros k. rewrite relink_parent. destruct (Nat.eqb n k); [intros H; contradiction|].
    destruct (existsb (Nat.eqb k) _) eqn:Hk; [|apply Wparent].
    intros _. apply existsb_eqb in Hk. exact (Wlists n k Hk).
  - intros k H. exact (Wchildren k (proj2 (relink_childIds_key _ _ _ _ H))).
  - intros k x. unfold childIdsOf at 1. cbn [childIdsById]. rewrite relink_childIds.
    destruct (Nat.eqb n k); [intros []|].
    destruct (get n (parentIdById (nodeIdMapCollection cs))) as [p|]; [|apply Wlists].
    destruct (Nat.eqb p k); [|apply Wlists].
    intros Hx. apply In_replaceId in Hx.
    destruct Hx as [[Hx _]|[Hx _]]; [exact (Wlists n x Hx)|exact (Wlists k x Hx)].
  - unfold contextIdsAgree. cbn [contextNodeById]. intros k node. rewrite get_delete.
    destruct (Nat.eqb n k); [discriminate|]. unfold relink. destruct (get n (parentIdById (nodeIdMapCollection cs))) as [p|];
      cbn [contextNodeById]; [|apply Hagree].
    unfold giveBackAttribute.
    destruct (get p (contextNodeById (nodeIdMapCollection cs))) as [parent|] eqn:Hparent;
      [|apply Hagree].
    rewrite get_set. destruct (Nat.eqb_spec p k) as [<-|]; [|apply Hagree].
    intros [= <-]. exact (Hagree p parent Hparent).
Qed.

(** A read keeps what the backup needs, and allocates its ids past the
    backup's counter. *)
Lemma Reads_keepsBackup : forall state0 state1,
  allocated (contextState state0) ->
  Reads (idCounter (contextState state0)) state0 state1 ->
  keepsBackup (idCounter (contextState state0))
              (nodeIdMapCollection (contextState state0))
              (nodeIdMapCollection (contextState state1)) /\
  allocated (contextState state1) /\
  idCounter (contextState state0) <= idCounter (contextState state1).
Proof.
  intros state0 state1 Hallocated Hreads.
  induction Hreads as [|state' nodeKind _ IH|state' _ IH
                       |state' state'' _ IH Hincremented
                       |state' state'' currentId astNode isLeaf _ IH Hcurrent Hpast Hend
                       |state' state'' maybeNodeId nodeId _ IH Htarget Hpast Hdeleted].
  - split; [exact (keepsBackup_at_backup _ Hallocated)|]. split; [exact Hallocated|lia].
  - destruct IH as (Hkeeps & Halloc & Hle). unfold startContext. cbn [contextState].
    exact (startContext_keepsBackup _ _ _ nodeKind (tokenIndex state')
             (maybeCurrentContextNode state') Hkeeps Halloc Hle).
  - exact IH.
  - destruct IH as (Hkeeps & Halloc & Hle). unfold incrementAttributeCounter in Hincremented.
    destruct (maybeCurrentContextNode state') as [currentId|]; [|discriminate].
    destruct (get currentId (contextNodeById (nodeIdMapCollection (contextState state'))))
      as [current|] eqn:Hcurrent; injection Hincremented as <-;
      [|split; [exact Hkeeps|split; [exact Halloc|exact Hle]]].
    cbn [contextState nodeIdMapCollection idCounter].
    destruct Halloc as ((Wast & Wctx & Wparent & Wchildren & Wlists) & Hnda & Hndc & Hagree).
    refine (conj _ (conj _ Hle)).
    + apply (keepsBackup_grown _ _ _ _ Hkeeps).
      * intros q x Hx. left. exact Hx.
      * reflexivity.
      * intros k [H|H]; [left; exact H|right]. cbn [contextNodeById]. rewrite get_set.
        destruct (Nat.eqb currentId k); [discriminate|exact H].
      * intros k H. left. exact H.
      * intros k H. left. exact H.
      * intros k _. refine (conj eq_refl (conj _ (conj eq_refl eq_refl))).
        cbn [contextNodeById]. rewrite get_set.
        destruct (Nat.eqb_spec currentId k) as [<-|]; [|reflexivity].
        rewrite Hcurrent. reflexivity.
    + unfold allocated. cbn [nodeIdMapCollection idCounter].
      refine (conj (conj Wast (conj _ (conj Wparent (conj Wchildren Wlists))))
                   (conj Hnda (conj (NoDup_keys_after_set _ _ _ _ Hndc) _))).
      * intros k. cbn [contextNodeById]. rewrite get_set.
        destruct (Nat.eqb_spec currentId k) as [<-|]; [|apply Wctx].
        intros _. exact (Wctx currentId (get_not_none _ _ _ _ Hcurrent)).
      * intros k node. cbn [contextNodeById]. rewrite get_set.
        destruct (Nat.eqb_spec currentId k) as [<-|]; [|apply Hagree].
        intros [= <-]. exact (Hagree currentId current Hcurrent).
  - destruct IH as (Hkeeps & Halloc & Hle). unfold endContext in Hend.
    rewrite Hcurrent in Hend.
    destruct (ParseContext.endContext (contextState state') currentId astNode isLeaf)
      as [[contextState' current]|] eqn:Hended; [|discriminate].
    cbn [bindRes fst snd] in Hend. injection Hend as <-. cbn [contextState].
    destruct (endContext_keepsBackup _ _ _ _ _ _ _ _ Hkeeps Halloc Hpast Hended)
      as (Hkeeps' & Halloc' & Hcounter).
    split; [exact Hkeeps'|]. split; [exact Halloc'|]. rewrite Hcounter. exact Hle.
  - destruct IH as (Hkeeps & Halloc & Hle). unfold IParserStateUtils.deleteContext in Hdeleted.
    assert (Hid : match maybeNodeId with
                  | Some nodeId' => Ok nodeId'
                  | None =>
                      match maybeCurrentContextNode state' with
                      | Some currentId => Ok currentId
                      | None =>
                          Throw (InvariantError "can't delete a context if one doesn't exist")
                      end
                  end = Ok nodeId).
    { unfold contextToDelete in Htarget. destruct maybeNodeId as [nodeId'|].
      - injection Htarget as <-. reflexivity.
      - rewrite Htarget. reflexivity. }
    rewrite Hid in Hdeleted. cbn [bindRes] in Hdeleted.
    destruct (ParseContext.deleteContext (contextState state') nodeId)
      as [[contextState' current]|] eqn:Hgone; [|discriminate].
    cbn [bindRes fst snd] in Hdeleted. injection Hdeleted as <-. cbn [contextState].
    assert (Hopen : get nodeId (contextNodeById (nodeIdMapCollection (contextState state')))
                    <> None).
    { intros Hnone. unfold ParseContext.deleteContext in Hgone.
      rewrite Hnone in Hgone. discriminate. }
    destruct (deleteContext_keepsBackup _ _ _ _ Hkeeps Hpast Hopen)
      as (contextState'' & current'' & Hgone' & Hkeeps' & _ & _ & Hcounter).
    rewrite Hgone in Hgone'. injection Hgone' as <- <-.
    split; [exact Hkeeps'|]. split; [exact (deleteContext_allocated _ _ _ _ Halloc Hgone)|].
    rewrite Hcounter. exact Hle.
Qed.

(** With nothing left past the threshold, what the backup needs is the whole
    id map. *)
Lemma keepsBackup_sameIdMap : forall threshold c0 collection,
  keepsBackup threshold c0 collection ->
  idsWithin threshold c0 ->
  (forall k, threshold < k -> get k (astNodeById collection) = None) ->
  (forall k, threshold < k -> get k (contextNodeById collection) = None) ->
  sameIdMap collection c0.
Proof.
  intros T c0 c (R2 & R3 & R4 & R5 & E1 & E2 & E3 & E4)
         (Wast & Wctx & Wparent & Wchildren & Wlists) Hast Hctx.
  assert (Hdead : forall k, T < k -> ~ live c k).
  { intros k Hk [H|H]; apply H; [exact (Hast k Hk)|exact (Hctx k Hk)]. }
  assert (Hnone : forall (V : Type) (m : NumMap.t V) k,
            (get k m <> None -> k <= T) -> T < k -> get k m = None).
  { intros V m k Hbound Hk. destruct (get k m) eqn:Hget; [|reflexivity].
    assert (k <= T) by (apply Hbound; discriminate). lia. }
  refine (conj _ (conj _ (conj _ _))); intros k;
    destruct (Nat.le_gt_cases k T) as [Hk|Hk].
  - exact (E1 k Hk).
  - rewrite (Hast k Hk). symmetry. exact (Hnone _ _ k (Wast k) Hk).
  - exact (E2 k Hk).
  - rewrite (Hctx k Hk), (Hnone _ _ k (Wctx k) Hk). reflexivity.
  - exact (E3 k Hk).
  - rewrite (Hnone _ _ k (Wparent k) Hk).
    destruct (get k (parentIdById c)) eqn:Hget; [|reflexivity].
    exfalso. apply (Hdead k Hk). apply (R4 k Hk). rewrite Hget. discriminate.
  - rewrite <- (E4 k Hk). symmetry. apply forallb_filter_id. apply forallb_forall.
    intros x Hx. apply Nat.leb_le. destruct (Nat.le_gt_cases x T) as [Hle|Hgt]; [exact Hle|].
    exfalso. exact (Hdead x Hgt (proj1 (R3 k x Hx Hgt))).
  - unfold childIdsOf. rewrite (Hnone _ _ k (Wchildren k) Hk).
    destruct (get k (childIdsById c)) eqn:Hget; [|reflexivity].
    exfalso. apply (Hdead k Hk). apply (R5 k Hk). rewrite Hget. discriminate.
Qed.

Lemma get_filter_within : forall (V : Type) (m : NumMap.t V) threshold k,
  threshold < k ->
  get k (filter (fun kv => Nat.leb (fst kv) threshold) m) = None.
Proof.
  intros V m T k Hk.
  destruct (get k (filter (fun kv => Nat.leb (fst kv) T) m)) eqn:Hget; [|reflexivity].
  exfalso. assert (Hin : In k (keys (filter (fun kv => Nat.leb (fst kv) T) m))).
  { apply get_keys. rewrite Hget. discriminate. }
  rewrite (keys_filter V (fun nodeId => Nat.leb nodeId T)) in Hin.
  apply filter_In in Hin. destruct Hin as [_ Hle]. apply Nat.leb_le in Hle. lia.
Qed.

(** C1: for every parser state and the backup taken from it, after any
    read, [applyFastStateBackup] returns; it restores the token index; it
    hands the finished ids past the backup's id counter to the first
    deletion loop and then the open ones to the second, each in descending
    order; of the finished and of the open nodes exactly those with an id at
    or below the counter are left; and the id map cannot be told apart from
    the one at the backup: the same finished nodes with their payloads, the
    same open contexts, the same parents, the same children in the same
    order.  The id counter and the current context are the backup's too. *)
Theorem applyFastStateBackup_restores : forall state0 state1,
  wellFormed state0 ->
  Reads (idCounter (contextState state0)) state0 state1 ->
  let backup := fastStateBackup state0 in
  let threshold := contextStateIdCounter backup in
  let collection0 := nodeIdMapCollection (contextState state0) in
  let collection1 := nodeIdMapCollection (contextState state1) in
  let newAstNodeIds := idsPast threshold (keys (astNodeById collection1)) in
  let newContextNodeIds := idsPast threshold (keys (contextNodeById collection1)) in
  exists afterAst restored,
    applyFastStateBackup state1 backup = Ok restored /\
    tokenIndex restored = tokenIndex state0 /\
    deleteNewAstNodes
      (mkState collection1 threshold (leafNodeIds (contextState state1)))
      threshold newAstNodeIds = Ok afterAst /\
    deleteNewContextNodes afterAst newContextNodeIds = Ok (contextState restored) /\
    StronglySorted (fun earlier later => later < earlier) newAstNodeIds /\
    StronglySorted (fun earlier later => later < earlier) newContextNodeIds /\
    (forall nodeId,
       In nodeId newAstNodeIds <->
       get nodeId (astNodeById collection1) <> None /\ threshold < nodeId) /\
    (forall nodeId,
       In nodeId newContextNodeIds <->
       get nodeId (contextNodeById collection1) <> None /\ threshold < nodeId) /\
    astNodeById (nodeIdMapCollection (contextState restored)) =
      filter (fun kv => Nat.leb (fst kv) threshold) (astNodeById collection1) /\
    keys (contextNodeById (nodeIdMapCollection (contextState restored))) =
      filter (fun nodeId => Nat.leb nodeId threshold) (keys (contextNodeById collection1)) /\
    sameIdMap (nodeIdMapCollection (contextState restored)) collection0 /\
    idCounter (contextState restored) = idCounter (contextState state0) /\
    maybeCurrentContextNode restored = maybeCurrentContextNode state0.
Proof.
  intros state0 state1 [Hallocated Hcurrent] Hreads
         backup T c0 c1 newAstNodeIds newContextNodeIds.
  destruct (Reads_keepsBackup state0 state1 Hallocated Hreads)
    as (Hkeeps & (_ & Hnda & Hndc & _) & _).
  fold T c0 c1 in Hkeeps. fold c1 in Hnda, Hndc.
  destruct (idsPast_descending T _ Hnda) as [HsortedAst HndAst].
  destruct (idsPast_descending T _ Hndc) as [HsortedContext HndContext].
  fold newAstNodeIds in HsortedAst, HndAst.
  fold newContextNodeIds in HsortedContext, HndContext.
  assert (HinAst : forall nodeId,
            In nodeId newAstNodeIds <->
            get nodeId (astNodeById c1) <> None /\ T < nodeId).
  { intros nodeId. subst newAstNodeIds. rewrite In_idsPast, get_keys. reflexivity. }
  assert (HinContext : forall nodeId,
            In nodeId newContextNodeIds <->
            get nodeId (contextNodeById c1) <> None /\ T < nodeId).
  { intros nodeId. subst newContextNodeIds. rewrite In_idsPast, get_keys. reflexivity. }
  destruct (deleteNewAstNodes_keepsBackup T c0 newAstNodeIds
              (mkState c1 T (leafNodeIds (contextState state1))) HndAst)
    as (afterAst & HloopAst & HkeepsAst).
  { intros n Hn. apply HinAst in Hn. destruct Hn as [Hget HTn].
    split; [exact HTn|exact Hget]. }
  { exact Hkeeps. }
  destruct (deleteNewAstNodes_nodes _ _ _ _ HloopAst) as (_ & HkeysAst & _).
  cbn [nodeIdMapCollection] in HkeysAst.
  destruct (deleteNewContextNodes_keepsBackup T c0 newContextNodeIds afterAst HndContext)
    as (afterContext & HloopContext & HkeepsContext).
  { intros n Hn. apply HinContext in Hn. destruct Hn as [Hget HTn].
    split; [exact HTn|]. apply get_keys. rewrite HkeysAst. apply get_keys. exact Hget. }
  { exact HkeepsAst. }
  assert (Hopen : forall n, maybeCurrentContextNode state0 = Some (S n) ->
            get (S n) (contextNodeById (nodeIdMapCollection afterContext)) <> None).
  { intros n Hn. rewrite Hn in Hcurrent. destruct Hcurrent as [_ Hget].
    destruct Hallocated as ((_ & Wctx & _) & _).
    destruct HkeepsContext as (_ & _ & _ & _ & _ & E2 & _).
    apply (identity_none _ _ (E2 (S n) (Wctx (S n) Hget))). exact Hget. }
  assert (Happly :
    applyFastStateBackup state1 backup =
    Ok (mkIParserState (lexerSnapshot state1) (tokenIndex state0)
          (nth_error (tokens (lexerSnapshot state1)) (tokenIndex state0))
          (option_map Token.kind
             (nth_error (tokens (lexerSnapshot state1)) (tokenIndex state0)))
          afterContext (maybeCurrentContextNode state0))).
  { unfold applyFastStateBackup.
    change (deleteNewAstNodes
              (mkState c1 T (leafNodeIds (contextState state1))) T newAstNodeIds)
      with (deleteNewAstNodes
              (mkState (nodeIdMapCollection (contextState state1))
                       (contextStateIdCounter backup)
                       (leafNodeIds (contextState state1)))
              (contextStateIdCounter backup)
              (rev (sortByNumber
                 (filter (fun nodeId => Nat.ltb (contextStateIdCounter backup) nodeId)
                    (keys (astNodeById (nodeIdMapCollection (contextState state1))))))))
      in HloopAst.
    rewrite HloopAst. cbn [bindRes].
    change (deleteNewContextNodes afterAst newContextNodeIds)
      with (deleteNewContextNodes afterAst
              (rev (sortByNumber
                 (filter (fun nodeId => Nat.ltb (contextStateIdCounter backup) nodeId)
                    (keys (contextNodeById (nodeIdMapCollection (contextState state1))))))))
      in HloopContext.
    rewrite HloopContext. cbn [bindRes].
    subst backup. cbn [fastStateBackup maybeContextNodeId backupTokenIndex].
    destruct (maybeCurrentContextNode state0) as [[|n]|] eqn:Hpointer.
    - destruct Hcurrent as [Hzero _]. contradiction.
    - specialize (Hopen n eq_refl).
      destruct (get (S n) (contextNodeById (nodeIdMapCollection afterContext)));
        [reflexivity|contradiction].
    - reflexivity. }
  destruct (applyFastStateBackup_nodes _ _ _ Happly) as (Hast & Hctx & Hcounter).
  cbn [contextState] in Hast, Hctx, Hcounter. fold c1 T in Hast, Hctx.
  exists afterAst. eexists. split; [exact Happly|]. cbn [tokenIndex contextState
    maybeCurrentContextNode].
  refine (conj eq_refl (conj HloopAst (conj HloopContext (conj HsortedAst
           (conj HsortedContext (conj HinAst (conj HinContext (conj Hast
           (conj Hctx (conj _ (conj Hcounter eq_refl))))))))))).
  apply (keepsBackup_sameIdMap T c0 _ HkeepsContext).
  - exact (proj1 Hallocated).
  - intros k Hk. rewrite Hast. apply get_filter_within. exact Hk.
  - intros k Hk.
    destruct (get k (contextNodeById (nodeIdMapCollection afterContext))) eqn:Hget;
      [|reflexivity].
    exfalso. assert (Hin : In k (keys (contextNodeById (nodeIdMapCollection afterContext)))).
    { apply get_keys. rewrite Hget. discriminate. }
    rewrite Hctx in Hin. apply filter_In in Hin. destruct Hin as [_ Hle].
    apply Nat.leb_le in Hle. lia.
Qed.

(** The speculative read of the identifier [x], rolled back. *)
Lemma applyFastStateBackup_restores_witness :
  exists state restored,
    Rollback.afterRead = Ok state /\
    applyFastStateBackup state Rollback.backup = Ok restored /\
    tokenIndex restored = 0 /\
    sameIdMap (nodeIdMapCollection (contextState restored))
              (nodeIdMapCollection (contextState Rollback.atBackup)).
Proof.
  assert (HwellFormed : wellFormed Rollback.atBackup).
  { split; [|split; [discriminate|vm_compute; discriminate]].
    refine (conj (conj _ (conj _ (conj _ (conj _ _)))) (conj _ (conj _ _))).
    - intros nodeId H. vm_compute in H. contradiction.
    - intros [|[|nodeId]] H; vm_compute in H |- *; [lia|lia|contradiction].
    - intros nodeId H. vm_compute in H. contradiction.
    - intros nodeId H. vm_compute in H. contradiction.
    - intros nodeId childId H. vm_compute in H. contradiction.
    - vm_compute. constructor.
    - vm_compute. repeat constructor. intros [].
    - intros [|[|nodeId]] contextNode H; vm_compute in H;
        [discriminate|injection H as <-; reflexivity|discriminate]. }
  destruct Rollback.afterRead as [state|] eqn:Hread; [|vm_compute in Hread; discriminate].
  assert (Hreads : Reads (idCounter (contextState Rollback.atBackup))
                         Rollback.atBackup state).
  { apply (Reads_endContext _ _
             (Rollback.readToken (startContext Rollback.atBackup "Identifier"))
             state 2 Rollback.identifier true).
    - apply Reads_readToken, Reads_startContext, Reads_nothing.
    - reflexivity.
    - vm_compute. lia.
    - exact Hread. }
  destruct (applyFastStateBackup_restores Rollback.atBackup state HwellFormed Hreads)
    as (afterAst & restored & Happly & Hindex & _ & _ & _ & _ & _ & _ & _ & _ & Hsame & _).
  exists state, restored. split; [reflexivity|]. split; [exact Happly|].
  split; [exact Hindex|exact Hsame].
Defined.

End RollbackFacts.

(* ------------------------------------------------------------------ *)
(** ** Autocomplete *)

Module AutocompleteFacts.
Import AutocompleteKeyword.
Local Open Scope list_scope.

Lemma filterRecommendations_prefix : forall inspected positionName kind,
  In kind (filterRecommendations inspected (Some positionName)) ->
  Js.startsWith kind positionName = true.
Proof.
  intros inspected positionName kind H. simpl in H.
  apply filter_In in H. exact (proj2 H).
Qed.

Lemma dedupe_In : forall elements seen x,
  In x (dedupe seen elements) <-> In x elements /\ ~ In x seen.
Proof.
  induction elements as [|y elements IH]; intros seen x; simpl.
  - tauto.
  - destruct (existsb (String.eqb y) seen) eqn:Hseen.
    + apply existsb_exists in Hseen. destruct Hseen as (z & Hz & Heq).
      apply String.eqb_eq in Heq. subst z. rewrite IH. split.
      * intros [Hin Hnot]. tauto.
      * intros [[->|Hin] Hnot]; [contradiction|tauto].
    + assert (Hy : ~ In y seen).
      { intros Hin. apply Bool.not_true_iff_false in Hseen. apply Hseen.
        apply existsb_exists. exists y. split; [exact Hin|apply String.eqb_refl]. }
      simpl. rewrite IH. simpl. split.
      * intros [->|[Hin Hnot]]; [tauto|]. tauto.
      * intros [[->|Hin] Hnot]; [tauto|].
        destruct (string_dec y x) as [->|Hne]; [tauto|]. right. tauto.
Qed.

Lemma dedupe_NoDup : forall elements seen, NoDup (dedupe seen elements).
Proof.
  induction elements as [|y elements IH]; intros seen; simpl; [constructor|].
  destruct (existsb (String.eqb y) seen); [apply IH|].
  constructor; [|apply IH]. rewrite dedupe_In. simpl. tauto.
Qed.

Lemma concatUnique_In : forall left right x,
  In x (concatUnique left right) <-> In x left \/ In x right.
Proof.
  intros left right x. unfold concatUnique. rewrite dedupe_In, in_app_iff.
  simpl. tauto.
Qed.

Section Keywords.
Variable env : Collaborators.

(** No edge case applies to a finished leaf that is not an identifier. *)
Lemma maybeEdgeCase_none : forall state maybeTrailingToken leaf parent rest,
  ancestry (activeNode state) = leaf :: parent :: rest ->
  kind leaf = Ast ->
  nodeKind (node leaf) <> "Identifier" ->
  maybeEdgeCase env state maybeTrailingToken = Ok None.
Proof.
  intros state maybeTrailingToken leaf parent rest Hancestry Hast Hkind.
  unfold maybeEdgeCase. rewrite Hancestry, Hast.
  apply String.eqb_neq in Hkind. rewrite Hkind.
  unfold XorNodeKind_eqb. cbn [andb].
  rewrite !Bool.andb_false_r. cbn [andb]. reflexivity.
Qed.

Lemma handleConjunctions_after_unary :
  forall activeNode inspected maybeTrailingToken leaf rest,
    ancestry activeNode = leaf :: rest ->
    kind leaf = Ast ->
    isTUnaryType env leaf = true ->
    leafKind activeNode = AfterAstNode ->
    noLaterToken env activeNode maybeTrailingToken ->
    handleConjunctions env activeNode inspected maybeTrailingToken =
    Ok (concatUnique inspected ConjunctionKeywords).
Proof.
  intros activeNode inspected maybeTrailingToken leaf rest
         Hancestry Hast Hunary HleafKind Htrailing.
  unfold handleConjunctions. rewrite HleafKind, Hancestry. simpl.
  rewrite Hunary, Hast. simpl.
  destruct maybeTrailingToken as [trailingToken|]; [|reflexivity].
  destruct Htrailing as [Hin Hafter]. rewrite Hin, Hafter. reflexivity.
Qed.

(** C7 (amended): with a finished unary-type leaf (not a bare identifier)
    classified AfterAstNode and no trailing token at or after the caret, the
    result is the ancestry-derived suggestions followed by the conjunction
    keywords, duplicates removed keeping the first occurrence, and then
    filtered by the text under the caret: it contains every conjunction
    keyword that begins with that text, and all five when there is none. *)
Theorem autocompleteKeyword_conjunctions :
  forall collection leafNodeIds activeNode maybeTrailingToken leaf rest inspected,
    ancestry activeNode = leaf :: rest ->
    kind leaf = Ast ->
    isTUnaryType env leaf = true ->
    nodeKind (node leaf) <> "Identifier" ->
    leafKind activeNode = AfterAstNode ->
    noLaterToken env activeNode maybeTrailingToken ->
    match rest with
    | [] => inspected = []
    | parent :: _ =>
        traverseAncestors env
          (mkKeywordState collection leafNodeIds activeNode maybeTrailingToken
                          parent leaf 0) = Ok inspected
    end ->
    let maybePositionName := maybePositionNameOf env collection activeNode leaf in
    autocompleteKeyword env collection leafNodeIds activeNode maybeTrailingToken =
    Ok (filterRecommendations (concatUnique inspected ConjunctionKeywords)
                              maybePositionName) /\
    forall keyword, In keyword ConjunctionKeywords ->
      match maybePositionName with
      | None => True
      | Some positionName => Js.startsWith keyword positionName = true
      end ->
      In keyword (filterRecommendations (concatUnique inspected ConjunctionKeywords)
                                        maybePositionName).
Proof.
  intros collection leafNodeIds activeNode maybeTrailingToken leaf rest inspected
         Hancestry Hast Hunary Hkind HleafKind Htrailing Hwalk maybePositionName.
  split.
  - unfold autocompleteKeyword. rewrite Hancestry.
    cbn [AncestryUtils.assertGetLeaf bindRes].
    fold maybePositionName.
    destruct rest as [|parent rest].
    + subst inspected. cbn [List.length Nat.ltb Nat.leb].
      rewrite (handleConjunctions_after_unary activeNode [] maybeTrailingToken leaf []
                 Hancestry Hast Hunary HleafKind Htrailing).
      reflexivity.
    + cbn [List.length Nat.ltb Nat.leb nth_error].
      rewrite (maybeEdgeCase_none
                 (mkKeywordState collection leafNodeIds activeNode maybeTrailingToken
                                 parent leaf 0)
                 maybeTrailingToken leaf parent rest Hancestry Hast Hkind).
      cbn [bindRes]. rewrite Hwalk. cbn [bindRes].
      rewrite (handleConjunctions_after_unary activeNode inspected maybeTrailingToken
                 leaf (parent :: rest) Hancestry Hast Hunary HleafKind Htrailing).
      reflexivity.
  - intros keyword Hin Hprefix.
    assert (Hall : In keyword (concatUnique inspected ConjunctionKeywords))
      by (apply concatUnique_In; right; exact Hin).
    destruct maybePositionName as [positionName|]; simpl; [|exact Hall].
    apply filter_In. split; assumption.
Qed.

(** C8: with no trailing token and an ancestry of exactly an Ast Identifier
    under an IdentifierExpression, the result is the start-of-document
    keywords that begin with the identifier's literal; for [l] it is [let]
    alone. *)
Theorem autocompleteKeyword_start_of_document :
  forall collection leafNodeIds activeNode leaf parent identifier,
    ancestry activeNode = [leaf; parent] ->
    kind leaf = Ast ->
    nodeKind (node leaf) = "Identifier" ->
    nodeKind (node parent) = "IdentifierExpression" ->
    literal (node leaf) = Some identifier ->
    autocompleteKeyword env collection leafNodeIds activeNode None =
    Ok (filter (fun keywordKind => Js.startsWith keywordKind identifier)
               (StartOfDocumentKeywords env)) /\
    (StartOfDocumentKeywords env = Keyword.StartOfDocumentKeywords ->
     identifier = "l" ->
     autocompleteKeyword env collection leafNodeIds activeNode None = Ok [Keyword.Let]).
Proof.
  intros collection leafNodeIds activeNode leaf parent identifier
         Hancestry Hast Hleaf Hparent Hliteral.
  assert (Hresult :
    autocompleteKeyword env collection leafNodeIds activeNode None =
    Ok (filter (fun keywordKind => Js.startsWith keywordKind identifier)
               (StartOfDocumentKeywords env))).
  { unfold autocompleteKeyword. rewrite Hancestry.
    cbn [AncestryUtils.assertGetLeaf bindRes List.length Nat.ltb Nat.leb nth_error].
    unfold maybeEdgeCase. cbn [AutocompleteKeyword.activeNode].
    rewrite Hancestry, Hast, Hleaf, Hparent, Hliteral. reflexivity. }
  split; [exact Hresult|].
  intros Hkeywords ->. rewrite Hresult, Hkeywords. reflexivity.
Qed.

(** What a set text under the caret says of the leaf of a resolved active
    node: the caret is in the leaf, the leaf is finished, and the text is
    the leaf's when the leaf is an identifier. *)
Lemma maybePositionNameOf_leaf :
  forall collection activeNode leaf positionName,
    (forall identifier,
       maybeIdentifierUnderPosition activeNode = Some identifier ->
       kind leaf = Ast /\
       (nodeKind (node leaf) = "Identifier" -> identifier = node leaf)) ->
    maybePositionNameOf env collection activeNode leaf = Some positionName ->
    isInXor env collection (position activeNode) leaf false true = true /\
    kind leaf = Ast /\
    (nodeKind (node leaf) = "Identifier" -> literal (node leaf) = Some positionName).
Proof.
  intros collection activeNode leaf positionName Hidentifier Hname.
  unfold maybePositionNameOf in Hname.
  destruct (isInXor env collection (position activeNode) leaf false true);
    [|discriminate Hname].
  split; [reflexivity|].
  destruct (maybeIdentifierUnderPosition activeNode) as [identifier|].
  - destruct (Hidentifier identifier eq_refl) as [Hast Hleaf].
    split; [exact Hast|]. intros Hkind. rewrite <- (Hleaf Hkind). exact Hname.
  - destruct (kind leaf); cbn [XorNodeKind_eqb andb] in Hname; [|discriminate Hname].
    split; [reflexivity|]. intros Hkind. rewrite Hkind in Hname.
    cbn in Hname. discriminate Hname.
Qed.

(** An edge case answers in the text under the caret, when there is one. *)
Lemma maybeEdgeCase_prefix :
  forall state maybeTrailingToken leaf rest positionName inspected,
    ancestry (activeNode state) = leaf :: rest ->
    kind leaf = Ast ->
    isAfterAst env (position (activeNode state)) (node leaf) true = false ->
    (nodeKind (node leaf) = "Identifier" -> literal (node leaf) = Some positionName) ->
    maybeEdgeCase env state maybeTrailingToken = Ok (Some inspected) ->
    forall keyword, In keyword inspected -> Js.startsWith keyword positionName = true.
Proof.
  intros state maybeTrailingToken leaf rest positionName inspected
         Hancestry Hast Hafter Hliteral Hedge keyword Hin.
  unfold maybeEdgeCase in Hedge. rewrite Hancestry in Hedge.
  destruct rest as [|ancestry1 rest]; [discriminate Hedge|].
  rewrite Hast, Hafter in Hedge. cbn [XorNodeKind_eqb andb] in Hedge.
  rewrite !Bool.andb_false_r in Hedge.
  destruct ((match maybeTrailingToken with Some _ => false | None => true end)
            && Nat.eqb (List.length (leaf :: ancestry1 :: rest)) 2
            && String.eqb (nodeKind (node leaf)) "Identifier"
            && String.eqb (nodeKind (node ancestry1)) "IdentifierExpression") eqn:Hfirst.
  - apply Bool.andb_true_iff in Hfirst. destruct Hfirst as [Hfirst _].
    apply Bool.andb_true_iff in Hfirst. destruct Hfirst as [_ Hkind].
    apply String.eqb_eq in Hkind. rewrite (Hliteral Hkind) in Hedge.
    injection Hedge as <-. apply filter_In in Hin. exact (proj2 Hin).
  - discriminate Hedge.
Qed.

(** C9: prefix filtering holds for every autocomplete call.  When the text
    under the caret is set, every keyword [autocompleteKeyword] returns
    begins with it; and when a trailing token is present, every
    primitive-type name [autocompletePrimitiveType] returns begins with the
    trailing token's text.  The active node is one of the resolver: a caret
    in the finished leaf is not after it, and the identifier under the caret,
    if there is one, was found on a finished leaf and is that leaf when the
    leaf is an identifier. *)
Theorem autocomplete_prefix_filtering :
  (forall collection leafNodeIds activeNode maybeTrailingToken leaf rest
          positionName keywords,
     ancestry activeNode = leaf :: rest ->
     (kind leaf = Ast ->
      isInXor env collection (position activeNode) leaf false true = true ->
      isAfterAst env (position activeNode) (node leaf) true = false) ->
     (forall identifier,
        maybeIdentifierUnderPosition activeNode = Some identifier ->
        kind leaf = Ast /\
        (nodeKind (node leaf) = "Identifier" -> identifier = node leaf)) ->
     maybePositionNameOf env collection activeNode leaf = Some positionName ->
     autocompleteKeyword env collection leafNodeIds activeNode maybeTrailingToken
       = Ok keywords ->
     forall keyword, In keyword keywords -> Js.startsWith keyword positionName = true) /\
  (forall PrimitiveTypeConstantKinds isAfterAst activeNode trailingToken name,
     In name (AutocompletePrimitiveType.autocompletePrimitiveType
                PrimitiveTypeConstantKinds isAfterAst activeNode (Some trailingToken)) ->
     Js.startsWith name (trailingData trailingToken) = true).
Proof.
  split.
  - intros collection leafNodeIds activeNode maybeTrailingToken leaf rest
           positionName keywords Hancestry Hposition Hidentifier Hname Hresult keyword Hin.
    destruct (maybePositionNameOf_leaf collection activeNode leaf positionName
                Hidentifier Hname) as (Hinside & Hast & Hliteral).
    pose proof (Hposition Hast Hinside) as Hafter.
    unfold autocompleteKeyword in Hresult. rewrite Hancestry in Hresult.
    cbn [AncestryUtils.assertGetLeaf bindRes] in Hresult.
    rewrite Hname in Hresult. rewrite <- Hancestry in Hresult.
    destruct (Nat.ltb (List.length (ancestry activeNode)) 2).
    + destruct (handleConjunctions env activeNode [] maybeTrailingToken)
        as [conjunctions|]; [|discriminate].
      cbn [bindRes] in Hresult. injection Hresult as <-.
      exact (filterRecommendations_prefix _ _ _ Hin).
    + destruct (nth_error (ancestry activeNode) 1) as [parent|] eqn:Hparent;
        [|discriminate].
      destruct (maybeEdgeCase env _ maybeTrailingToken) as [[inspected|]|] eqn:Hedge;
        cbn [bindRes] in Hresult; [| |discriminate].
      * injection Hresult as <-.
        exact (maybeEdgeCase_prefix
                 (mkKeywordState collection leafNodeIds activeNode maybeTrailingToken
                                 parent leaf 0)
                 maybeTrailingToken leaf rest positionName inspected
                 Hancestry Hast Hafter Hliteral Hedge keyword Hin).
      * destruct (traverseAncestors env _) as [inspected|]; [|discriminate].
        cbn [bindRes] in Hresult.
        destruct (handleConjunctions env activeNode inspected maybeTrailingToken)
          as [conjunctions|]; [|discriminate].
        cbn [bindRes] in Hresult. injection Hresult as <-.
        exact (filterRecommendations_prefix _ _ _ Hin).
  - intros PrimitiveTypeConstantKinds isAfterAst activeNode trailingToken name Hin.
    unfold AutocompletePrimitiveType.autocompletePrimitiveType,
           AutocompletePrimitiveType.filterRecommendations in Hin.
    apply filter_In in Hin. exact (proj2 Hin).
Qed.

End Keywords.

(** [1|]: all five conjunction keywords. *)
Lemma autocompleteKeyword_conjunctions_witness :
  autocompleteKeyword Carets.env Carets.emptyCollection [] Carets.AfterOne.activeNode None
  = Ok ConjunctionKeywords.
Proof.
  assert (Hkind : nodeKind (node Carets.AfterOne.literalOne) <> "Identifier")
    by discriminate.
  exact (proj1 (autocompleteKeyword_conjunctions Carets.env Carets.emptyCollection []
                  Carets.AfterOne.activeNode None Carets.AfterOne.literalOne [] []
                  eq_refl eq_refl eq_refl Hkind eq_refl I eq_refl)).
Defined.

(** C7 as stated fails: after the finished literal [true], classified
    AfterAstNode and with no trailing token, no conjunction keyword is
    returned, because none begins with [true]. *)
Lemma autocompleteKeyword_conjunctions_filtered :
  kind Carets.AfterTrue.literalTrue = Ast /\
  Carets.isTUnaryType Carets.AfterTrue.literalTrue = true /\
  leafKind Carets.AfterTrue.activeNode = AfterAstNode /\
  autocompleteKeyword Carets.env Carets.emptyCollection [] Carets.AfterTrue.activeNode None
  = Ok [].
Proof.
  repeat split.
Qed.

(** [l|] in an empty document: [let]. *)
Lemma autocompleteKeyword_start_of_document_witness :
  autocompleteKeyword Carets.env Carets.emptyCollection [] Carets.LoneL.activeNode None
  = Ok [Keyword.Let].
Proof.
  exact (proj2 (autocompleteKeyword_start_of_document Carets.env Carets.emptyCollection []
                  Carets.LoneL.activeNode (mkXor Ast Carets.LoneL.identifier)
                  Carets.LoneL.identifierExpression "l"
                  eq_refl eq_refl eq_refl eq_refl eq_refl) eq_refl eq_refl).
Defined.

(** In the position model a caret in a node is not after it. *)
Lemma isInXor_not_after : forall position xorNode isLowerBoundIncluded,
  PositionUtils.isInXor position xorNode isLowerBoundIncluded true = true ->
  PositionUtils.isAfterAst position (node xorNode) true = false.
Proof.
  intros position xorNode lower H. unfold PositionUtils.isInXor in H.
  apply Bool.andb_true_iff in H. destruct H as [_ H].
  apply Bool.negb_true_iff in H. exact H.
Qed.

(** [l|] keeps, of the start-of-document keywords, [let]; [try true|] keeps
    [true] of the suggested keywords; and [type n|] keeps the primitive
    types in [n]. *)
Lemma autocomplete_prefix_filtering_witness :
  Js.startsWith Keyword.Let "l" = true /\
  Js.startsWith Keyword.True "true" = true /\
  Js.startsWith "number" "n" = true.
Proof.
  split; [|split].
  - apply (proj1 (autocomplete_prefix_filtering Carets.env)
             Carets.emptyCollection [] Carets.LoneL.activeNode None
             (mkXor Ast Carets.LoneL.identifier) [Carets.LoneL.identifierExpression]
             "l" [Keyword.Let] eq_refl).
    + intros _. apply isInXor_not_after.
    + intros identifier [= <-]. split; reflexivity.
    + reflexivity.
    + reflexivity.
    + left. reflexivity.
  - apply (proj1 (autocomplete_prefix_filtering Carets.TryTrue.env)
             Carets.emptyCollection [] Carets.TryTrue.activeNode None
             Carets.TryTrue.literalTrue [Carets.TryTrue.errorHandlingExpression]
             "true" [Keyword.True] eq_refl).
    + intros _. apply isInXor_not_after.
    + intros identifier Hnone. discriminate Hnone.
    + reflexivity.
    + reflexivity.
    + left. reflexivity.
  - apply (proj2 (autocomplete_prefix_filtering Carets.env)
             Carets.AfterType.primitiveTypes PositionUtils.isAfterAst
             Carets.AfterType.activeNode Carets.AfterType.trailing "number").
    vm_compute. tauto.
Defined.

End AutocompleteFacts.

(* ------------------------------------------------------------------ *)
(** ** The parser state: backups, the token cache and the token tests *)

Module StateFacts.
Import ParseContext IParserStateUtils TokenTests.
Local Open Scope list_scope.

Lemma filter_none : forall (A : Type) (p : A -> bool) (l : list A),
  (forall x, In x l -> p x = false) -> filter p l = [].
Proof.
  induction l as [|x l IH]; intros H; simpl; [reflexivity|].
  rewrite (H x (or_introl eq_refl)). apply IH. intros y Hy. apply H. right. exact Hy.
Qed.

Lemma no_new_ids : forall ids threshold,
  Forall (fun nodeId => nodeId <= threshold) ids ->
  filter (fun nodeId => Nat.ltb threshold nodeId) ids = [].
Proof.
  intros ids threshold H. apply filter_none. intros x Hx.
  rewrite Forall_forall in H. apply Nat.ltb_ge. exact (H x Hx).
Qed.

Lemma keys_filter_within : forall (V : Type) (m : NumMap.t V) threshold,
  Forall (fun nodeId => nodeId <= threshold)
         (NumMap.keys (filter (fun kv => Nat.leb (fst kv) threshold) m)).
Proof.
  intros V m threshold. apply Forall_forall. intros x Hx.
  unfold NumMap.keys in Hx. apply in_map_iff in Hx.
  destruct Hx as (kv & <- & Hkv). apply filter_In in Hkv.
  apply Nat.leb_le. exact (proj2 Hkv).
Qed.

(** What a successful rollback returns, field by field. *)
Lemma applyFastStateBackup_shape : forall state backup restored,
  applyFastStateBackup state backup = Ok restored ->
  exists contextState',
    restored =
      mkIParserState
        (lexerSnapshot state) (backupTokenIndex backup)
        (nth_error (tokens (lexerSnapshot state)) (backupTokenIndex backup))
        (option_map Token.kind
           (nth_error (tokens (lexerSnapshot state)) (backupTokenIndex backup)))
        contextState'
        (match maybeContextNodeId backup with
         | Some (S n) => Some (S n)
         | _ => None
         end) /\
    (forall n, maybeContextNodeId backup = Some (S n) ->
       NumMap.get (S n) (contextNodeById (nodeIdMapCollection contextState')) <> None).
Proof.
  intros state backup restored. unfold applyFastStateBackup, bindRes.
  destruct (deleteNewAstNodes _ _ _) as [cs1|]; [|discriminate].
  destruct (deleteNewContextNodes _ _) as [cs2|]; [|discriminate].
  destruct (maybeContextNodeId backup) as [[|n]|].
  - intros [= <-]. exists cs2. split; [reflexivity|]. intros n [=].
  - destruct (NumMap.get (S n) _) eqn:Hget; [|discriminate].
    intros [= <-]. exists cs2. split; [reflexivity|].
    intros m [= <-]. rewrite Hget. discriminate.
  - intros [= <-]. exists cs2. split; [reflexivity|]. intros n [=].
Qed.

(** With nothing allocated past the backup's counter, the rollback deletes
    nothing. *)
Lemma applyFastStateBackup_nothing_new : forall state backup,
  Forall (fun nodeId => nodeId <= contextStateIdCounter backup)
         (NumMap.keys (astNodeById (nodeIdMapCollection (contextState state)))) ->
  Forall (fun nodeId => nodeId <= contextStateIdCounter backup)
         (NumMap.keys (contextNodeById (nodeIdMapCollection (contextState state)))) ->
  applyFastStateBackup state backup =
  let contextState' :=
    mkState (nodeIdMapCollection (contextState state)) (contextStateIdCounter backup)
            (leafNodeIds (contextState state)) in
  let restored maybeCurrent :=
    mkIParserState
      (lexerSnapshot state) (backupTokenIndex backup)
      (nth_error (tokens (lexerSnapshot state)) (backupTokenIndex backup))
      (option_map Token.kind
         (nth_error (tokens (lexerSnapshot state)) (backupTokenIndex backup)))
      contextState' maybeCurrent in
  match maybeContextNodeId backup with
  | Some (S n) =>
      match NumMap.get (S n) (contextNodeById (nodeIdMapCollection (contextState state))) with
      | Some _ => Ok (restored (Some (S n)))
      | None => Throw (InvariantError "nodeId wasn't a context node")
      end
  | _ => Ok (restored None)
  end.
Proof.
  intros state backup Hast Hctx. unfold applyFastStateBackup.
  rewrite (no_new_ids _ _ Hast), (no_new_ids _ _ Hctx). reflexivity.
Qed.

(** X1: the token cache stays in sync.  [stateFactory] builds a state whose
    cached current token and kind are those of [tokens[tokenIndex]]; a
    successful [applyFastStateBackup] re-reads them from the same snapshot;
    and [applyState] keeps them in sync when the other state is in sync over
    the same tokens. *)
Theorem currentToken_stays_in_sync :
  (forall lexerSnapshot, currentTokenInSync (stateFactory lexerSnapshot)) /\
  (forall state backup restored,
     applyFastStateBackup state backup = Ok restored ->
     currentTokenInSync restored /\ lexerSnapshot restored = lexerSnapshot state) /\
  (forall originalState otherState,
     currentTokenInSync otherState ->
     tokens (lexerSnapshot originalState) = tokens (lexerSnapshot otherState) ->
     currentTokenInSync (applyState originalState otherState)).
Proof.
  refine (conj _ (conj _ _)).
  - intros ls. split; reflexivity.
  - intros state backup restored H.
    destruct (applyFastStateBackup_shape _ _ _ H) as (cs & -> & _).
    repeat split.
  - intros o other [Htoken Hkind] Htokens. unfold applyState. split; simpl.
    + rewrite Htokens. exact Htoken.
    + exact Hkind.
Qed.

Lemma currentToken_stays_in_sync_witness :
  currentTokenInSync (applyState (stateFactory Rollback.snapshot)
                                 (stateFactory Rollback.snapshot)).
Proof.
  apply (proj2 (proj2 currentToken_stays_in_sync)).
  - apply (proj1 currentToken_stays_in_sync).
  - reflexivity.
Defined.

(** X2: backing up and restoring at once changes nothing.  On a state whose
    nodes were all allocated at or before the id counter, whose token cache
    is in sync and whose current context (if any) is open,
    [applyFastStateBackup(state, fastStateBackup(state))] returns the state
    itself. *)
Theorem applyFastStateBackup_fastStateBackup : forall state,
  idsWithinCounter (contextState state) ->
  currentTokenInSync state ->
  currentContextIsOpen state ->
  applyFastStateBackup state (fastStateBackup state) = Ok state.
Proof.
  intros state [Hast Hctx] [Htoken Hkind] Hopen.
  rewrite applyFastStateBackup_nothing_new by assumption.
  destruct state as [ls index token kind [collection counter leaves] current].
  unfold currentContextIsOpen in Hopen. simpl in *.
  subst token kind.
  destruct current as [[|n]|].
  - destruct Hopen as [Hzero _]. contradiction.
  - destruct Hopen as [_ Hget].
    destruct (NumMap.get (S n) (contextNodeById collection)); [reflexivity|contradiction].
  - reflexivity.
Qed.

Lemma applyFastStateBackup_fastStateBackup_witness :
  applyFastStateBackup Rollback.atBackup (fastStateBackup Rollback.atBackup)
  = Ok Rollback.atBackup.
Proof.
  apply applyFastStateBackup_fastStateBackup.
  - split; vm_compute; repeat constructor.
  - split; reflexivity.
  - split; vm_compute; discriminate.
Defined.

(** X3: rolling back twice is rolling back once. *)
Theorem applyFastStateBackup_idempotent : forall state backup restored,
  applyFastStateBackup state backup = Ok restored ->
  applyFastStateBackup restored backup = Ok restored.
Proof.
  intros state backup restored H.
  destruct (RollbackFacts.applyFastStateBackup_nodes _ _ _ H) as (Hast & Hctx & Hcounter).
  destruct (applyFastStateBackup_shape _ _ _ H) as (cs & -> & Hopen).
  simpl in Hast, Hctx, Hcounter.
  rewrite applyFastStateBackup_nothing_new.
  - simpl. destruct cs as [collection counter leaves]. simpl in *. subst counter.
    destruct (maybeContextNodeId backup) as [[|n]|]; try reflexivity.
    specialize (Hopen n eq_refl).
    destruct (NumMap.get (S n) (contextNodeById collection)); [reflexivity|contradiction].
  - simpl. rewrite Hast. apply keys_filter_within.
  - simpl. rewrite Hctx. apply Forall_forall. intros x Hx.
    apply filter_In in Hx. apply Nat.leb_le. exact (proj2 Hx).
Qed.

Lemma applyFastStateBackup_idempotent_witness :
  exists restored,
    Rollback.afterRollback = Ok restored /\
    applyFastStateBackup restored Rollback.backup = Ok restored.
Proof.
  destruct Rollback.afterRead as [state|] eqn:Hread; [|vm_compute in Hread; discriminate].
  destruct (applyFastStateBackup state Rollback.backup) as [restored|] eqn:Happly.
  - exists restored. split.
    + unfold Rollback.afterRollback. rewrite Hread. exact Happly.
    + exact (applyFastStateBackup_idempotent state Rollback.backup restored Happly).
  - exfalso. assert (Hrun : Rollback.afterRollback = Throw fault).
    { unfold Rollback.afterRollback. rewrite Hread. exact Happly. }
    vm_compute in Hrun. discriminate.
Defined.

(** X4: a rollback cannot succeed once the context that was current at the
    backup is no longer open (it was ended or deleted since): the backup's
    context id must still be in [contextNodeById]. *)
Theorem applyFastStateBackup_needs_open_context : forall state backup nodeId,
  maybeContextNodeId backup = Some nodeId ->
  nodeId <> 0 ->
  NumMap.get nodeId (contextNodeById (nodeIdMapCollection (contextState state))) = None ->
  forall restored, applyFastStateBackup state backup <> Ok restored.
Proof.
  intros state backup nodeId Hid Hnonzero Hgone restored H.
  destruct (RollbackFacts.applyFastStateBackup_nodes _ _ _ H) as (_ & Hctx & _).
  destruct (applyFastStateBackup_shape _ _ _ H) as (cs & -> & Hopen).
  simpl in Hctx. destruct nodeId as [|n]; [contradiction|].
  specialize (Hopen n Hid). apply NumMapFacts.get_keys in Hopen.
  rewrite Hctx in Hopen. apply filter_In in Hopen. destruct Hopen as [Hin _].
  apply NumMapFacts.get_keys in Hin. contradiction.
Qed.

Lemma applyFastStateBackup_needs_open_context_witness :
  NumMap.get 1 (contextNodeById
                  (nodeIdMapCollection (contextState (stateFactory Rollback.snapshot))))
  = None /\
  forall restored,
    applyFastStateBackup (stateFactory Rollback.snapshot) (mkFastStateBackup 0 0 (Some 1))
    <> Ok restored.
Proof.
  split; [reflexivity|].
  apply (applyFastStateBackup_needs_open_context
           (stateFactory Rollback.snapshot) (mkFastStateBackup 0 0 (Some 1)) 1).
  - reflexivity.
  - discriminate.
  - reflexivity.
Defined.

Section Tests.
Variable columnNumberStartFrom : LexerSnapshot -> Token.Token -> Res Z.

Lemma testIsOnTokenKind_none : forall state expectedTokenKind,
  testIsOnTokenKind columnNumberStartFrom state expectedTokenKind = Ok None <->
  kindIs (maybeCurrentTokenKind state) expectedTokenKind = true.
Proof.
  intros state k. unfold testIsOnTokenKind.
  destruct (kindIs (maybeCurrentTokenKind state) k); simpl.
  - split; reflexivity.
  - split; [|discriminate].
    destruct (maybeCurrentTokenWithColumnNumber columnNumberStartFrom state);
      simpl; discriminate.
Qed.

(** X5: on a state whose token cache is in sync, [testIsOnTokenKind] reports
    no error exactly when [isOnTokenKind] holds at the current index. *)
Theorem testIsOnTokenKind_agrees_with_isOnTokenKind : forall state expectedTokenKind,
  currentTokenInSync state ->
  (testIsOnTokenKind columnNumberStartFrom state expectedTokenKind = Ok None <->
   isOnTokenKind state expectedTokenKind None = true).
Proof.
  intros state k [Htoken Hkind]. rewrite testIsOnTokenKind_none.
  unfold isOnTokenKind, isTokenKind, kindIs. rewrite Hkind, Htoken.
  destruct (nth_error (tokens (lexerSnapshot state)) (tokenIndex state)); simpl; tauto.
Qed.

(** X6: [testIsOnAnyTokenKind] reports no error exactly when
    [testIsOnTokenKind] reports none for one of the expected kinds; with no
    expected kind, or at the end of the tokens, it always reports one (or
    throws). *)
Theorem testIsOnAnyTokenKind_some_kind : forall state expectedAnyTokenKinds,
  testIsOnAnyTokenKind columnNumberStartFrom state expectedAnyTokenKinds = Ok None <->
  exists expectedTokenKind,
    In expectedTokenKind expectedAnyTokenKinds /\
    testIsOnTokenKind columnNumberStartFrom state expectedTokenKind = Ok None.
Proof.
  intros state kinds. unfold testIsOnAnyTokenKind.
  assert (Hexists : (exists k, In k kinds /\
                       testIsOnTokenKind columnNumberStartFrom state k = Ok None) <->
                    (exists k, In k kinds /\ kindIs (maybeCurrentTokenKind state) k = true)).
  { split; intros (k & Hin & H); exists k; split; try exact Hin;
      apply testIsOnTokenKind_none; exact H. }
  rewrite Hexists. clear Hexists. unfold kindIs.
  destruct (maybeCurrentTokenKind state) as [kind|].
  - destruct (existsb (String.eqb kind) kinds) eqn:Hex; simpl.
    + split; [intros _|reflexivity]. apply existsb_exists in Hex.
      destruct Hex as (k & Hin & Heq). exists k. split; assumption.
    + split.
      * destruct (maybeCurrentTokenWithColumnNumber columnNumberStartFrom state);
          simpl; discriminate.
      * intros (k & Hin & Heq). exfalso.
        apply Bool.not_true_iff_false in Hex. apply Hex.
        apply existsb_exists. exists k. split; assumption.
  - split.
    + destruct (maybeCurrentTokenWithColumnNumber columnNumberStartFrom state);
        simpl; discriminate.
    + intros (k & _ & H). discriminate.
Qed.
End Tests.

Lemma testIsOnTokenKind_agrees_with_isOnTokenKind_witness :
  testIsOnTokenKind (fun _ _ => Ok 0%Z) (stateFactory Rollback.snapshot) "Identifier"
  = Ok None.
Proof.
  apply (testIsOnTokenKind_agrees_with_isOnTokenKind (fun _ _ => Ok 0%Z)
           (stateFactory Rollback.snapshot) "Identifier").
  - split; reflexivity.
  - reflexivity.
Defined.

(** There is no token kind at or past the end of the tokens:
    [isTokenKind], [isNextTokenKind] on the last token and
    [isRecursivePrimaryExpressionNext] are all false there. *)
Theorem no_token_kind_past_the_end : forall state tokenKind tokenIndex,
  List.length (tokens (lexerSnapshot state)) <= tokenIndex ->
  isTokenKind state tokenKind tokenIndex = false /\
  isOnTokenKind state tokenKind (Some tokenIndex) = false /\
  isRecursivePrimaryExpressionNext state (Some tokenIndex) = false /\
  (tokenIndex = IParserStateUtils.tokenIndex state + 1 ->
   isNextTokenKind state tokenKind = false).
Proof.
  intros state k index Hlen.
  assert (Hnone : forall kind, isTokenKind state kind index = false).
  { intros kind. unfold isTokenKind.
    rewrite (proj2 (nth_error_None _ _) Hlen). reflexivity. }
  repeat split.
  - apply Hnone.
  - apply Hnone.
  - unfold isRecursivePrimaryExpressionNext. rewrite !Hnone. reflexivity.
  - intros ->. apply Hnone.
Qed.

Lemma no_token_kind_past_the_end_witness :
  isNextTokenKind (stateFactory Rollback.snapshot) "Identifier" = false.
Proof.
  apply (proj2 (proj2 (proj2
    (no_token_kind_past_the_end (stateFactory Rollback.snapshot) "Identifier" 1
       (le_n 1))))).
  reflexivity.
Defined.

End StateFacts.

(* ------------------------------------------------------------------ *)
(** ** What an ok of tryRead guarantees, and ensureCommonError *)

Module TryReadOkFacts.
Import IParserStateUtils IParserUtils.

(** X7: [ensureCommonError] always yields a CommonError, returns a CommonError
    as it is, wraps anything else in an inner common error, and applying it
    again changes nothing. *)
Theorem ensureCommonError_idempotent : forall err,
  isCommonError (ensureCommonError err) = true /\
  ensureCommonError (ensureCommonError err) = ensureCommonError err /\
  (isCommonError err = true -> ensureCommonError err = err) /\
  (isCommonError err = false ->
   exists inner, ensureCommonError err = CommonError inner /\
                 isTInnerCommonError inner = true /\
                 (isTInnerCommonError err = true -> inner = err) /\
                 (isTInnerCommonError err = false -> inner = UnknownError err)).
Proof.
  intros err. unfold ensureCommonError.
  destruct (isCommonError err) eqn:Hcommon.
  - rewrite Hcommon. repeat split; try reflexivity. discriminate.
  - destruct (isTInnerCommonError err) eqn:Hinner; simpl.
    + repeat split; try discriminate.
      intros _. exists err. repeat split; try assumption. discriminate.
    + repeat split; try discriminate.
      intros _. exists (UnknownError err). repeat split. discriminate.
Qed.

Lemma ensureCommonError_idempotent_witness :
  ensureCommonError (CommonError CancellationError) = CommonError CancellationError /\
  exists inner, ensureCommonError (ForeignFault "oops") = CommonError inner /\
                isTInnerCommonError inner = true.
Proof.
  split.
  - apply (proj1 (proj2 (proj2 (ensureCommonError_idempotent
                                  (CommonError CancellationError))))).
    reflexivity.
  - destruct (proj2 (proj2 (proj2 (ensureCommonError_idempotent (ForeignFault "oops"))))
                eq_refl) as (inner & H1 & H2 & _).
    exists inner. split; assumption.
Defined.

(** X8: an ok from [tryRead] means that [read] returned the root normally,
    that no context is left open, that every token was consumed, and that the
    ok value carries the state [read] left behind together with that state's
    own node collection and leaf ids. *)
Theorem tryRead_ok : forall state (read : Reader) value,
  tryRead state read = okFactory value ->
  read state = (okState value, Ok (root value)) /\
  maybeCurrentContextNode (okState value) = None /\
  tokenIndex (okState value) = List.length (tokens (lexerSnapshot (okState value))) /\
  okNodeIdMapCollection value =
    ParseContext.nodeIdMapCollection (contextState (okState value)) /\
  okLeafNodeIds value = ParseContext.leafNodeIds (contextState (okState value)).
Proof.
  intros state read value. unfold tryRead.
  destruct (read state) as [state' outcome]. destruct outcome as [rootNode|err].
  - unfold assertNoOpenContext, assertNoMoreTokens.
    destruct (maybeCurrentContextNode state') eqn:Hopen; [discriminate|].
    destruct (Nat.eqb_spec (tokenIndex state')
                (List.length (tokens (lexerSnapshot state')))) as [Hall|Hleft].
    + intros [= <-]. simpl. repeat split; assumption.
    + unfold assertGetTokenAt, bindRes.
      destruct (nth_error _ _); [|discriminate].
      destruct (graphemePositionStartFrom _ _); discriminate.
  - destruct (isTInnerParseError err); discriminate.
Qed.

Lemma tryRead_ok_witness :
  tokenIndex (Scenario.withTokenIndex (stateFactory Scenario.snapshot) 1) = 1.
Proof.
  exact (proj1 (proj2 (proj2
    (tryRead_ok (stateFactory Scenario.snapshot) Scenario.readToken
       (mkParseOk Scenario.rootNode (ParseContext.mkCollection [] [] [] []) []
                  (Scenario.withTokenIndex (stateFactory Scenario.snapshot) 1))
       eq_refl)))).
Defined.

End TryReadOkFacts.

(* ------------------------------------------------------------------ *)
(** ** Walking and navigating an ancestry *)

Module AncestryFacts.
Import AncestryUtils Ancestry.
Local Open Scope list_scope.

Lemma ancestryIdsLoop_terminates : forall parentIdById,
  parentsDecrease parentIdById ->
  forall fuel maybeParentId,
    (forall parent, maybeParentId = Some parent -> parent <= fuel) ->
    exists ids,
      ancestryIdsLoop parentIdById fuel maybeParentId = Some ids /\
      Forall (fun nodeId => nodeId <> 0) ids /\
      (forall parent, maybeParentId = Some parent -> parent <> 0 ->
         hd_error ids = Some parent) /\
      (maybeParentId = None \/ maybeParentId = Some 0 -> ids = []) /\
      isParentChain parentIdById ids /\
      StronglySorted (fun child parent => parent < child) ids /\
      (forall nodeId, In nodeId ids ->
         forall parent, maybeParentId = Some parent -> nodeId <= parent) /\
      (forall lastId, last ids 0 = lastId -> lastId <> 0 ->
         NumMap.get lastId parentIdById = None \/
         NumMap.get lastId parentIdById = Some 0).
Proof.
  intros m Hdec. induction fuel as [|fuel IH]; intros mp Hfuel.
  - destruct mp as [[|p]|].
    + exists []. simpl. repeat split; try constructor; try tauto; try congruence.
    + specialize (Hfuel (S p) eq_refl). lia.
    + exists []. simpl. repeat split; try constructor; try tauto; try congruence.
  - destruct mp as [[|p]|].
    + exists []. simpl. repeat split; try constructor; try tauto; try congruence.
    + specialize (Hfuel (S p) eq_refl).
      destruct (IH (NumMap.get (S p) m)) as
        (ids & Hloop & Hnonzero & Hhead & Hempty & Hchain & Hsorted & Hbound & Hlast).
      { intros q Hq. apply Hdec in Hq. lia. }
      exists (S p :: ids). simpl. rewrite Hloop. simpl.
      split; [reflexivity|]. split; [constructor; [discriminate|exact Hnonzero]|].
      split; [intros parent [= <-] _; reflexivity|].
      split; [intros [H|H]; discriminate|].
      split.
      { destruct ids as [|q ids]; [exact I|]. split; [|exact Hchain].
        destruct (NumMap.get (S p) m) as [[|q']|] eqn:Hq.
        - specialize (Hempty (or_intror eq_refl)). discriminate.
        - specialize (Hhead (S q') eq_refl (Nat.neq_succ_0 q')). simpl in Hhead.
          injection Hhead as ->. reflexivity.
        - specialize (Hempty (or_introl eq_refl)). discriminate. }
      split.
      { constructor; [exact Hsorted|]. apply Forall_forall. intros x Hx.
        destruct (NumMap.get (S p) m) as [q|] eqn:Hq.
        - specialize (Hbound x Hx q eq_refl). apply Hdec in Hq. lia.
        - specialize (Hempty (or_introl eq_refl)). subst ids. destruct Hx. }
      split.
      { intros x [<-|Hx] parent [= <-]; [lia|].
        destruct (NumMap.get (S p) m) as [q|] eqn:Hq.
        - specialize (Hbound x Hx q eq_refl). apply Hdec in Hq. lia.
        - specialize (Hempty (or_introl eq_refl)). subst ids. destruct Hx. }
      { intros lastId Hlast' Hnz. destruct ids as [|q ids].
        - simpl in Hlast'. subst lastId.
          destruct (NumMap.get (S p) m) as [[|q']|] eqn:Hq.
          + right. reflexivity.
          + specialize (Hhead (S q') eq_refl (Nat.neq_succ_0 q')). discriminate.
          + left. reflexivity.
        - apply (Hlast lastId); [|exact Hnz]. exact Hlast'. }
    + exists []. simpl. repeat split; try constructor; try tauto; try congruence.
Qed.

(** X9: when every parent id is smaller than its child's, the loop of
    [assertGetAncestry] ends (within [rootId] turns) and hands over the ids
    leaf first: [rootId], then each id's parent, strictly decreasing, up to
    a node without a parent (or with the parent 0, which the loop takes for
    none). *)
Theorem assertGetAncestry_walk : forall parentIdById rootId,
  parentsDecrease parentIdById ->
  exists ids,
    assertGetAncestryIds parentIdById rootId rootId = Some (rootId :: ids) /\
    isParentChain parentIdById (rootId :: ids) /\
    StronglySorted (fun child parent => parent < child) (rootId :: ids) /\
    Forall (fun nodeId => nodeId <> 0) ids /\
    (NumMap.get (last (rootId :: ids) rootId) parentIdById = None \/
     NumMap.get (last (rootId :: ids) rootId) parentIdById = Some 0).
Proof.
  intros m rootId Hdec.
  destruct (ancestryIdsLoop_terminates m Hdec rootId (NumMap.get rootId m)) as
    (ids & Hloop & Hnonzero & Hhead & Hempty & Hchain & Hsorted & Hbound & Hlast).
  { intros p Hp. apply Hdec in Hp. lia. }
  exists ids. unfold assertGetAncestryIds. rewrite Hloop. simpl.
  split; [reflexivity|]. split.
  { destruct ids as [|q ids]; [exact I|]. split; [|exact Hchain].
    destruct (NumMap.get rootId m) as [[|q']|] eqn:Hq.
    - specialize (Hempty (or_intror eq_refl)). discriminate.
    - specialize (Hhead (S q') eq_refl (Nat.neq_succ_0 q')). simpl in Hhead.
      injection Hhead as ->. reflexivity.
    - specialize (Hempty (or_introl eq_refl)). discriminate. }
  split.
  { constructor; [exact Hsorted|]. apply Forall_forall. intros x Hx.
    destruct (NumMap.get rootId m) as [q|] eqn:Hq.
    - specialize (Hbound x Hx q eq_refl). apply Hdec in Hq. lia.
    - specialize (Hempty (or_introl eq_refl)). subst ids. destruct Hx. }
  split; [exact Hnonzero|].
  destruct ids as [|q ids].
  - simpl. destruct (NumMap.get rootId m) as [[|q']|] eqn:Hq.
    + right. reflexivity.
    + specialize (Hhead (S q') eq_refl (Nat.neq_succ_0 q')). discriminate.
    + left. reflexivity.
  - change (last (rootId :: q :: ids) rootId) with (last (q :: ids) rootId).
    assert (Hin : In (last (q :: ids) rootId) (q :: ids)).
    { clear. generalize q. induction ids as [|x ids IH]; intros y; simpl.
      - left. reflexivity.
      - right. apply (IH x). }
    rewrite Forall_forall in Hnonzero. pose proof (Hnonzero _ Hin) as Hnz.
    apply (Hlast (last (q :: ids) rootId)); [|exact Hnz].
    clear - Hnz. revert Hnz. generalize q. induction ids as [|x ids IH]; intros y Hy.
    + reflexivity.
    + change (last (y :: x :: ids) 0) with (last (x :: ids) 0).
      change (last (y :: x :: ids) rootId) with (last (x :: ids) rootId) in *.
      apply (IH x). exact Hy.
Qed.

Lemma assertGetAncestry_walk_witness :
  exists ids,
    assertGetAncestryIds [(2, 1); (3, 2)] 3 3 = Some (3 :: ids) /\
    isParentChain [(2, 1); (3, 2)] (3 :: ids).
Proof.
  destruct (assertGetAncestry_walk [(2, 1); (3, 2)] 3) as (ids & H1 & H2 & _).
  - intros child parent. simpl.
    destruct child as [|[|[|[|child]]]]; simpl; intros [= <-]; lia.
  - exists ids. split; assumption.
Defined.

(** X10: a node that is its own parent keeps the loop of [assertGetAncestry]
    running for ever: no amount of fuel ends it. *)
Theorem assertGetAncestry_cycle : forall parentIdById rootId,
  rootId <> 0 ->
  NumMap.get rootId parentIdById = Some rootId ->
  forall fuel, assertGetAncestryIds parentIdById rootId fuel = None.
Proof.
  intros m rootId Hnz Hself fuel. unfold assertGetAncestryIds. rewrite Hself.
  destruct rootId as [|r]; [contradiction|].
  induction fuel as [|fuel IH]; [reflexivity|].
  simpl. rewrite Hself.
  destruct (ancestryIdsLoop m fuel (Some (S r))); [discriminate|reflexivity].
Qed.

Lemma assertGetAncestry_cycle_witness :
  NumMap.get 1 [(1, 1)] = Some 1 /\
  forall fuel, assertGetAncestryIds [(1, 1)] 1 fuel = None.
Proof.
  split; [reflexivity|].
  apply assertGetAncestry_cycle; [discriminate|reflexivity].
Defined.

Lemma at_in_range : forall (A : Type) (array : list A) i x,
  at_ array i = Some x -> (0 <= i < Z.of_nat (List.length array))%Z.
Proof.
  intros A array i x. unfold at_.
  destruct (Z.ltb_spec i 0) as [Hneg|Hpos]; [discriminate|]. intros Hnth.
  assert (Hlt : Z.to_nat i < List.length array)
    by (apply nth_error_Some; rewrite Hnth; discriminate).
  lia.
Qed.

(** X11: navigation stays inside the ancestry and a kind filter only removes.
    [assertGetNthNextXor] returns a node exactly when there is one [n] places
    towards the root whose kind is allowed, and throws InvariantError
    otherwise, so always past the root; [maybeNthPreviousXor] finds nothing
    before the leaf; a filtered lookup returns what the unfiltered one does,
    or nothing. *)
Theorem navigation_within_ancestry : forall ancestry ancestryIndex n maybeAllowedNodeKinds,
  (forall xorNode,
     assertGetNthNextXor ancestry ancestryIndex n maybeAllowedNodeKinds = Ok xorNode <->
     at_ ancestry (ancestryIndex + n) = Some xorNode /\
     match maybeAllowedNodeKinds with
     | Some allowed => includes allowed (nodeKind (node xorNode)) = true
     | None => True
     end) /\
  ((Z.of_nat (List.length ancestry) <= ancestryIndex + n)%Z ->
   assertGetNthNextXor ancestry ancestryIndex n maybeAllowedNodeKinds =
   Throw (InvariantError "no next node")) /\
  ((ancestryIndex - n < 0)%Z ->
   maybeNthPreviousXor ancestry ancestryIndex n maybeAllowedNodeKinds = None) /\
  (forall xorNode,
     maybeNthNextXor ancestry ancestryIndex n maybeAllowedNodeKinds = Some xorNode ->
     maybeNthNextXor ancestry ancestryIndex n None = Some xorNode) /\
  (forall xorNode,
     maybeNthPreviousXor ancestry ancestryIndex n maybeAllowedNodeKinds = Some xorNode ->
     maybeNthPreviousXor ancestry ancestryIndex n None = Some xorNode).
Proof.
  intros ancestry i n kinds.
  unfold assertGetNthNextXor, maybeNthNextXor, maybeNthPreviousXor.
  refine (conj _ (conj _ (conj _ (conj _ _)))).
  - intros x. destruct (at_ ancestry (i + n)) as [y|] eqn:Hat.
    + destruct kinds as [allowed|].
      * destruct (includes allowed (nodeKind (node y))) eqn:Hin.
        -- split; [intros [= <-]; split; [reflexivity|exact Hin]|].
           intros [[= <-] _]. reflexivity.
        -- split; [discriminate|]. intros [[= <-] H]. congruence.
      * split; [intros [= <-]; split; [reflexivity|exact I]|].
        intros [[= <-] _]. reflexivity.
    + destruct kinds; split; try discriminate; intros [H _]; discriminate.
  - intros Hlen. destruct (at_ ancestry (i + n)) as [y|] eqn:Hat.
    + apply at_in_range in Hat. lia.
    + destruct kinds; reflexivity.
  - intros Hneg. unfold at_. destruct (Z.ltb_spec (i - n) 0); [|lia].
    destruct kinds; reflexivity.
  - intros x. destruct (at_ ancestry (i + n)) as [y|]; [|destruct kinds; discriminate].
    destruct kinds as [allowed|]; [|tauto].
    destruct (includes allowed (nodeKind (node y))); [tauto|discriminate].
  - intros x. destruct (at_ ancestry (i - n)) as [y|]; [|destruct kinds; discriminate].
    destruct kinds as [allowed|]; [|tauto].
    destruct (includes allowed (nodeKind (node y))); [tauto|discriminate].
Qed.

Lemma navigation_within_ancestry_witness :
  assertGetNthNextXor [Carets.LoneL.identifierExpression] 0 1 None =
  Throw (InvariantError "no next node").
Proof.
  apply (proj1 (proj2 (navigation_within_ancestry
                         [Carets.LoneL.identifierExpression] 0 1 None))).
  simpl. lia.
Defined.

End AncestryFacts.

(* ------------------------------------------------------------------ *)
(** ** More on autocomplete *)

Module AutocompleteWalkFacts.
Import AutocompleteKeyword KeywordWalk.
Local Open Scope list_scope.

Section Primitive.
Variable PrimitiveTypeConstantKinds : list string.
Variable isAfterAst : Position -> Node -> bool -> bool.

Lemma inspectAncestor_cases : forall activeNode index,
  AutocompletePrimitiveType.inspectAncestor PrimitiveTypeConstantKinds isAfterAst
    activeNode index = None \/
  AutocompletePrimitiveType.inspectAncestor PrimitiveTypeConstantKinds isAfterAst
    activeNode index = Some PrimitiveTypeConstantKinds.
Proof.
  intros activeNode index. unfold AutocompletePrimitiveType.inspectAncestor.
  repeat match goal with
         | |- context [match ?x with _ => _ end] => destruct x
         end; auto.
Qed.

Lemma traverseIndices_cases : forall activeNode indices,
  AutocompletePrimitiveType.traverseIndices PrimitiveTypeConstantKinds isAfterAst
    activeNode indices = [] \/
  AutocompletePrimitiveType.traverseIndices PrimitiveTypeConstantKinds isAfterAst
    activeNode indices = PrimitiveTypeConstantKinds.
Proof.
  intros activeNode. induction indices as [|index indices IH]; simpl; [left; reflexivity|].
  destruct (inspectAncestor_cases activeNode index) as [-> | ->]; [exact IH|].
  right. reflexivity.
Qed.

(** X12: [autocompletePrimitiveType] is closed and all-or-nothing: it returns
    either nothing or the whole list of primitive-type names, passed through
    the trailing-token filter; every name it returns is a primitive-type
    name, in the list's order. *)
Theorem autocompletePrimitiveType_closed : forall activeNode maybeTrailingToken,
  (AutocompletePrimitiveType.autocompletePrimitiveType PrimitiveTypeConstantKinds
     isAfterAst activeNode maybeTrailingToken = [] \/
   AutocompletePrimitiveType.autocompletePrimitiveType PrimitiveTypeConstantKinds
     isAfterAst activeNode maybeTrailingToken =
   AutocompletePrimitiveType.filterRecommendations PrimitiveTypeConstantKinds
     maybeTrailingToken) /\
  (forall name,
     In name (AutocompletePrimitiveType.autocompletePrimitiveType
                PrimitiveTypeConstantKinds isAfterAst activeNode maybeTrailingToken) ->
     In name PrimitiveTypeConstantKinds).
Proof.
  intros activeNode maybeTrailingToken.
  unfold AutocompletePrimitiveType.autocompletePrimitiveType,
         AutocompletePrimitiveType.traverseAncestors.
  destruct (traverseIndices_cases activeNode
              (seq 0 (List.length (ancestry activeNode)))) as [-> | ->].
  - split.
    + left. destruct maybeTrailingToken; reflexivity.
    + intros name. destruct maybeTrailingToken; simpl; tauto.
  - split; [right; reflexivity|].
    intros name. destruct maybeTrailingToken; simpl; [|tauto].
    intros H. apply filter_In in H. exact (proj1 H).
Qed.

(** X13: where [autocompletePrimitiveType] answers and where it never does.  A
    leaf that is itself a TypePrimaryType gets the whole (filtered) list,
    whatever lies above it; an ancestry without any TypePrimaryType or
    Parameter node, the empty one included, gets nothing. *)
Theorem autocompletePrimitiveType_positions : forall activeNode maybeTrailingToken,
  (forall leaf rest,
     ancestry activeNode = leaf :: rest ->
     nodeKind (node leaf) = "TypePrimaryType" ->
     AutocompletePrimitiveType.autocompletePrimitiveType PrimitiveTypeConstantKinds
       isAfterAst activeNode maybeTrailingToken =
     AutocompletePrimitiveType.filterRecommendations PrimitiveTypeConstantKinds
       maybeTrailingToken) /\
  ((forall xorNode, In xorNode (ancestry activeNode) ->
      nodeKind (node xorNode) <> "TypePrimaryType" /\
      nodeKind (node xorNode) <> "Parameter") ->
   AutocompletePrimitiveType.autocompletePrimitiveType PrimitiveTypeConstantKinds
     isAfterAst activeNode maybeTrailingToken = []).
Proof.
  intros activeNode maybeTrailingToken. split.
  - intros leaf rest Hancestry Hkind.
    unfold AutocompletePrimitiveType.autocompletePrimitiveType,
           AutocompletePrimitiveType.traverseAncestors.
    assert (Hleaf : AutocompletePrimitiveType.inspectAncestor PrimitiveTypeConstantKinds
                      isAfterAst activeNode 0 = Some PrimitiveTypeConstantKinds).
    { unfold AutocompletePrimitiveType.inspectAncestor.
      rewrite Hancestry. cbn [nth_error]. rewrite Hkind. reflexivity. }
    rewrite Hancestry. cbn [List.length seq AutocompletePrimitiveType.traverseIndices].
    rewrite Hleaf. reflexivity.
  - intros Hnone.
    unfold AutocompletePrimitiveType.autocompletePrimitiveType,
           AutocompletePrimitiveType.traverseAncestors.
    assert (Hsilent : forall indices,
              AutocompletePrimitiveType.traverseIndices PrimitiveTypeConstantKinds
                isAfterAst activeNode indices = []).
    { induction indices as [|index indices IH]; simpl; [reflexivity|].
      unfold AutocompletePrimitiveType.inspectAncestor.
      destruct (nth_error (ancestry activeNode) index) as [parent|] eqn:Hparent;
        [|exact IH].
      destruct (Hnone parent (nth_error_In _ _ Hparent)) as [Htype Hparameter].
      apply String.eqb_neq in Htype, Hparameter. rewrite Htype, Hparameter.
      simpl. exact IH. }
    rewrite Hsilent. destruct maybeTrailingToken; reflexivity.
Qed.
End Primitive.

Lemma autocompletePrimitiveType_positions_witness :
  AutocompletePrimitiveType.autocompletePrimitiveType Carets.AfterType.primitiveTypes
    PositionUtils.isAfterAst Carets.LoneL.activeNode None = [].
Proof.
  apply (proj2 (autocompletePrimitiveType_positions Carets.AfterType.primitiveTypes
                  PositionUtils.isAfterAst Carets.LoneL.activeNode None)).
  intros xorNode [<-|[<-|[]]]; split; discriminate.
Defined.

Section Keywords.
Variable env : Collaborators.

Lemma last_cons : forall (A : Type) (l : list A) (x d : A),
  last (x :: l) d = last l x.
Proof.
  induction l as [|y l IH]; intros x d; [reflexivity|].
  change (last (x :: y :: l) d) with (last (y :: l) d).
  rewrite (IH y d), (IH y x). reflexivity.
Qed.

Lemma traverseFrom_first_answer : forall before state child ancestryIndex parent after inspected,
  (forall i silentParent silentChild,
     nth_error before i = Some silentParent ->
     nth_error (child :: before) i = Some silentChild ->
     dispatch env (stateAt state silentParent silentChild (ancestryIndex + i)) = Ok None) ->
  dispatch env (stateAt state parent (last before child)
                        (ancestryIndex + List.length before)) = Ok (Some inspected) ->
  traverseFrom env state child (before ++ parent :: after) ancestryIndex = Ok inspected.
Proof.
  induction before as [|p before IH];
    intros state child index parent after inspected Hsilent Hanswer.
  - simpl in *. rewrite Nat.add_0_r in Hanswer.
    unfold stateAt in Hanswer. rewrite Hanswer. reflexivity.
  - simpl app. simpl traverseFrom.
    pose proof (Hsilent 0 p child eq_refl eq_refl) as Hfirst.
    rewrite Nat.add_0_r in Hfirst. unfold stateAt in Hfirst. rewrite Hfirst.
    cbn [bindRes]. apply IH.
    + intros i sp sc Hsp Hsc.
      specialize (Hsilent (S i) sp sc Hsp Hsc).
      rewrite Nat.add_succ_r in Hsilent. exact Hsilent.
    + rewrite last_cons in Hanswer.
      replace (S index + List.length before) with (index + List.length (p :: before))
        by (simpl; lia).
      exact Hanswer.
Qed.

Lemma traverseFrom_no_answer : forall parents state child ancestryIndex,
  (forall i silentParent silentChild,
     nth_error parents i = Some silentParent ->
     nth_error (child :: parents) i = Some silentChild ->
     dispatch env (stateAt state silentParent silentChild (ancestryIndex + i)) = Ok None) ->
  traverseFrom env state child parents ancestryIndex = Ok [].
Proof.
  induction parents as [|p parents IH]; intros state child index Hsilent;
    [reflexivity|].
  simpl traverseFrom.
  pose proof (Hsilent 0 p child eq_refl eq_refl) as Hfirst.
  rewrite Nat.add_0_r in Hfirst. unfold stateAt in Hfirst. rewrite Hfirst.
  cbn [bindRes]. apply IH.
  intros i sp sc Hsp Hsc. specialize (Hsilent (S i) sp sc Hsp Hsc).
  rewrite Nat.add_succ_r in Hsilent. exact Hsilent.
Qed.

(** X14: the innermost answer wins.  [traverseAncestors] returns the
    suggestions of the first parent, going from the leaf towards the root,
    whose routine answers, each routine being given that parent, the node
    below it and the parent's index; it returns nothing when no routine
    answers. *)
Theorem traverseAncestors_innermost_answer : forall state leaf,
  (forall before parent after inspected,
     ancestry (activeNode state) = leaf :: before ++ parent :: after ->
     (forall i silentParent silentChild,
        nth_error before i = Some silentParent ->
        nth_error (leaf :: before) i = Some silentChild ->
        dispatch env (stateAt state silentParent silentChild (S i)) = Ok None) ->
     dispatch env (stateAt state parent (last before leaf) (S (List.length before)))
       = Ok (Some inspected) ->
     traverseAncestors env state = Ok inspected) /\
  (forall parents,
     ancestry (activeNode state) = leaf :: parents ->
     (forall i silentParent silentChild,
        nth_error parents i = Some silentParent ->
        nth_error (leaf :: parents) i = Some silentChild ->
        dispatch env (stateAt state silentParent silentChild (S i)) = Ok None) ->
     traverseAncestors env state = Ok []).
Proof.
  intros state leaf. split.
  - intros before parent after inspected Hancestry Hsilent Hanswer.
    unfold traverseAncestors. rewrite Hancestry.
    apply traverseFrom_first_answer; assumption.
  - intros parents Hancestry Hsilent.
    unfold traverseAncestors. rewrite Hancestry.
    apply traverseFrom_no_answer. exact Hsilent.
Qed.

Lemma maybeEdgeCase_sources : forall state maybeTrailingToken inspected,
  maybeEdgeCase env state maybeTrailingToken = Ok (Some inspected) ->
  forall keyword, In keyword inspected ->
    In keyword (StartOfDocumentKeywords env) \/ keyword = Keyword.As.
Proof.
  intros state maybeTrailingToken inspected. unfold maybeEdgeCase.
  destruct (ancestry (activeNode state)) as [|a0 [|a1 rest]]; try discriminate.
  match goal with
  | |- context [if ?c then Ok (Some (filter ?f ?l)) else _] => destruct c
  end.
  - intros [= <-] keyword Hin. left. apply filter_In in Hin. exact (proj1 Hin).
  - match goal with
    | |- context [if ?c then Ok (Some [Keyword.As]) else _] => destruct c
    end.
    + intros [= <-] keyword [<-|[]]. right. reflexivity.
    + match goal with
      | |- context [if ?c then _ else Ok None] => destruct c
      end; [|discriminate].
      destruct rest as [|a2 rest]; [discriminate|].
      destruct (String.eqb (nodeKind (node a2)) "FunctionExpression"); [|discriminate].
      intros [= <-] keyword [<-|[]]. right. reflexivity.
Qed.

Lemma handleConjunctions_sources : forall activeNode inspected maybeTrailingToken conjunctions,
  handleConjunctions env activeNode inspected maybeTrailingToken = Ok conjunctions ->
  forall keyword, In keyword conjunctions ->
    In keyword inspected \/ In keyword ConjunctionKeywords \/
    exists trailingToken,
      maybeTrailingToken = Some trailingToken /\
      In keyword (autocompleteKeywordTrailingText env inspected trailingToken None).
Proof.
  intros activeNode inspected maybeTrailingToken conjunctions. unfold handleConjunctions.
  assert (Hconcat : forall keyword,
            In keyword (concatUnique inspected ConjunctionKeywords) ->
            In keyword inspected \/ In keyword ConjunctionKeywords)
    by (intros keyword; apply AutocompleteFacts.concatUnique_In).
  destruct (leafKind activeNode);
    [intros [= <-] keyword Hin; left; exact Hin| |];
    (destruct (AncestryUtils.assertGetLeaf (ancestry activeNode)) as [leaf|];
       [|discriminate]; cbn [bindRes];
     destruct maybeTrailingToken as [trailingToken|];
     [destruct (isInOrOnPosition trailingToken);
        [intros [= <-] keyword Hin; right; right; exists trailingToken;
           split; [reflexivity|exact Hin]|]|];
     repeat match goal with
            | |- context [if ?c then _ else _] => destruct c
            end;
     intros [= <-] keyword Hin;
     solve [left; exact Hin | destruct (Hconcat keyword Hin); tauto]).
Qed.

(** X15: keyword autocomplete is closed over its sources.  Every keyword
    [autocompleteKeyword] returns is a start-of-document keyword or [as] (the
    edge cases), a conjunction keyword, a suggestion of the ancestry walk, or
    an output of the trailing-text adjustment. *)
Theorem autocompleteKeyword_sources :
  forall collection leafNodeIds activeNode maybeTrailingToken keywords,
    autocompleteKeyword env collection leafNodeIds activeNode maybeTrailingToken
      = Ok keywords ->
    forall keyword, In keyword keywords ->
      In keyword (StartOfDocumentKeywords env) \/
      keyword = Keyword.As \/
      In keyword ConjunctionKeywords \/
      (exists parent leaf inspected,
         traverseAncestors env
           (initialState collection leafNodeIds activeNode maybeTrailingToken parent leaf)
           = Ok inspected /\ In keyword inspected) \/
      (exists trailingToken inspected,
         maybeTrailingToken = Some trailingToken /\
         In keyword (autocompleteKeywordTrailingText env inspected trailingToken None)).
Proof.
  intros collection leafNodeIds activeNode maybeTrailingToken keywords.
  unfold autocompleteKeyword.
  destruct (AncestryUtils.assertGetLeaf (ancestry activeNode)) as [leaf|]; [|discriminate].
  cbn [bindRes].
  set (name := maybePositionNameOf env collection activeNode leaf).
  assert (Hfilter : forall inspected keyword,
            In keyword (filterRecommendations inspected name) -> In keyword inspected).
  { intros inspected keyword. destruct name; simpl; [|tauto].
    intros H. apply filter_In in H. exact (proj1 H). }
  destruct (Nat.ltb (List.length (ancestry activeNode)) 2).
  - destruct (handleConjunctions env activeNode [] maybeTrailingToken)
      as [conjunctions|] eqn:Hconj; [|discriminate].
    cbn [bindRes]. intros [= <-] keyword Hin. apply Hfilter in Hin.
    destruct (handleConjunctions_sources _ _ _ _ Hconj keyword Hin)
      as [[]|[H|(t & Ht & H)]].
    + right. right. left. exact H.
    + right. right. right. right. exists t, []. split; assumption.
  - destruct (nth_error (ancestry activeNode) 1) as [parent|]; [|discriminate].
    destruct (maybeEdgeCase env _ maybeTrailingToken) as [[early|]|] eqn:Hedge;
      [| |discriminate]; cbn [bindRes].
    + intros [= <-] keyword Hin.
      destruct (maybeEdgeCase_sources _ _ _ Hedge keyword Hin) as [H|H]; tauto.
    + destruct (traverseAncestors env _) as [inspected|] eqn:Hwalk; [|discriminate].
      cbn [bindRes].
      destruct (handleConjunctions env activeNode inspected maybeTrailingToken)
        as [conjunctions|] eqn:Hconj; [|discriminate].
      cbn [bindRes]. intros [= <-] keyword Hin. apply Hfilter in Hin.
      destruct (handleConjunctions_sources _ _ _ _ Hconj keyword Hin)
        as [H|[H|(t & Ht & H)]].
      * right. right. right. left. exists parent, leaf, inspected.
        split; [exact Hwalk|exact H].
      * right. right. left. exact H.
      * right. right. right. right. exists t, inspected. split; assumption.
Qed.

(** X16: with the caret on the leaf (OnAstNode) no conjunction keyword is
    added: when no edge case applies, the result is the suggestions of the
    ancestry walk, filtered by the text under the caret, and nothing at all
    for a one-node ancestry. *)
Theorem autocompleteKeyword_on_leaf :
  forall collection leafNodeIds activeNode maybeTrailingToken leaf rest,
    ancestry activeNode = leaf :: rest ->
    leafKind activeNode = OnAstNode ->
    (rest = [] ->
     autocompleteKeyword env collection leafNodeIds activeNode maybeTrailingToken = Ok []) /\
    (forall parent rest',
       rest = parent :: rest' ->
       maybeEdgeCase env
         (initialState collection leafNodeIds activeNode maybeTrailingToken parent leaf)
         maybeTrailingToken = Ok None ->
       autocompleteKeyword env collection leafNodeIds activeNode maybeTrailingToken =
       match traverseAncestors env
               (initialState collection leafNodeIds activeNode maybeTrailingToken
                             parent leaf) with
       | Ok inspected =>
           Ok (filterRecommendations inspected
                 (maybePositionNameOf env collection activeNode leaf))
       | Throw fault => Throw fault
       end).
Proof.
  intros collection leafNodeIds activeNode maybeTrailingToken leaf rest Hancestry Hleaf.
  split.
  - intros ->. unfold autocompleteKeyword. rewrite Hancestry.
    cbn [AncestryUtils.assertGetLeaf bindRes List.length Nat.ltb Nat.leb].
    unfold handleConjunctions. rewrite Hleaf. cbn [bindRes].
    destruct (maybePositionNameOf env collection activeNode leaf); reflexivity.
  - intros parent rest' -> Hedge. unfold autocompleteKeyword. rewrite Hancestry.
    cbn [AncestryUtils.assertGetLeaf bindRes List.length Nat.ltb Nat.leb nth_error].
    unfold initialState in Hedge. rewrite Hedge. cbn [bindRes].
    unfold initialState.
    destruct (traverseAncestors env _) as [inspected|]; [|reflexivity].
    cbn [bindRes]. unfold handleConjunctions. rewrite Hleaf. reflexivity.
Qed.
End Keywords.

Lemma autocompletePrimitiveType_closed_witness :
  In "number" Carets.AfterType.primitiveTypes.
Proof.
  apply (proj2 (autocompletePrimitiveType_closed Carets.AfterType.primitiveTypes
                  PositionUtils.isAfterAst Carets.AfterType.activeNode
                  (Some Carets.AfterType.trailing)) "number").
  vm_compute. tauto.
Defined.

(** [try true|]: the routine for the error handling expression answers. *)
Lemma traverseAncestors_innermost_answer_witness :
  traverseAncestors Carets.TryTrue.env
    (initialState Carets.emptyCollection [] Carets.TryTrue.activeNode None
                  Carets.TryTrue.errorHandlingExpression Carets.TryTrue.literalTrue)
  = Ok Keyword.ExpressionKeywords.
Proof.
  apply (proj1 (traverseAncestors_innermost_answer Carets.TryTrue.env
                  (initialState Carets.emptyCollection [] Carets.TryTrue.activeNode None
                     Carets.TryTrue.errorHandlingExpression Carets.TryTrue.literalTrue)
                  Carets.TryTrue.literalTrue)
           [] Carets.TryTrue.errorHandlingExpression []).
  - reflexivity.
  - intros i silentParent silentChild H. destruct i; discriminate.
  - reflexivity.
Defined.

Lemma autocompleteKeyword_sources_witness :
  In Keyword.True (StartOfDocumentKeywords Carets.TryTrue.env) \/
  Keyword.True = Keyword.As \/
  In Keyword.True ConjunctionKeywords \/
  (exists parent leaf inspected,
     traverseAncestors Carets.TryTrue.env
       (initialState Carets.emptyCollection [] Carets.TryTrue.activeNode None parent leaf)
       = Ok inspected /\ In Keyword.True inspected) \/
  (exists trailingToken inspected,
     @None TrailingToken = Some trailingToken /\
     In Keyword.True
        (autocompleteKeywordTrailingText Carets.TryTrue.env inspected trailingToken None)).
Proof.
  apply (autocompleteKeyword_sources Carets.TryTrue.env Carets.emptyCollection []
           Carets.TryTrue.activeNode None [Keyword.True]).
  - reflexivity.
  - left. reflexivity.
Defined.

Lemma autocompleteKeyword_on_leaf_witness :
  autocompleteKeyword Carets.env Carets.emptyCollection []
    (mkActiveNode (Carets.at0 0) [Carets.AfterOne.literalOne] OnAstNode None) None
  = Ok [].
Proof.
  apply (proj1 (autocompleteKeyword_on_leaf Carets.env Carets.emptyCollection []
                  (mkActiveNode (Carets.at0 0) [Carets.AfterOne.literalOne] OnAstNode None)
                  None Carets.AfterOne.literalOne [] eq_refl eq_refl)).
  reflexivity.
Defined.

End AutocompleteWalkFacts.

(* ------------------------------------------------------------------ *)
(** ** More on the operator tables and on typing with them *)

Module LookupTableFacts.
Import Js JsFacts BinOp KeyFacts PartialLookupFacts LookupFacts LookupKeys.
Local Open Scope list_scope.

Local Opaque Lookup PartialLookup.

Lemma components_lookupKey : forall l o r,
  countChar comma o = 0 -> countChar comma r = 0 ->
  components (lookupKey l o r) = (l, o, r).
Proof.
  intros l o r Ho Hr. unfold components.
  rewrite lookupKey_partial, (splitKey_append _ r Hr).
  unfold partialLookupKey. change (l ++ "," ++ o)%string with (l ++ String comma o)%string.
  rewrite (splitKey_append l o Ho). reflexivity.
Qed.

(** A check that passes on every entry holds of every successful lookup. *)
Lemma Lookup_forallEntries : forall check,
  forallEntries check Lookup = true ->
  forall l o r k, get (lookupKey l o r) Lookup = Some k -> check l o r k = true.
Proof.
  intros check Hall l o r k Hget. apply BinOpFacts.get_some_in in Hget.
  unfold forallEntries in Hall. rewrite forallb_forall in Hall.
  specialize (Hall _ Hget). cbn [fst snd] in Hall.
  assert (Htwo : countChar comma (lookupKey l o r) = 2).
  { apply Lookup_keys_two_commas. change (lookupKey l o r) with (fst (lookupKey l o r, k)).
    apply in_map. exact Hget. }
  rewrite countChar_lookupKey in Htwo.
  rewrite components_lookupKey in Hall by lia. exact Hall.
Qed.

(** X17: comparisons compare like with like and are logical.  Whenever the
    table types a relational or an equality operator, both operands have the
    same kind and the result kind is Logical. *)
Theorem Lookup_comparisons : forall l o r k,
  get (lookupKey l o r) Lookup = Some k ->
  isComparison o = true ->
  l = r /\ k = TypeKind.Logical.
Proof.
  intros l o r k Hget Hcomparison.
  assert (Hall : forallEntries
            (fun l o r k => if isComparison o
                            then String.eqb l r && String.eqb k TypeKind.Logical
                            else true) Lookup = true) by (vm_compute; reflexivity).
  pose proof (Lookup_forallEntries _ Hall l o r k Hget) as H. cbn beta in H.
  rewrite Hcomparison in H. apply Bool.andb_true_iff in H. destruct H as [Hl Hk].
  apply String.eqb_eq in Hl, Hk. split; assumption.
Qed.

Lemma Lookup_comparisons_witness :
  TypeKind.Text = TypeKind.Text /\ TypeKind.Logical = TypeKind.Logical.
Proof.
  apply (Lookup_comparisons TypeKind.Text "<=" TypeKind.Text TypeKind.Logical).
  - vm_compute. reflexivity.
  - reflexivity.
Defined.

(** X18: addition and multiplication are typed symmetrically: when the table
    types [l + r] (or [l * r]) it types [r + l] (or [r * l]) with the same
    result kind.  Concatenation is not: Date & Time is a DateTime, Time &
    Date has no entry. *)
Theorem Lookup_addition_multiplication_commute :
  (forall l o r k,
     get (lookupKey l o r) Lookup = Some k ->
     o = ArithmeticOperatorKind.Addition \/ o = ArithmeticOperatorKind.Multiplication ->
     get (lookupKey r o l) Lookup = Some k) /\
  get (lookupKey TypeKind.Date ArithmeticOperatorKind.And TypeKind.Time) Lookup
    = Some TypeKind.DateTime /\
  get (lookupKey TypeKind.Time ArithmeticOperatorKind.And TypeKind.Date) Lookup = None.
Proof.
  split; [|split; vm_compute; reflexivity].
  intros l o r k Hget Ho.
  assert (Hall : forallEntries
            (fun l o r k =>
               if String.eqb o ArithmeticOperatorKind.Addition
                  || String.eqb o ArithmeticOperatorKind.Multiplication
               then match get (lookupKey r o l) Lookup with
                    | Some k' => String.eqb k' k
                    | None => false
                    end
               else true) Lookup = true) by (vm_compute; reflexivity).
  pose proof (Lookup_forallEntries _ Hall l o r k Hget) as H. cbn beta in H.
  assert (Hop : String.eqb o ArithmeticOperatorKind.Addition
                || String.eqb o ArithmeticOperatorKind.Multiplication = true).
  { destruct Ho as [-> | ->]; reflexivity. }
  rewrite Hop in H.
  destruct (get (lookupKey r o l) Lookup) as [k'|]; [|discriminate].
  apply String.eqb_eq in H. subst k'. reflexivity.
Qed.

Lemma Lookup_addition_multiplication_commute_witness :
  get (lookupKey TypeKind.Duration "+" TypeKind.Date) Lookup = Some TypeKind.Date.
Proof.
  apply (proj1 Lookup_addition_multiplication_commute
           TypeKind.Date "+" TypeKind.Duration TypeKind.Date).
  - vm_compute. reflexivity.
  - left. reflexivity.
Defined.

Lemma NoDup_add : forall x s, NoDup s -> NoDup (add x s).
Proof.
  intros x s Hnd. unfold add, has.
  destruct (existsb (String.eqb x) s) eqn:Hex; [exact Hnd|].
  assert (Hnin : ~ In x s).
  { intros Hin. apply Bool.not_true_iff_false in Hex. apply Hex.
    apply existsb_exists. exists x. split; [exact Hin|apply String.eqb_refl]. }
  apply NoDup_rev in Hnd. rewrite <- (rev_involutive (s ++ [x])).
  apply NoDup_rev. rewrite rev_app_distr. simpl. constructor; [|exact Hnd].
  rewrite <- in_rev. exact Hnin.
Qed.

Lemma add_nonempty : forall x s, add x s <> [].
Proof.
  intros x s Hempty.
  assert (Hin : In x (add x s)) by (apply in_add_iff; left; reflexivity).
  rewrite Hempty in Hin. destruct Hin.
Qed.

Lemma setsAreSets_step : forall m key,
  setsAreSets m -> setsAreSets (partialLookupStep m key).
Proof.
  intros m key Hsets pk s. rewrite partialLookupStep_eq.
  destruct (get (fst (splitKey key)) m) as [old|] eqn:Hold.
  - destruct (string_dec (fst (splitKey key)) pk) as [<-|Hne].
    + rewrite get_set_same. intros [= <-].
      destruct (Hsets _ _ Hold) as [_ Hnd].
      split; [apply add_nonempty|apply NoDup_add; exact Hnd].
    + rewrite get_set_other by exact Hne. apply Hsets.
  - destruct (string_dec (fst (splitKey key)) pk) as [<-|Hne].
    + rewrite get_set_same. intros [= <-].
      split; [discriminate|]. constructor; [intros []|constructor].
    + rewrite get_set_other by exact Hne. apply Hsets.
Qed.

Lemma setsAreSets_build : forall ks, setsAreSets (buildPartialLookup ks).
Proof.
  intros ks. unfold buildPartialLookup.
  rewrite mapOfEntries_copy by exact (proj1 (indexes_fold ks)).
  induction ks as [|k ks IH] using rev_ind.
  - intros pk s H. discriminate.
  - rewrite fold_left_app. simpl. apply setsAreSets_step. exact IH.
Qed.

End LookupTableFacts.

(* ------------------------------------------------------------------ *)
(** ** More on typing a binary-operator expression *)

Module TypingFacts.
Import Js JsFacts BinOp KeyFacts PartialLookupFacts LookupFacts LookupKeys.
Local Open Scope list_scope.

Local Opaque Lookup PartialLookup.

(** X19: the value sets of a partial index are sets.  Whatever keys it is
    reduced from, every set filed in a partial index is non-empty and holds
    no kind twice; so it is for [PartialLookup]. *)
Theorem PartialLookup_sets :
  (forall lookupKeys, setsAreSets (buildPartialLookup lookupKeys)) /\
  (forall l o kinds,
     get (partialLookupKey l o) PartialLookup = Some kinds ->
     kinds <> [] /\ NoDup kinds).
Proof.
  split; [exact LookupTableFacts.setsAreSets_build|].
  intros l o kinds H.
  exact (LookupTableFacts.setsAreSets_build (keys Lookup) _ _ H).
Qed.

Lemma PartialLookup_sets_witness :
  ["Number"; "Duration"] <> [] /\ NoDup ["Number"; "Duration"].
Proof.
  apply (proj2 PartialLookup_sets "Number" "*").
  vm_compute. reflexivity.
Defined.

(** X20: [unionFields] keeps the left operand's fields in their order and
    appends the fields only the right operand has, in the right operand's
    order (the right operand being a Map, one entry per key). *)
Theorem combineFields_keys : forall rightFields leftFields,
  NoDup (keys rightFields) ->
  keys (combineFields leftFields rightFields) =
  keys leftFields ++
  filter (fun key => negb (existsb (String.eqb key) (keys leftFields))) (keys rightFields).
Proof.
  exact BinOpFacts.keys_combineFields.
Qed.

Lemma combineFields_keys_witness :
  keys (combineFields [("a", Primitive "Number" false); ("b", Primitive "Text" false)]
                      [("c", Primitive "Text" false); ("a", Primitive "Text" true)])
  = ["a"; "b"; "c"].
Proof.
  rewrite combineFields_keys.
  - reflexivity.
  - repeat constructor; simpl; intuition discriminate.
Defined.

(** X21: [inspectRecordOrTableUnion] throws exactly when a record meets a
    table, and then the InvariantError on the kinds; on two records or two
    tables it returns a type of that kind, and the branch marked as never
    reached is never reached. *)
Theorem inspectRecordOrTableUnion_classified : forall leftType rightType,
  (typeKindOf (toTType leftType) <> typeKindOf (toTType rightType) ->
   inspectRecordOrTableUnion leftType rightType =
   Throw (InvariantError "leftType.kind !== rightType.kind")) /\
  (typeKindOf (toTType leftType) = typeKindOf (toTType rightType) ->
   exists t, inspectRecordOrTableUnion leftType rightType = Ok t /\
             typeKindOf t = typeKindOf (toTType leftType)) /\
  inspectRecordOrTableUnion leftType rightType <>
  Throw (InvariantError "should never be reached").
Proof.
  intros [ln|ln|ln lf lo|ln lf lo] [rn|rn|rn rf ro|rn rf ro];
    (split; [|split]);
    try (intros H; exfalso; apply H; reflexivity);
    try (intros H; discriminate H);
    try (intros _; reflexivity);
    try (intros _; eexists; split; reflexivity);
    try discriminate.
Qed.

Lemma inspectRecordOrTableUnion_classified_witness :
  inspectRecordOrTableUnion (RecordT false) (TableT false) =
  Throw (InvariantError "leftType.kind !== rightType.kind").
Proof.
  apply (proj1 (inspectRecordOrTableUnion_classified (RecordT false) (TableT false))).
  discriminate.
Defined.

Lemma inspectRecordOrTableUnion_same_kind : forall leftType rightType,
  typeKindOf (toTType leftType) = typeKindOf (toTType rightType) ->
  exists t, inspectRecordOrTableUnion leftType rightType = Ok t /\
            typeKindOf t = typeKindOf (toTType leftType).
Proof.
  intros [ln|ln|ln lf lo|ln lf lo] [rn|rn|rn rf ro|rn rf ro] H;
    try discriminate H; eexists; split; reflexivity.
Qed.

(** Where the table sends [&] to Record or Table, both casts are sound and
    the union is a type of that kind. *)
Lemma concatenation_ok : forall leftType rightType k,
  get (lookupKey (typeKindOf leftType) ArithmeticOperatorKind.And
                 (typeKindOf rightType)) Lookup = Some k ->
  k = TypeKind.Record \/ k = TypeKind.Table ->
  exists l r t,
    asRecordOrTable leftType = Some l /\
    asRecordOrTable rightType = Some r /\
    inspectRecordOrTableUnion l r = Ok t /\
    typeKindOf t = k.
Proof.
  intros leftType rightType k Hget Hk.
  destruct (BinOpFacts.Lookup_record_or_table _ _ _ Hget Hk) as [HlK HrK].
  assert (Hshape : forall t, typeKindOf t = k ->
            exists rt, asRecordOrTable t = Some rt /\ typeKindOf (toTType rt) = k).
  { intros t Ht. destruct Hk as [-> | ->].
    - destruct (BinOpFacts.typeKind_record_shape t Ht)
        as [(n & -> & Ha)|(n & f & o & -> & Ha)];
        eexists; (split; [exact Ha|reflexivity]).
    - destruct (BinOpFacts.typeKind_table_shape t Ht)
        as [(n & -> & Ha)|(n & f & o & -> & Ha)];
        eexists; (split; [exact Ha|reflexivity]). }
  destruct (Hshape leftType HlK) as (l & Hla & Hlk).
  destruct (Hshape rightType HrK) as (r & Hra & Hrk).
  destruct (inspectRecordOrTableUnion_same_kind l r) as (t & Ht & Htk); [congruence|].
  exists l, r, t. repeat split; try assumption. congruence.
Qed.

Lemma NoDup_map_primitive : forall kinds nullable,
  NoDup kinds -> NoDup (List.map (fun k => Primitive k nullable) kinds).
Proof.
  induction kinds as [|k ks IH]; intros nullable Hnd; simpl; [constructor|].
  inversion Hnd as [|? ? Hk Hks]; subst. constructor; [|apply IH; exact Hks].
  intros Hin. apply in_map_iff in Hin. destruct Hin as (k' & Heq & Hk').
  injection Heq as ->. contradiction.
Qed.

Section Typing.
Variable isBinOp : string -> bool.
Variable inspectXor : InspectTypeState -> TXorNode -> Res TType.

(** The branch taken for [left op right]. *)
Lemma inspectType_full_branch :
  forall state xorNode children leftXor opXor rightXor operatorKind leftType rightType,
    isCancelled state = false ->
    isBinOp (nodeKind (node xorNode)) = true ->
    assertIterChildrenXor state (id (node xorNode)) = Ok children ->
    nth_error children 0 = Some leftXor ->
    nth_error children 1 = Some opXor ->
    kind opXor = Ast ->
    constantKind (node opXor) = Some operatorKind ->
    nth_error children 2 = Some rightXor ->
    kind rightXor = Ast ->
    inspectXor state leftXor = Ok leftType ->
    inspectXor state rightXor = Ok rightType ->
    inspectTypeTBinOpExpression isBinOp inspectXor state xorNode =
    match get (lookupKey (typeKindOf leftType) operatorKind (typeKindOf rightType)) Lookup with
    | None => Ok NoneInstance
    | Some resultTypeKind =>
        if String.eqb operatorKind ArithmeticOperatorKind.And
           && (String.eqb resultTypeKind TypeKind.Record
               || String.eqb resultTypeKind TypeKind.Table)
        then
          match asRecordOrTable leftType, asRecordOrTable rightType with
          | Some l, Some r => inspectRecordOrTableUnion l r
          | _, _ => Throw (InvariantError "not a record or table type")
          end
        else Ok (primitiveTypeFactory (isNullable leftType || isNullable rightType)
                                      resultTypeKind)
    end.
Proof.
  intros state xorNode children leftXor opXor rightXor operatorKind leftType rightType
         Hcancel Hkind Hchildren Hleft Hop HopAst Hconst Hright HrightAst Hl Hr.
  unfold inspectTypeTBinOpExpression.
  rewrite Hcancel, Hkind, Hchildren. unfold negb, bindRes, maybeOperatorKindOf.
  rewrite Hleft, Hop, HopAst. unfold XorNodeKind_eqb.
  rewrite Hconst, Hright. unfold isAbsentOrContext. rewrite HrightAst.
  rewrite Hl, Hr. reflexivity.
Qed.

(** X22: typing a complete [left op right] outside the record and table
    concatenation.  With no entry in the table the type is None; otherwise,
    unless the operator is [&] and the entry is Record or Table, it is the
    primitive of the entry's kind, nullable iff an operand's type is. *)
Theorem inspectType_full_lookup :
  forall state xorNode children leftXor opXor rightXor operatorKind leftType rightType,
    isCancelled state = false ->
    isBinOp (nodeKind (node xorNode)) = true ->
    assertIterChildrenXor state (id (node xorNode)) = Ok children ->
    nth_error children 0 = Some leftXor ->
    nth_error children 1 = Some opXor ->
    kind opXor = Ast ->
    constantKind (node opXor) = Some operatorKind ->
    nth_error children 2 = Some rightXor ->
    kind rightXor = Ast ->
    inspectXor state leftXor = Ok leftType ->
    inspectXor state rightXor = Ok rightType ->
    let key := lookupKey (typeKindOf leftType) operatorKind (typeKindOf rightType) in
    (get key Lookup = None ->
     inspectTypeTBinOpExpression isBinOp inspectXor state xorNode = Ok NoneInstance) /\
    (forall resultTypeKind,
       get key Lookup = Some resultTypeKind ->
       operatorKind <> ArithmeticOperatorKind.And \/
       (resultTypeKind <> TypeKind.Record /\ resultTypeKind <> TypeKind.Table) ->
       inspectTypeTBinOpExpression isBinOp inspectXor state xorNode =
       Ok (Primitive resultTypeKind (isNullable leftType || isNullable rightType))).
Proof.
  intros state xorNode children leftXor opXor rightXor operatorKind leftType rightType
         Hcancel Hkind Hchildren Hleft Hop HopAst Hconst Hright HrightAst Hl Hr key.
  rewrite (inspectType_full_branch state xorNode children leftXor opXor rightXor
             operatorKind leftType rightType Hcancel Hkind Hchildren Hleft Hop HopAst
             Hconst Hright HrightAst Hl Hr).
  fold key. split.
  - intros ->. reflexivity.
  - intros k -> Hother.
    assert (Hguard : String.eqb operatorKind ArithmeticOperatorKind.And
                     && (String.eqb k TypeKind.Record || String.eqb k TypeKind.Table)
                     = false).
    { destruct Hother as [Hop'|[Hrecord Htable]].
      - apply String.eqb_neq in Hop'. rewrite Hop'. reflexivity.
      - apply String.eqb_neq in Hrecord, Htable. rewrite Hrecord, Htable.
        apply Bool.andb_false_r. }
    rewrite Hguard. reflexivity.
Qed.

(** X23: what the partial table rules out, the full table rules out.  If
    [left op] alone has no entry in the partial table, then a complete
    [left op right] types to None whatever its right operand. *)
Theorem inspectType_partial_miss_is_full_miss :
  forall state xorNode children leftXor opXor rightXor operatorKind leftType rightType,
    isCancelled state = false ->
    isBinOp (nodeKind (node xorNode)) = true ->
    assertIterChildrenXor state (id (node xorNode)) = Ok children ->
    nth_error children 0 = Some leftXor ->
    nth_error children 1 = Some opXor ->
    kind opXor = Ast ->
    constantKind (node opXor) = Some operatorKind ->
    nth_error children 2 = Some rightXor ->
    kind rightXor = Ast ->
    inspectXor state leftXor = Ok leftType ->
    inspectXor state rightXor = Ok rightType ->
    get (partialLookupKey (typeKindOf leftType) operatorKind) PartialLookup = None ->
    inspectTypeTBinOpExpression isBinOp inspectXor state xorNode = Ok NoneInstance.
Proof.
  intros state xorNode children leftXor opXor rightXor operatorKind leftType rightType
         Hcancel Hkind Hchildren Hleft Hop HopAst Hconst Hright HrightAst Hl Hr Hmiss.
  rewrite (inspectType_full_branch state xorNode children leftXor opXor rightXor
             operatorKind leftType rightType Hcancel Hkind Hchildren Hleft Hop HopAst
             Hconst Hright HrightAst Hl Hr).
  destruct (get (lookupKey (typeKindOf leftType) operatorKind (typeKindOf rightType))
                Lookup) as [k|] eqn:Hget; [exfalso|reflexivity].
  assert (Hin : In (lookupKey (typeKindOf leftType) operatorKind (typeKindOf rightType))
                   (keys Lookup)) by exact (get_some_in_keys _ _ _ _ Hget).
  assert (Hidx : indexes PartialLookup (keys Lookup))
    by exact (indexes_buildPartialLookup (keys Lookup)).
  destruct Hidx as (_ & Hfiled & _).
  destruct (Hfiled _ Hin) as (s & Hs & _).
  rewrite (splitKey_lookupKey _ _ _ Hin) in Hs. cbn [fst] in Hs.
  rewrite Hmiss in Hs. discriminate.
Qed.

(** X24: concatenating records or tables never throws.  When [&] is typed
    over two operands and the table yields Record or Table, the unchecked
    casts are sound, the kinds agree, and the result is a type of that
    kind. *)
Theorem inspectType_concatenation_total :
  forall state xorNode children leftXor opXor rightXor leftType rightType k,
    isCancelled state = false ->
    isBinOp (nodeKind (node xorNode)) = true ->
    assertIterChildrenXor state (id (node xorNode)) = Ok children ->
    nth_error children 0 = Some leftXor ->
    nth_error children 1 = Some opXor ->
    kind opXor = Ast ->
    constantKind (node opXor) = Some ArithmeticOperatorKind.And ->
    nth_error children 2 = Some rightXor ->
    kind rightXor = Ast ->
    inspectXor state leftXor = Ok leftType ->
    inspectXor state rightXor = Ok rightType ->
    get (lookupKey (typeKindOf leftType) ArithmeticOperatorKind.And
                   (typeKindOf rightType)) Lookup = Some k ->
    k = TypeKind.Record \/ k = TypeKind.Table ->
    exists l r t,
      asRecordOrTable leftType = Some l /\
      asRecordOrTable rightType = Some r /\
      inspectTypeTBinOpExpression isBinOp inspectXor state xorNode = Ok t /\
      typeKindOf t = k.
Proof.
  intros state xorNode children leftXor opXor rightXor leftType rightType k
         Hcancel Hkind Hchildren Hleft Hop HopAst Hconst Hright HrightAst
         Hl Hr Hget Hk.
  rewrite (BinOpFacts.inspectType_and_branch isBinOp inspectXor state xorNode children
             leftXor opXor rightXor leftType rightType k Hcancel Hkind Hchildren Hleft
             Hop HopAst Hconst Hright HrightAst Hl Hr Hget Hk).
  destruct (concatenation_ok leftType rightType k Hget Hk)
    as (l & r & t & Hla & Hra & Ht & Htk).
  rewrite Hla, Hra. exists l, r, t. repeat split; assumption.
Qed.

(** X25: an unfinished [left op] never types to a degenerate union.  When the
    result is an AnyUnion, it is nullable and has at least two members, no
    two of them alike. *)
Theorem inspectType_partial_union :
  forall state xorNode children leftXor opXor operatorKind leftType nullable members,
    isCancelled state = false ->
    isBinOp (nodeKind (node xorNode)) = true ->
    assertIterChildrenXor state (id (node xorNode)) = Ok children ->
    nth_error children 0 = Some leftXor ->
    nth_error children 1 = Some opXor ->
    kind opXor = Ast ->
    constantKind (node opXor) = Some operatorKind ->
    isAbsentOrContext (nth_error children 2) = true ->
    inspectXor state leftXor = Ok leftType ->
    inspectTypeTBinOpExpression isBinOp inspectXor state xorNode =
      Ok (AnyUnion nullable members) ->
    nullable = true /\ 2 <= List.length members /\ NoDup members.
Proof.
  intros state xorNode children leftXor opXor operatorKind leftType nullable members
         Hcancel Hkind Hchildren Hleft Hop HopAst Hconst Hright Hinspect Hresult.
  rewrite (BinOpFacts.inspectType_partial_branch isBinOp inspectXor state xorNode
             children leftXor opXor operatorKind leftType Hcancel Hkind Hchildren Hleft
             Hop HopAst Hconst Hright Hinspect) in Hresult.
  destruct (get (partialLookupKey (typeKindOf leftType) operatorKind) PartialLookup)
    as [kinds|] eqn:Hget; [|discriminate Hresult].
  assert (Hsets : kinds <> [] /\ NoDup kinds)
    by exact (LookupTableFacts.setsAreSets_build (keys Lookup) _ _ Hget).
  destruct Hsets as [Hne Hnd].
  destruct kinds as [|k1 [|k2 rest]]; [contradiction| discriminate Hresult |].
  unfold anyUnionFactory in Hresult. injection Hresult as Hn Hm. subst nullable members.
  split; [reflexivity|]. split; [simpl; lia|].
  exact (NoDup_map_primitive (k1 :: k2 :: rest) true Hnd).
Qed.

(** X26: every failure has a cause outside the tables.  A throw of
    [inspectTypeTBinOpExpression] is the cancellation, the assertion on the
    node's kind, a throw of the children iterator, or a throw of [inspectXor]
    on the first or the third child; the record or table union never fails
    here. *)
Theorem inspectType_throws : forall state xorNode fault,
  inspectTypeTBinOpExpression isBinOp inspectXor state xorNode = Throw fault ->
  (isCancelled state = true /\ fault = CancellationError) \/
  (isBinOp (nodeKind (node xorNode)) = false /\
   fault = InvariantError "xorNode isn't a TBinOpExpression") \/
  assertIterChildrenXor state (id (node xorNode)) = Throw fault \/
  (exists children child,
     assertIterChildrenXor state (id (node xorNode)) = Ok children /\
     (nth_error children 0 = Some child \/ nth_error children 2 = Some child) /\
     inspectXor state child = Throw fault).
Proof.
  intros state xorNode fault H. unfold inspectTypeTBinOpExpression in H.
  destruct (isCancelled state) eqn:Hcancel.
  { left. injection H as <-. split; reflexivity. }
  destruct (isBinOp (nodeKind (node xorNode))) eqn:Hkind; cbn [negb] in H.
  2:{ right. left. injection H as <-. split; reflexivity. }
  destruct (assertIterChildrenXor state (id (node xorNode))) as [children|f] eqn:Hchildren;
    cbn [bindRes] in H.
  2:{ right. right. left. injection H as <-. reflexivity. }
  right. right. right. exists children.
  destruct (nth_error children 0) as [leftXor|] eqn:Hleft; [|discriminate H].
  destruct (maybeOperatorKindOf children) as [operatorKind|].
  2:{ exists leftXor. split; [reflexivity|]. split; [left; reflexivity|exact H]. }
  destruct (isAbsentOrContext (nth_error children 2)).
  - destruct (inspectXor state leftXor) as [leftType|f] eqn:Hl; cbn [bindRes] in H.
    + exfalso.
      destruct (get (partialLookupKey (typeKindOf leftType) operatorKind) PartialLookup)
        as [[|k1 [|k2 rest]]|]; discriminate H.
    + exists leftXor. split; [reflexivity|]. split; [left; reflexivity|].
      rewrite Hl. exact H.
  - destruct (nth_error children 2) as [rightXor|] eqn:Hright; [|discriminate H].
    destruct (inspectXor state leftXor) as [leftType|f] eqn:Hl; cbn [bindRes] in H.
    2:{ exists leftXor. split; [reflexivity|]. split; [left; reflexivity|].
        rewrite Hl. exact H. }
    destruct (inspectXor state rightXor) as [rightType|f] eqn:Hr; cbn [bindRes] in H.
    2:{ exists rightXor. split; [reflexivity|]. split; [right; reflexivity|].
        rewrite Hr. exact H. }
    exfalso.
    destruct (get (lookupKey (typeKindOf leftType) operatorKind (typeKindOf rightType))
                  Lookup) as [k|] eqn:Hget; [|discriminate H].
    destruct (String.eqb operatorKind ArithmeticOperatorKind.And
              && (String.eqb k TypeKind.Record || String.eqb k TypeKind.Table)) eqn:Hguard;
      [|discriminate H].
    apply Bool.andb_true_iff in Hguard. destruct Hguard as [Hand Hk].
    apply String.eqb_eq in Hand. subst operatorKind.
    assert (Hk' : k = TypeKind.Record \/ k = TypeKind.Table).
    { apply Bool.orb_true_iff in Hk.
      destruct Hk as [Hk|Hk]; apply String.eqb_eq in Hk; [left|right]; exact Hk. }
    destruct (concatenation_ok leftType rightType k Hget Hk')
      as (l & r & t & Hla & Hra & Ht & _).
    rewrite Hla, Hra, Ht in H. discriminate H.
Qed.
End Typing.

Lemma inspectType_full_lookup_witness :
  inspectTypeTBinOpExpression isTBinOpExpressionKind inspectXorLiteral
    (Operands.stateOf Operands.onePlusTwo false) Operands.expression
  = Ok (Primitive "Number" false).
Proof.
  assert (Hget : get (lookupKey "Number" "+" "Number") Lookup = Some "Number")
    by (vm_compute; reflexivity).
  refine (proj2 (inspectType_full_lookup isTBinOpExpressionKind inspectXorLiteral
            (Operands.stateOf Operands.onePlusTwo false) Operands.expression
            Operands.onePlusTwo Operands.one (Operands.operator "+") Operands.two "+"
            (Primitive "Number" false) (Primitive "Number" false)
            eq_refl eq_refl eq_refl eq_refl eq_refl eq_refl eq_refl eq_refl eq_refl
            eq_refl eq_refl) "Number" Hget (or_introl _)).
  discriminate.
Defined.

Lemma inspectType_partial_miss_is_full_miss_witness :
  inspectTypeTBinOpExpression isTBinOpExpressionKind inspectXorLiteral
    (Operands.stateOf Operands.textPlusOne false) Operands.expression
  = Ok NoneInstance.
Proof.
  assert (Hmiss : get (partialLookupKey "Text" "+") PartialLookup = None)
    by (vm_compute; reflexivity).
  exact (inspectType_partial_miss_is_full_miss isTBinOpExpressionKind inspectXorLiteral
           (Operands.stateOf Operands.textPlusOne false) Operands.expression
           Operands.textPlusOne Operands.textA (Operands.operator "+") Operands.rightOne
           "+" (Primitive "Text" false) (Primitive "Number" false)
           eq_refl eq_refl eq_refl eq_refl eq_refl eq_refl eq_refl eq_refl eq_refl
           eq_refl eq_refl Hmiss).
Defined.

Lemma inspectType_concatenation_total_witness :
  exists l r t,
    asRecordOrTable RecordAnd.leftType = Some l /\
    asRecordOrTable RecordAnd.rightType = Some r /\
    inspectTypeTBinOpExpression isTBinOpExpressionKind RecordAnd.inspectXor
      RecordAnd.state RecordAnd.arithmeticExpression = Ok t /\
    typeKindOf t = TypeKind.Record.
Proof.
  assert (Hget : get (lookupKey (typeKindOf RecordAnd.leftType) ArithmeticOperatorKind.And
                                (typeKindOf RecordAnd.rightType)) Lookup
                 = Some TypeKind.Record) by (vm_compute; reflexivity).
  exact (inspectType_concatenation_total isTBinOpExpressionKind
           RecordAnd.inspectXor RecordAnd.state RecordAnd.arithmeticExpression
           [RecordAnd.leftRecord; RecordAnd.ampersand; RecordAnd.rightRecord]
           RecordAnd.leftRecord RecordAnd.ampersand RecordAnd.rightRecord
           RecordAnd.leftType RecordAnd.rightType TypeKind.Record
           eq_refl eq_refl eq_refl eq_refl eq_refl eq_refl eq_refl eq_refl
           eq_refl eq_refl eq_refl Hget (or_introl eq_refl)).
Defined.

Lemma inspectType_partial_union_witness :
  true = true /\
  2 <= List.length [Primitive "Number" true; Primitive "Duration" true] /\
  NoDup [Primitive "Number" true; Primitive "Duration" true].
Proof.
  assert (Hresult :
    inspectTypeTBinOpExpression isTBinOpExpressionKind inspectXorLiteral
      (Operands.stateOf Operands.oneTimes false) Operands.openExpression
    = Ok (AnyUnion true [Primitive "Number" true; Primitive "Duration" true]))
    by (vm_compute; reflexivity).
  exact (inspectType_partial_union isTBinOpExpressionKind inspectXorLiteral
           (Operands.stateOf Operands.oneTimes false) Operands.openExpression
           Operands.oneTimes Operands.one (Operands.operator "*") "*"
           (Primitive "Number" false) true
           [Primitive "Number" true; Primitive "Duration" true]
           eq_refl eq_refl eq_refl eq_refl eq_refl eq_refl eq_refl eq_refl eq_refl
           Hresult).
Defined.

Lemma inspectType_throws_witness :
  (true = true /\ CancellationError = CancellationError) \/
  (isTBinOpExpressionKind "ArithmeticExpression" = false /\
   CancellationError = InvariantError "xorNode isn't a TBinOpExpression") \/
  (Ok Operands.onePlusTwo : Res (list TXorNode)) = Throw CancellationError \/
  (exists children child,
     (Ok Operands.onePlusTwo : Res (list TXorNode)) = Ok children /\
     (nth_error children 0 = Some child \/ nth_error children 2 = Some child) /\
     inspectXorLiteral (Operands.stateOf Operands.onePlusTwo true) child
     = Throw CancellationError).
Proof.
  exact (inspectType_throws isTBinOpExpressionKind inspectXorLiteral
           (Operands.stateOf Operands.onePlusTwo true) Operands.expression
           CancellationError eq_refl).
Defined.

End TypingFacts.

(* ------------------------------------------------------------------ *)
(** ** More on column numbers *)

Module ColumnNumberFacts.
Import StringUtils StringUtilsFacts.
Local Open Scope list_scope.
Local Open Scope Z_scope.

Lemma firstn_sum_ge : forall gs k,
  Forall (fun g => 0 < codeUnits g) gs ->
  (k <= List.length gs)%nat ->
  Z.of_nat k <= summedLength (firstn k gs).
Proof.
  induction gs as [|g gs IH]; intros k Hpos Hk; simpl in Hk.
  - assert (k = 0%nat) by lia. subst k. simpl. lia.
  - inversion Hpos as [|? ? Hg Hgs]; subst. destruct k as [|k]; simpl; [lia|].
    assert (Hk' : (k <= List.length gs)%nat) by lia.
    specialize (IH k Hgs Hk'). lia.
Qed.

Lemma firstn_sum_mono : forall gs j k,
  (j <= k)%nat -> summedLength (firstn j gs) <= summedLength (firstn k gs).
Proof.
  induction gs as [|g gs IH]; intros j k Hjk.
  - rewrite !firstn_nil. lia.
  - destruct j as [|j]; simpl.
    + pose proof (summedLength_nonneg (firstn k (g :: gs))). simpl in *. lia.
    + destruct k as [|k]; [lia|]. simpl.
      assert (Hjk' : (j <= k)%nat) by lia. specialize (IH j k Hjk'). lia.
Qed.

Lemma firstn_sum_units : forall gs k,
  Forall (fun g => codeUnits g = 1) gs ->
  (k <= List.length gs)%nat ->
  summedLength (firstn k gs) = Z.of_nat k.
Proof.
  induction gs as [|g gs IH]; intros k Hone Hk; simpl in Hk.
  - assert (k = 0%nat) by lia. subst k. reflexivity.
  - inversion Hone as [|? ? Hg Hgs]; subst. destruct k as [|k]; simpl; [reflexivity|].
    assert (Hk' : (k <= List.length gs)%nat) by lia.
    rewrite (IH k Hgs Hk'). lia.
Qed.

Section ColumnNumber.
Variable splitGraphemes : string -> list string.
(** The splitter's contract: graphemes are non-empty and concatenate back
    to the text. *)
Hypothesis graphemes_nonempty :
  forall text, Forall (fun g => 0 < codeUnits g) (splitGraphemes text).
Hypothesis graphemes_concat :
  forall text, String.concat "" (splitGraphemes text) = text.

Lemma columnNumberFrom_prefix : forall text r v,
  columnNumberFrom splitGraphemes text r = Ok v ->
  exists k, (k < List.length (splitGraphemes text))%nat /\ v = Z.of_nat k /\
            summedLength (firstn k (splitGraphemes text)) = r.
Proof.
  intros text r v H. unfold columnNumberFrom in H.
  apply (columnNumberLoop_spec _ r 0 0 (graphemes_nonempty text) v) in H.
  destruct H as (k & Hk & Hv & Hs). exists k. repeat split; lia.
Qed.

(** X27: a column number is never past its code unit.  When
    [columnNumberFrom text r] returns [v], [r] is a code unit of the text and
    [0 <= v <= r]; for a code unit that is negative, or at or past the end of
    the text, it throws the InvariantError. *)
Theorem columnNumberFrom_bounds : forall text r,
  (forall v, columnNumberFrom splitGraphemes text r = Ok v ->
     0 <= v <= r /\ r < codeUnits text) /\
  (r < 0 \/ codeUnits text <= r ->
   columnNumberFrom splitGraphemes text r =
   Throw (InvariantError "no columnNumber can be generated for required codeUnit")).
Proof.
  intros text r.
  assert (Hbounds : forall v, columnNumberFrom splitGraphemes text r = Ok v ->
            0 <= v <= r /\ r < codeUnits text).
  { intros v H. destruct (columnNumberFrom_prefix text r v H) as (k & Hk & -> & Hs).
    pose proof (graphemes_nonempty text) as Hpos.
    assert (Hk' : (k <= List.length (splitGraphemes text))%nat) by lia.
    pose proof (firstn_sum_ge _ k Hpos Hk') as Hge.
    pose proof (firstn_strict_sum_lt _ k Hpos Hk) as Hlt.
    rewrite <- (concat_length_summed (splitGraphemes text)) in Hlt.
    rewrite graphemes_concat in Hlt. lia. }
  split; [exact Hbounds|].
  intros Hout. apply columnNumberLoop_throws. intros v Hv.
  destruct (Hbounds v Hv) as [? ?]. lia.
Qed.

(** X28: column numbers grow with code units.  Of two code units that both
    have a column number, the later one has the greater column number; so
    two code units never share a column. *)
Theorem columnNumberFrom_monotone : forall text r1 r2 v1 v2,
  columnNumberFrom splitGraphemes text r1 = Ok v1 ->
  columnNumberFrom splitGraphemes text r2 = Ok v2 ->
  (r1 < r2 -> v1 < v2) /\ (v1 = v2 -> r1 = r2).
Proof.
  intros text r1 r2 v1 v2 H1 H2.
  destruct (columnNumberFrom_prefix text r1 v1 H1) as (k1 & Hk1 & -> & Hs1).
  destruct (columnNumberFrom_prefix text r2 v2 H2) as (k2 & Hk2 & -> & Hs2).
  split.
  - intros Hlt. destruct (Nat.lt_ge_cases k1 k2) as [Hk|Hk]; [lia|].
    pose proof (firstn_sum_mono (splitGraphemes text) k2 k1 Hk). lia.
  - intros Heq. assert (k1 = k2) by lia. subst k2. lia.
Qed.

(** X29: on a text whose graphemes are all one code unit long, the column
    number of a code unit of the text is that code unit. *)
Theorem columnNumberFrom_single_code_units : forall text r,
  Forall (fun g => codeUnits g = 1) (splitGraphemes text) ->
  0 <= r < codeUnits text ->
  columnNumberFrom splitGraphemes text r = Ok r.
Proof.
  intros text r Hone Hr. unfold columnNumberFrom.
  apply (columnNumberLoop_spec _ r 0 0 (graphemes_nonempty text) r).
  assert (Hlen : Z.of_nat (List.length (splitGraphemes text)) = codeUnits text).
  { rewrite <- (firstn_sum_units _ _ Hone (Nat.le_refl _)).
    rewrite firstn_all, <- concat_length_summed, graphemes_concat. reflexivity. }
  exists (Z.to_nat r). split; [lia|]. split; [lia|].
  rewrite (firstn_sum_units _ _ Hone); lia.
Qed.
End ColumnNumber.

Lemma splitCodeUnits_units : forall text,
  Forall (fun g => codeUnits g = 1) (splitCodeUnits text).
Proof.
  induction text as [|c text IH]; simpl; constructor; [reflexivity|exact IH].
Qed.

Lemma columnNumberFrom_bounds_witness :
  (0 <= 2 <= 2 /\ 2 < codeUnits "let") /\
  columnNumberFrom splitCodeUnits "let" (-1) =
  Throw (InvariantError "no columnNumber can be generated for required codeUnit").
Proof.
  pose proof (columnNumberFrom_bounds splitCodeUnits
                splitCodeUnits_nonempty splitCodeUnits_concat "let") as H.
  split.
  - apply (proj1 (H 2) 2). reflexivity.
  - apply (proj2 (H (-1))). left. lia.
Defined.

Lemma columnNumberFrom_monotone_witness :
  (1 < 2 -> 1 < 2) /\ (1 = 2 -> 1 = 2).
Proof.
  exact (columnNumberFrom_monotone splitCodeUnits
           splitCodeUnits_nonempty "let" 1 2 1 2 eq_refl eq_refl).
Defined.

Lemma columnNumberFrom_single_code_units_witness :
  columnNumberFrom splitCodeUnits "let" 1 = Ok 1.
Proof.
  apply (columnNumberFrom_single_code_units splitCodeUnits splitCodeUnits_nonempty
           splitCodeUnits_concat "let" 1 (splitCodeUnits_units "let")).
  unfold codeUnits. simpl. lia.
Defined.

End ColumnNumberFacts.

(* ------------------------------------------------------------------ *)
(** ** The caret marker of the tests *)

Module AssertUtilsFacts.
Import Js AssertUtils KeyFacts.

Lemma indexOf_none_iff : forall c s,
  (-1 <= indexOf c s)%Z /\ (indexOf c s = (-1)%Z <-> countChar c s = 0%nat).
Proof.
  induction s as [|a s [IHb IHa]]; simpl; [split; [lia|split; reflexivity]|].
  destruct (Ascii.eqb a c); simpl.
  - split; [lia|]. split; intros H; [lia|discriminate].
  - destruct (Z.leb_spec 0 (indexOf c s)) as [Hge|Hlt].
    + split; [lia|]. split; intros H; [lia|].
      apply IHa in H. lia.
    + split; [lia|]. split; intros _; [apply IHa; lia|reflexivity].
Qed.

Lemma lastIndexOf_none_iff : forall c s,
  (-1 <= lastIndexOf c s)%Z /\ (lastIndexOf c s = (-1)%Z <-> countChar c s = 0%nat).
Proof.
  induction s as [|a s [IHb IHa]]; simpl; [split; [lia|split; reflexivity]|].
  destruct (Z.leb_spec 0 (lastIndexOf c s)) as [Hge|Hlt].
  - split; [lia|]. split; intros H; [lia|].
    assert (Hrest : countChar c s = 0%nat) by lia. apply IHa in Hrest. lia.
  - assert (Hrest : countChar c s = 0%nat) by (apply IHa; lia).
    destruct (Ascii.eqb a c); simpl.
    + split; [lia|]. split; intros H; [lia|discriminate].
    + split; [lia|]. split; intros _; [exact Hrest|reflexivity].
Qed.

(** The first and the last index agree exactly on one occurrence. *)
Lemma indexOf_is_lastIndexOf : forall c s,
  ((0 <= indexOf c s)%Z /\ indexOf c s = lastIndexOf c s) <-> countChar c s = 1%nat.
Proof.
  induction s as [|a s IH]; simpl; [split; [lia|discriminate]|].
  destruct (indexOf_none_iff c s) as [Hib Hia].
  destruct (lastIndexOf_none_iff c s) as [Hlb Hla].
  destruct (Ascii.eqb a c); simpl.
  - destruct (Z.leb_spec 0 (lastIndexOf c s)) as [Hge|Hlt].
    + split; [lia|]. intros H. assert (Hrest : countChar c s = 0%nat) by lia.
      apply Hla in Hrest. lia.
    + split; [|lia]. intros _. f_equal. apply Hla. lia.
  - destruct (Z.leb_spec 0 (indexOf c s)) as [Hige|Hilt];
      destruct (Z.leb_spec 0 (lastIndexOf c s)) as [Hlge|Hllt].
    + rewrite <- IH. split; intros [? ?]; split; lia.
    + assert (Hrest : countChar c s = 0%nat) by (apply Hla; lia).
      apply Hia in Hrest. lia.
    + assert (Hrest : countChar c s = 0%nat) by (apply Hia; lia).
      apply Hla in Hrest. lia.
    + assert (Hrest : countChar c s = 0%nat) by (apply Hia; lia).
      split; [lia|]. intros H. lia.
Qed.

(** Where the text has the character, it splits at its first occurrence. *)
Lemma indexOf_split : forall c s,
  (0 <= indexOf c s)%Z ->
  exists before after,
    s = before ++ String c after /\
    countChar c before = 0%nat /\
    indexOf c s = Z.of_nat (String.length before) /\
    removeFirst c s = before ++ after.
Proof.
  induction s as [|a s IH]; simpl; intros H; [lia|].
  destruct (Ascii.eqb_spec a c) as [->|Hne].
  - exists EmptyString, s. repeat split.
  - destruct (Z.leb_spec 0 (indexOf c s)) as [Hge|Hlt]; [|lia].
    destruct (IH Hge) as (before & after & Hs & Hcount & Hidx & Hrm).
    exists (String a before), after. simpl.
    apply Ascii.eqb_neq in Hne. rewrite Hne.
    repeat split; [congruence|exact Hcount|lia|congruence].
Qed.

Lemma indexOf_append : forall c before after,
  countChar c before = 0%nat ->
  indexOf c (before ++ String c after) = Z.of_nat (String.length before) /\
  removeFirst c (before ++ String c after) = before ++ after.
Proof.
  induction before as [|a before IH]; intros after Hcount; simpl.
  - rewrite Ascii.eqb_refl. split; reflexivity.
  - simpl in Hcount. destruct (Ascii.eqb a c); [discriminate|].
    destruct (IH after Hcount) as [Hidx Hrm]. rewrite Hidx, Hrm.
    destruct (Z.leb_spec 0 (Z.of_nat (String.length before))); [|lia].
    split; [lia|reflexivity].
Qed.

Lemma countChar_marker : forall c before after,
  countChar c (before ++ String c after) = S (countChar c before + countChar c after).
Proof.
  intros c before after. rewrite countChar_append.
  cbn [countChar]. rewrite Ascii.eqb_refl. lia.
Qed.

Lemma substring_append_left : forall before after,
  String.substring 0 (String.length before) (before ++ after) = before.
Proof.
  induction before as [|a before IH]; intros after; simpl.
  - destruct after; reflexivity.
  - rewrite IH. reflexivity.
Qed.

Lemma substring_append_right : forall before after,
  String.substring (String.length before) (String.length after) (before ++ after) = after.
Proof.
  induction before as [|a before IH]; intros after; simpl; [|apply IH].
  induction after as [|b after IHa]; simpl; [reflexivity|].
  rewrite IHa. reflexivity.
Qed.

(** X30: the caret marker round trip.  [assertGetTextWithPosition] returns
    exactly on a text with one [|]: the text without the marker and, on line
    0, the code unit where the marker stood, so that putting a [|] back there
    gives the text again.  Without a marker, and with two or more, it fails
    the matching expectation. *)
Theorem assertGetTextWithPosition_round_trip : forall text,
  (forall t position,
     assertGetTextWithPosition text = Ok (t, position) <->
     exists before after,
       text = before ++ String pipe after /\
       countChar pipe before = 0%nat /\ countChar pipe after = 0%nat /\
       t = before ++ after /\
       position = mkPosition 0 (Z.of_nat (String.length before))) /\
  (forall t position,
     assertGetTextWithPosition text = Ok (t, position) ->
     countChar pipe t = 0%nat /\
     insertAt pipe (Z.to_nat (lineCodeUnit position)) t = text) /\
  (countChar pipe text = 0%nat ->
   assertGetTextWithPosition text = Throw (ForeignFault "text must have | marker")) /\
  (2 <= countChar pipe text ->
   assertGetTextWithPosition text =
   Throw (ForeignFault "text must have one and only one '|'")).
Proof.
  intros text.
  destruct (indexOf_none_iff pipe text) as [Hib Hia].
  pose proof (indexOf_is_lastIndexOf pipe text) as Hone.
  assert (Hiff : forall t position,
     assertGetTextWithPosition text = Ok (t, position) <->
     exists before after,
       text = before ++ String pipe after /\
       countChar pipe before = 0%nat /\ countChar pipe after = 0%nat /\
       t = before ++ after /\
       position = mkPosition 0 (Z.of_nat (String.length before))).
  { intros t position. unfold assertGetTextWithPosition. split.
    - destruct (Z.ltb_spec (-1) (indexOf pipe text)) as [Hge|Hlt]; [|discriminate].
      destruct (Z.eqb_spec (indexOf pipe text) (lastIndexOf pipe text)) as [Heq|Hne];
        [|discriminate].
      cbn [negb]. intros [= <- <-].
      assert (Hcount : countChar pipe text = 1%nat) by (apply Hone; split; [lia|exact Heq]).
      destruct (indexOf_split pipe text) as (before & after & Htext & Hb & Hidx & Hrm);
        [lia|].
      exists before, after. rewrite Hrm, Hidx.
      repeat split; try assumption.
      rewrite Htext, countChar_marker in Hcount. lia.
    - intros (before & after & -> & Hb & Ha & -> & ->).
      destruct (indexOf_append pipe before after Hb) as [Hidx Hrm].
      assert (Hcount : countChar pipe (before ++ String pipe after) = 1%nat).
      { rewrite countChar_marker. lia. }
      apply indexOf_is_lastIndexOf in Hcount. destruct Hcount as [Hge Heq].
      rewrite <- Heq, Z.eqb_refl, Hidx, Hrm.
      destruct (Z.ltb_spec (-1) (Z.of_nat (String.length before))); [reflexivity|lia]. }
  split; [exact Hiff|]. split; [|split].
  - intros t position H. apply Hiff in H.
    destruct H as (before & after & -> & Hb & Ha & -> & ->).
    split; [rewrite countChar_append; lia|].
    unfold insertAt. cbn [lineCodeUnit]. rewrite Nat2Z.id, length_append.
    replace (String.length before + String.length after - String.length before)%nat
      with (String.length after) by lia.
    rewrite substring_append_left, substring_append_right. reflexivity.
  - intros Hzero. unfold assertGetTextWithPosition.
    apply Hia in Hzero. rewrite Hzero. reflexivity.
  - intros Htwo. unfold assertGetTextWithPosition.
    destruct (Z.ltb_spec (-1) (indexOf pipe text)) as [Hge|Hlt].
    + destruct (Z.eqb_spec (indexOf pipe text) (lastIndexOf pipe text)) as [Heq|Hne];
        [|reflexivity].
      assert (Hcount : countChar pipe text = 1%nat) by (apply Hone; split; [lia|exact Heq]).
      lia.
    + assert (Hzero : countChar pipe text = 0%nat) by (apply Hia; lia). lia.
Qed.

Lemma assertGetTextWithPosition_round_trip_witness :
  assertGetTextWithPosition "if |" = Ok ("if ", mkPosition 0 3) /\
  assertGetTextWithPosition "if" = Throw (ForeignFault "text must have | marker").
Proof.
  pose proof (assertGetTextWithPosition_round_trip "if |") as H.
  pose proof (assertGetTextWithPosition_round_trip "if") as H'.
  split.
  - apply (proj1 H). exists "if ", EmptyString. repeat split.
  - apply (proj1 (proj2 (proj2 H'))). reflexivity.
Defined.

End AssertUtilsFacts.
